(** * Colourimetry pipeline: a shallow embedding and its verified properties

    The development follows the Python package [colourimetry_pipeline]:
    [spectrum_parser.py], [datasets.py], [analysis.py] and [pipeline.py].

    Numbers.  NumPy arrays of [float64] are modelled as lists of real
    numbers ([R]); [NaN] and the infinities have no counterpart, and every
    arithmetic identity below is an identity of real arithmetic.

    Containers.  A Python [dict] keeps insertion order and that order is
    observable here (replicate averaging reads [entries[0]]), hence dicts are
    association lists with the in-place update discipline of Python.

    Effects.  Methods of [ColourimetryPipeline] mutate the pipeline object,
    write to the module logger and may raise; they are modelled in a
    state-and-exception monad over a [World] made of the pipeline and the log. *)

From Stdlib Require Import Reals Lra Lia List String Ascii ZArith Bool.
From Stdlib Require Import Permutation Sorted.
From Stdlib Require Import Hexadecimal HexadecimalString HexadecimalZ.
From Stdlib Require DecimalString DecimalNat.
Import ListNotations.

Set Implicit Arguments.

Local Open Scope string_scope.
Local Open Scope list_scope.
Local Open Scope R_scope.

(* ------------------------------------------------------------------ *)
(** ** Python runtime fragments *)

Module Py.

(** Exceptions raised by the modelled code, with their message. *)
Inductive exn : Type :=
| ValueError (msg : string)
| KeyError (msg : string)
| RuntimeError (msg : string)
| IndexError (msg : string)
| TypeError (msg : string)
| FileNotFoundError (msg : string).

Inductive result (A : Type) : Type :=
| Ok (a : A)
| Raise (e : exn).
Arguments Ok {A} a.
Arguments Raise {A} e.

Definition bind {A B} (r : result A) (k : A -> result B) : result B :=
  match r with
  | Ok a => k a
  | Raise e => Raise e
  end.

(** [for x in xs: acc = f(acc, x)] where the body may raise. *)
Fixpoint foldM {A B} (f : B -> A -> result B) (xs : list A) (acc : B) : result B :=
  match xs with
  | [] => Ok acc
  | x :: xs' => bind (f acc x) (foldM f xs')
  end.

Fixpoint mapM {A B} (f : A -> result B) (xs : list A) : result (list B) :=
  match xs with
  | [] => Ok []
  | x :: xs' => bind (f x) (fun y => bind (mapM f xs') (fun ys => Ok (y :: ys)))
  end.

End Py.
Import Py.

Declare Scope py_scope.
Delimit Scope py_scope with py.
Notation "x <- c1 ;; c2" := (Py.bind c1 (fun x => c2))
  (at level 61, c1 at next level, right associativity) : py_scope.

(* ------------------------------------------------------------------ *)
(** ** Insertion-ordered dictionaries *)

Section Dict.
Context {K V : Type}.
Variable eq_dec : forall x y : K, {x = y} + {x <> y}.

Definition dict := list (K * V).

Fixpoint dict_get (k : K) (d : dict) : option V :=
  match d with
  | [] => None
  | (k', v) :: d' => if eq_dec k k' then Some v else dict_get k d'
  end.

Definition dict_mem (k : K) (d : dict) : bool :=
  match dict_get k d with Some _ => true | None => false end.

Definition dict_keys (d : dict) : list K := map fst d.

(** [d[k] = v]: an existing key keeps its position, a new key goes last. *)
Fixpoint dict_set (k : K) (v : V) (d : dict) : dict :=
  match d with
  | [] => [(k, v)]
  | (k', v') :: d' =>
      if eq_dec k k' then (k', v) :: d' else (k', v') :: dict_set k v d'
  end.

(** [d.update(other)]. *)
Definition dict_update (d other : dict) : dict :=
  fold_left (fun acc kv => dict_set (fst kv) (snd kv) acc) other d.

(** The last binding of [k] in a sequence of assignments. *)
Fixpoint last_binding (k : K) (l : list (K * V)) : option V :=
  match l with
  | [] => None
  | (k', v) :: l' =>
      match last_binding k l' with
      | Some w => Some w
      | None => if eq_dec k k' then Some v else None
      end
  end.

End Dict.



(* ------------------------------------------------------------------ *)
(** ** Strings *)

Definition str_map (f : ascii -> ascii) : string -> string :=
fix go (s : string) : string :=
  match s with
  | EmptyString => EmptyString
  | String c s' => String (f c) (go s')
  end.

Definition ascii_upper (c : ascii) : ascii :=
  let n := nat_of_ascii c in
  if ((97 <=? n) && (n <=? 122))%nat then ascii_of_nat (n - 32) else c.

Definition ascii_lower (c : ascii) : ascii :=
  let n := nat_of_ascii c in
  if ((65 <=? n) && (n <=? 90))%nat then ascii_of_nat (n + 32) else c.

(** [s.upper()] and [s.lower()] on ASCII text. *)
Definition upper : string -> string := str_map ascii_upper.
Definition lower : string -> string := str_map ascii_lower.

(** [sep in s] for a non-empty [sep]. *)
Fixpoint contains (sep s : string) : bool :=
  if prefix sep s then true
  else match s with
       | EmptyString => false
       | String _ s' => contains sep s'
       end.

(** [s.split(sep)[0]]: the text before the first occurrence of [sep]. *)
Fixpoint split_head (sep s : string) : string :=
  if prefix sep s then EmptyString
  else match s with
       | EmptyString => EmptyString
       | String c s' => String c (split_head sep s')
       end.

(** [s.split(sep, 1)] when it has two parts: text before and after the
    first occurrence of [sep]; [None] when [sep] does not occur. *)
Fixpoint split_once (sep s : string) : option (string * string) :=
  if prefix sep s then Some (EmptyString, substring (String.length sep) (String.length s - String.length sep) s)
  else match s with
       | EmptyString => None
       | String c s' =>
           match split_once sep s' with
           | Some (a, b) => Some (String c a, b)
           | None => None
           end
       end.

(* ------------------------------------------------------------------ *)
(** ** NumPy fragments over real arrays *)

Definition array := list R.

Definition Rleb (x y : R) : bool := if Rle_dec x y then true else false.
Definition Reqb (x y : R) : bool := if Req_dec_T x y then true else false.

(** [np.log10] and [10 ** x]. *)
Definition log10 (x : R) : R := ln x / ln 10.
Definition pow10 (x : R) : R := Rpower 10 x.

(** [np.clip(x, lo, None)] and [np.clip(x, lo, hi)]. *)
Definition clip_min (lo x : R) : R := Rmax x lo.
Definition clip (lo hi x : R) : R := Rmin (Rmax x lo) hi.

(** [x % 1], the remainder of the floored division by one. *)
Definition mod1 (x : R) : R := frac_part x.

(** [a.sum()] and [a.mean()]. *)
Definition np_sum (a : array) : R := fold_left Rplus a 0.
Definition np_mean (a : array) : R := np_sum a / INR (List.length a).

(** [a[mask]] with a boolean mask: the lengths must agree. *)
Fixpoint bool_index {A} (a : list A) (mask : list bool) : result (list A) :=
  match a, mask with
  | [], [] => Ok []
  | x :: a', b :: mask' =>
      (r <- bool_index a' mask' ;; Ok (if b then x :: r else r))%py
  | _, _ => Raise (IndexError "boolean index did not match indexed array")
  end.

(** [a[idx]] with an array of positions. *)
Definition fancy_index {A} (a : list A) (idx : list nat) : result (list A) :=
  mapM (fun i => match nth_error a i with
                 | Some x => Ok x
                 | None => Raise (IndexError "index out of bounds")
                 end) idx.

(** [np.argsort]: positions of the elements in ascending order of value.
    NumPy leaves the order of equal values open; here equal values keep
    their input order. *)
Fixpoint insert_by (key : nat -> R) (i : nat) (l : list nat) : list nat :=
  match l with
  | [] => [i]
  | j :: l' => if Rle_dec (key i) (key j) then i :: l else j :: insert_by key i l'
  end.

Definition argsort (a : array) : list nat :=
  fold_right (insert_by (fun i => nth i a 0)) [] (seq 0 (List.length a)).

(** [np.stack(rows, axis=0)]: all rows must have the same shape. *)
Definition np_stack (rows : list array) : result (list array) :=
  match rows with
  | [] => Raise (ValueError "need at least one array to stack")
  | r :: rest =>
      if forallb (fun r' => Nat.eqb (List.length r') (List.length r)) rest
      then Ok rows
      else Raise (ValueError "all input arrays must have the same shape")
  end.

(** [m.mean(axis=0)] of a stacked matrix: column sums over the row count. *)
Fixpoint zip_with {A B C} (f : A -> B -> C) (xs : list A) (ys : list B) : list C :=
  match xs, ys with
  | x :: xs', y :: ys' => f x y :: zip_with f xs' ys'
  | _, _ => []
  end.

Definition column_sums (m : list array) : array :=
  match m with
  | [] => []
  | r :: rest => fold_left (zip_with Rplus) rest r
  end.

Definition mean_axis0 (m : list array) : array :=
  map (fun s => s / INR (List.length m)) (column_sums m).

(* ------------------------------------------------------------------ *)
(** ** spectrum_parser.py *)

Record SpectralRecord : Type := {
  wavelengths : array;
  absorbances : array;
  transmittances : array
}.

(** A generator object: nothing runs until it is iterated; iterating
    either yields the items or raises. *)
Definition generator (A : Type) : Type := result (list A).

(** [SpectralRecord.as_pairs]. *)
Definition as_pairs (self : SpectralRecord) (quantity : string) : generator (R * R) :=
  (data <- (if String.eqb (lower quantity) "absorbance" then Ok (absorbances self)
            else if String.eqb (lower quantity) "transmittance" then Ok (transmittances self)
            else Raise (KeyError (lower quantity))) ;;
   Ok (combine (wavelengths self) data))%py.

(** What [specio.specread] returns for a file. *)
Record Spectrum : Type := {
  wavelength : array;
  amplitudes : array
}.

Record SpcFileParser : Type := {
  filename : string;
  mode : string
}.

(** [SpcFileParser.__init__]. *)
Definition SpcFileParser_init (filename mode : string) : result SpcFileParser :=
  let mode := upper mode in
  if existsb (String.eqb mode) ["A"; "T"; "R"]
  then Ok {| filename := filename; mode := mode |}
  else Raise (ValueError "mode must be 'A' (absorbance), 'T' (transmittance) or 'R' (reflectance)").

(** The conversion of amplitudes into the (absorbance, transmittance) pair. *)
Definition convert_amplitudes (mode : string) (amplitudes : array) : array * array :=
  if String.eqb mode "A" then
    (amplitudes, map (fun a => pow10 (- a)) amplitudes)
  else if String.eqb mode "T" then
    (map (fun a => - log10 (clip_min 1e-12 a)) amplitudes, amplitudes)
  else
    let absorbances := map (fun a => 1 - a) amplitudes in
    (absorbances, map (fun a => pow10 (- a)) absorbances).

Definition selector (wavelengths : array) : list bool :=
  map (fun w => Reqb (mod1 w) 0 && Rleb 250 w && Rleb w 800) wavelengths.

(** [SpcFileParser.parse]; [specread] is [None] when specio is missing. *)
Definition parse (specread : option (string -> result Spectrum))
    (self : SpcFileParser) : result SpectralRecord :=
  match specread with
  | None => Raise (RuntimeError "specio is not available in this environment. Install it to parse SPC files.")
  | Some specread =>
      (spectra <- specread (filename self) ;;
       let wavelengths := wavelength spectra in
       let amplitudes := amplitudes spectra in
       let '(absorbances, transmittances) := convert_amplitudes (mode self) amplitudes in
       let selector := selector wavelengths in
       w_sel <- bool_index wavelengths selector ;;
       let sort_idx := argsort w_sel in
       w <- fancy_index w_sel sort_idx ;;
       a_sel <- bool_index absorbances selector ;;
       a <- fancy_index a_sel sort_idx ;;
       t_sel <- bool_index transmittances selector ;;
       t <- fancy_index t_sel sort_idx ;;
       Ok {| wavelengths := w; absorbances := a; transmittances := t |})%py
  end.

(* ------------------------------------------------------------------ *)
(** ** datasets.py *)

Arguments dict : clear implicits.

Record DatasetEntry : Type := {
  record : SpectralRecord;
  measurement : string;
  metadata : dict string string
}.

Record DatasetCollection : Type := {
  entries : dict string DatasetEntry
}.

(** [DatasetCollection()]. *)
Definition DatasetCollection_new : DatasetCollection := {| entries := [] |}.

(** [key in collection]. *)
Definition collection_contains (self : DatasetCollection) (key : string) : bool :=
  dict_mem string_dec key (entries self).

(** [DatasetCollection.add]. *)
Definition add (self : DatasetCollection) (name : string) (record : SpectralRecord)
    (measurement : string) (metadata : dict string string) : DatasetCollection :=
  {| entries := dict_set string_dec name
                  {| record := record; measurement := measurement; metadata := metadata |}
                  (entries self) |}.

(** [DatasetCollection.subset]; [self.entries[key]] raises on a missing key. *)
Definition subset (self : DatasetCollection) (keys : list string) : result DatasetCollection :=
  foldM (fun (subset : DatasetCollection) key =>
           match dict_get string_dec key (entries self) with
           | Some e => Ok {| entries := dict_set string_dec key e (entries subset) |}
           | None => Raise (KeyError key)
           end) keys DatasetCollection_new.

(** [DatasetCollection.extend]. *)
Definition extend (self other : DatasetCollection) : DatasetCollection :=
  {| entries := dict_update string_dec (entries self) (entries other) |}.

(** The grouping key of [averaged]: the text before the first [suffix]. *)
Definition key_root (suffix key : string) : string :=
  if negb (String.eqb suffix "") && contains suffix key
  then split_head suffix key
  else key.

(** [grouped[root].append(entry)] on a [defaultdict(list)]. *)
Definition grouped_append (grouped : dict string (list DatasetEntry))
    (root : string) (entry : DatasetEntry) : dict string (list DatasetEntry) :=
  dict_set string_dec root
    (match dict_get string_dec root grouped with
     | Some l => l ++ [entry]
     | None => [entry]
     end) grouped.

Definition group_by_root (suffix : string) (items : dict string DatasetEntry)
  : dict string (list DatasetEntry) :=
  fold_left (fun grouped kv => grouped_append grouped (key_root suffix (fst kv)) (snd kv))
    items [].

(** The body of the second loop of [averaged] for one root. *)
Definition average_entries (entries : list DatasetEntry) : result DatasetEntry :=
  match entries with
  | [e] => Ok e
  | _ =>
      (wavelengths <- np_stack (map (fun e => wavelengths (record e)) entries) ;;
       values <- np_stack (map (fun e => transmittances (record e)) entries) ;;
       let mean_wavelengths := mean_axis0 wavelengths in
       let mean_values := mean_axis0 values in
       let absorbances := map (fun v => - log10 (clip_min 1e-12 v)) mean_values in
       match entries with
       | [] => Raise (IndexError "list index out of range")
       | e0 :: _ =>
           Ok {| record := {| wavelengths := mean_wavelengths;
                              absorbances := absorbances;
                              transmittances := mean_values |};
                 measurement := "transmittance";
                 metadata := metadata e0 |}
       end)%py
  end.

(** [DatasetCollection.averaged]. *)
Definition averaged (self : DatasetCollection) (suffix : string) : result DatasetCollection :=
  let grouped := group_by_root suffix (entries self) in
  foldM (fun (averaged_collection : DatasetCollection) (g : string * list DatasetEntry) =>
           (e <- average_entries (snd g) ;;
            Ok {| entries := dict_set string_dec (fst g) e (entries averaged_collection) |})%py)
    grouped DatasetCollection_new.

(** A directory entry as [Path.iterdir] lists it: stem, suffix, full path. *)
Record DirItem : Type := {
  stem : string;
  item_suffix : string;
  item_path : string
}.

(** The file system and the optional reader seen by the loader:
    [listing p] is [None] when [p] does not exist, else what
    [sorted(Path(p).iterdir())] returns. *)
Record Env : Type := {
  listing : string -> option (list DirItem);
  specread : option (string -> result Spectrum)
}.

(** [DatasetCollection.from_directory]. *)
Definition from_directory (env : Env) (path measurement mode extension : string)
  : result DatasetCollection :=
  match listing env path with
  | None => Raise (FileNotFoundError path)
  | Some items =>
      foldM (fun (collection : DatasetCollection) item =>
               if negb (String.eqb (lower (item_suffix item)) (lower extension))
               then Ok collection
               else
                 (parser <- SpcFileParser_init (item_path item) mode ;;
                  record <- parse (specread env) parser ;;
                  Ok (add collection (stem item) record measurement []))%py)
        items DatasetCollection_new
  end.

(** [merge_collections]. *)
Definition merge_collections (collections : dict string DatasetCollection) : DatasetCollection :=
  fold_left (fun merged kv => extend merged (snd kv)) collections DatasetCollection_new.

(* ------------------------------------------------------------------ *)
(** ** analysis.py *)

Definition Vec3 : Type := (R * R * R)%type.

Definition vec3_list (v : Vec3) : array :=
  let '(x, y, z) := v in [x; y; z].

Definition vec3_map (f : R -> R) (v : Vec3) : Vec3 :=
  let '(x, y, z) := v in (f x, f y, f z).

(** A spectral distribution of the colour-science package: wavelength to value. *)
Definition SpectralDistribution : Type := dict R R.

(** The part of the third-party [colour] package the analysis calls.
    [sd_to_XYZ] stands for the call with the CIE 1931 2 degree observer
    and [method="Integration"]. *)
Record Colour : Type := {
  sd_to_XYZ : SpectralDistribution -> option SpectralDistribution -> Vec3;
  XYZ_to_Lab : Vec3 -> Vec3;
  XYZ_to_sRGB : Vec3 -> Vec3;
  XYZ_to_xy : Vec3 -> R * R;
  whiteness_CIE2004 : R * R -> R -> R * R -> R * R;
  sd_blackbody : R -> SpectralDistribution
}.

Module ColourMetrics.
Record t : Type := {
  rgb : Vec3;
  lab : Vec3;
  xyz : Vec3;
  whiteness : R;
  tint : R;
  lightness : R;
  chroma : R;
  delta_e : R;
  delta_c : R
}.
End ColourMetrics.

(** What a caller may pass as [spectrum]: a sequence of pairs, or the
    generator object that [as_pairs] returns. *)
Inductive PySpectrum : Type :=
| Pairs (l : list (R * R))
| Gen (g : generator (R * R)).

(** [np.array(spectrum, dtype=float)] followed by the column reads
    [spectrum[:, 0]] and [spectrum[:, 1]].  NumPy does not iterate a
    generator: it is taken as one scalar object, which [float] rejects.
    An empty sequence gives a one-dimensional array, which has no columns. *)
Definition np_array_columns (spectrum : PySpectrum) : result (array * array) :=
  match spectrum with
  | Gen _ => Raise (TypeError "float() argument must be a string or a real number, not 'generator'")
  | Pairs [] => Raise (IndexError "too many indices for array")
  | Pairs l => Ok (map fst l, map snd l)
  end.

(** [dict(zip(keys, values))]. *)
Definition dict_zip (keys values : array) : SpectralDistribution :=
  dict_update Req_dec_T [] (combine keys values).

Definition colour_missing : exn :=
  RuntimeError "The 'colour' package is required for colourimetric computations.".

(** [spectrum_to_xyz]; [colour] is [None] when the package failed to import. *)
Definition spectrum_to_xyz (colour : option Colour) (spectrum : PySpectrum)
    (absorbance : bool) (illuminant : option SpectralDistribution)
  : result (Vec3 * Vec3 * Vec3) :=
  match colour with
  | None => Raise colour_missing
  | Some colour =>
      (cols <- np_array_columns spectrum ;;
       let wavelengths := fst cols in
       let values := snd cols in
       let mask := map (fun w => Rleb 360 w && Rleb w 800) wavelengths in
       wavelengths <- bool_index wavelengths mask ;;
       values <- bool_index values mask ;;
       let transmittance :=
         if absorbance then map (fun v => pow10 (- v)) values else values in
       let sd_transmittance := dict_zip wavelengths transmittance in
       let xyz := sd_to_XYZ colour sd_transmittance illuminant in
       let xyz := vec3_map (fun c => c / 100) xyz in
       let lab := XYZ_to_Lab colour xyz in
       let rgb := XYZ_to_sRGB colour xyz in
       let rgb := vec3_map (clip 0 1) rgb in
       Ok (rgb, lab, xyz))%py
  end.

(** [whiteness_and_tint] with its default reference chromaticity. *)
Definition whiteness_and_tint (colour : option Colour) (xyz : Vec3) : result (R * R) :=
  match colour with
  | None => Raise colour_missing
  | Some colour =>
      let xy := XYZ_to_xy colour xyz in
      let Y := snd (fst xyz) in
      Ok (whiteness_CIE2004 colour xy Y (0.3139, 0.3311))
  end.

(** [a - b] on one-dimensional arrays, with NumPy broadcasting. *)
Definition np_sub (a b : array) : result array :=
  if Nat.eqb (List.length a) (List.length b) then Ok (zip_with Rminus a b)
  else match a, b with
       | [x], _ => Ok (map (fun y => x - y) b)
       | _, [y] => Ok (map (fun x => x - y) a)
       | _, _ => Raise (ValueError "operands could not be broadcast together")
       end.

(** [np.linalg.norm] of a vector. *)
Definition norm (a : array) : R := sqrt (np_sum (map (fun x => x * x) a)).

(** [a[1:3]]. *)
Definition slice_1_3 (a : array) : array := firstn 2 (skipn 1 a).

Definition delta_e (sample_lab reference_lab : array) : result R :=
  (d <- np_sub sample_lab reference_lab ;; Ok (norm d))%py.

Definition delta_c (sample_lab reference_lab : array) : result R :=
  (d <- np_sub (slice_1_3 sample_lab) (slice_1_3 reference_lab) ;; Ok (norm d))%py.

(** [np.hypot]. *)
Definition hypot (a b : R) : R := sqrt (a * a + b * b).

Definition lightness_chroma (lab : Vec3) : R * R :=
  let '(L, a, b) := lab in
  let chroma := hypot a b in
  (L, chroma).

Definition compute_colour_metrics (colour : option Colour) (spectrum : PySpectrum)
    (absorbance : bool) (illuminant : option SpectralDistribution)
    (reference_lab : array) : result ColourMetrics.t :=
  (r <- spectrum_to_xyz colour spectrum absorbance illuminant ;;
   let '(rgb, lab, xyz) := r in
   wt <- whiteness_and_tint colour xyz ;;
   let '(lightness, chroma) := lightness_chroma lab in
   delta_e_value <- delta_e (vec3_list lab) reference_lab ;;
   delta_c_value <- delta_c (vec3_list lab) reference_lab ;;
   Ok {| ColourMetrics.rgb := rgb; ColourMetrics.lab := lab; ColourMetrics.xyz := xyz;
         ColourMetrics.whiteness := fst wt; ColourMetrics.tint := snd wt;
         ColourMetrics.lightness := lightness; ColourMetrics.chroma := chroma;
         ColourMetrics.delta_e := delta_e_value;
         ColourMetrics.delta_c := delta_c_value |})%py.

Definition blackbody_illuminant (colour : option Colour) (temperature : R)
  : result SpectralDistribution :=
  match colour with
  | None => Raise colour_missing
  | Some colour => Ok (sd_blackbody colour temperature)
  end.

(** The built-in [round] on a float: nearest integer, ties to even. *)
Definition py_round (x : R) : Z :=
  let f := Int_part x in
  let r := frac_part x in
  if Rlt_dec r (1 / 2) then f
  else if Rlt_dec (1 / 2) r then (f + 1)%Z
  else if Z.even f then f else (f + 1)%Z.

(** [str.format] with the specification [02x]. *)
Definition format_02x (n : Z) : string :=
  let digits := HexadecimalString.NilZero.string_of_uint (N.to_hex_uint (Z.abs_N n)) in
  if (n <? 0)%Z then ("-" ++ digits)%string
  else if (String.length digits <? 2)%nat then ("0" ++ digits)%string
  else digits.

Definition rgb_to_hex (rgb : array) : result string :=
  let rgb := map (clip 0 1) rgb in
  match map (fun val => py_round (val * 255)) rgb with
  | r :: g :: b :: _ =>
      Ok ("#" ++ format_02x r ++ format_02x g ++ format_02x b)%string
  | _ => Raise (IndexError "Replacement index out of range for positional args tuple")
  end.

(* ------------------------------------------------------------------ *)
(** ** config.py *)

Module DirectoryConfig.
Record t : Type := {
  name : string;
  path : string;
  mode : string;
  measurement : string;
  extension : string;
  replicate_suffix : string
}.
End DirectoryConfig.

Module DatasetGroup.
Record t : Type := {
  name : string;
  source : string;
  keys : list string;
  extra_assignments : dict string string
}.
End DatasetGroup.

(** The fields of [NotebookConfig] the pipeline logic reads. *)
Module NotebookConfig.
Record t : Type := {
  directories : list DirectoryConfig.t;
  groups : list DatasetGroup.t;
  illuminants : dict string SpectralDistribution;
  reference_lab : array
}.
End NotebookConfig.

(* ------------------------------------------------------------------ *)
(** ** pipeline.py *)

Module ColourResult.
Record t : Type := {
  name : string;
  metrics : ColourMetrics.t;
  decolouring_percentage : R;
  white_distance : R
}.
End ColourResult.

(** The mutable attributes of a [ColourimetryPipeline] object. *)
Record Pipeline : Type := {
  config : NotebookConfig.t;
  raw_collections : dict string DatasetCollection;
  all_data : DatasetCollection;
  averaged_data : DatasetCollection;
  groups : dict string DatasetCollection;
  results : dict string ColourResult.t
}.

(** [ColourimetryPipeline.__init__]. *)
Definition Pipeline_init (config : NotebookConfig.t) : Pipeline :=
  {| config := config;
     raw_collections := [];
     all_data := DatasetCollection_new;
     averaged_data := DatasetCollection_new;
     groups := [];
     results := [] |}.

Inductive LogLevel : Type := WARNING | ERROR.

Definition LogRecord : Type := (LogLevel * string)%type.

(** What a method call can change: the pipeline object and the log. *)
Record World : Type := {
  self : Pipeline;
  logged : list LogRecord
}.

(** Computations that read and write the world and may raise; a raised
    exception leaves the world as it was at the [raise]. *)
Definition M (A : Type) : Type := World -> result A * World.

Definition ret {A} (a : A) : M A := fun w => (Ok a, w).

Definition bindM {A B} (m : M A) (k : A -> M B) : M B :=
  fun w => match m w with
           | (Ok a, w') => k a w'
           | (Raise e, w') => (Raise e, w')
           end.

Definition raise {A} (e : exn) : M A := fun w => (Raise e, w).

Definition lift {A} (r : result A) : M A := fun w => (r, w).

Definition get_self : M Pipeline := fun w => (Ok (self w), w).

Definition modify_self (f : Pipeline -> Pipeline) : M unit :=
  fun w => (Ok tt, {| self := f (self w); logged := logged w |}).

Definition log_record (level : LogLevel) (msg : string) : M unit :=
  fun w => (Ok tt, {| self := self w; logged := logged w ++ [(level, msg)] |}).

Declare Scope world_scope.
Delimit Scope world_scope with world.
Notation "x <- c1 ;; c2" := (bindM c1 (fun x => c2))
  (at level 61, c1 at next level, right associativity) : world_scope.
Notation "c1 ;; c2" := (bindM c1 (fun _ => c2))
  (at level 61, right associativity) : world_scope.

(** [for x in xs: body(x)]. *)
Fixpoint for_each {A} (xs : list A) (body : A -> M unit) : M unit :=
  match xs with
  | [] => ret tt
  | x :: xs' => (body x ;; for_each xs' body)%world
  end.

(** [given or default] on an optional sequence: [None] and the empty
    sequence are both falsy. *)
Definition seq_or {A} (given : option (list A)) (default : list A) : list A :=
  match given with
  | Some (x :: l) => x :: l
  | _ => default
  end.

Definition set_raw_collection (name : string) (collection : DatasetCollection)
    (p : Pipeline) : Pipeline :=
  {| config := config p;
     raw_collections := dict_set string_dec name collection (raw_collections p);
     all_data := all_data p;
     averaged_data := averaged_data p;
     groups := groups p;
     results := results p |}.

Definition set_all_data (d : DatasetCollection) (p : Pipeline) : Pipeline :=
  {| config := config p;
     raw_collections := raw_collections p;
     all_data := d;
     averaged_data := averaged_data p;
     groups := groups p;
     results := results p |}.

Definition set_averaged_data (d : DatasetCollection) (p : Pipeline) : Pipeline :=
  {| config := config p;
     raw_collections := raw_collections p;
     all_data := all_data p;
     averaged_data := d;
     groups := groups p;
     results := results p |}.

Definition set_group (name : string) (subset : DatasetCollection) (p : Pipeline) : Pipeline :=
  {| config := config p;
     raw_collections := raw_collections p;
     all_data := all_data p;
     averaged_data := averaged_data p;
     groups := dict_set string_dec name subset (groups p);
     results := results p |}.

Definition set_result (key : string) (result : ColourResult.t) (p : Pipeline) : Pipeline :=
  {| config := config p;
     raw_collections := raw_collections p;
     all_data := all_data p;
     averaged_data := averaged_data p;
     groups := groups p;
     results := dict_set string_dec key result (results p) |}.

(** [ColourimetryPipeline._build_averaged_dataset]. *)
Definition _build_averaged_dataset : M unit :=
  (p <- get_self ;;
   match entries (all_data p) with
   | [] => ret tt
   | _ =>
       averaged_data <- lift (averaged (all_data p) "#") ;;
       modify_self (set_averaged_data averaged_data)
   end)%world.

(** The body of the loop of [load_directories]. *)
Definition load_directory (env : Env) (directory : DirectoryConfig.t) : M unit :=
  match listing env (DirectoryConfig.path directory) with
  | None =>
      log_record WARNING
        ("Directory " ++ DirectoryConfig.path directory ++ " does not exist; skipping")%string
  | Some _ =>
      (collection <- lift (from_directory env
                             (DirectoryConfig.path directory)
                             (DirectoryConfig.measurement directory)
                             (DirectoryConfig.mode directory)
                             (DirectoryConfig.extension directory)) ;;
       modify_self (set_raw_collection (DirectoryConfig.name directory) collection) ;;
       modify_self (fun p => set_all_data (extend (all_data p) collection) p))%world
  end.

(** [ColourimetryPipeline.load_directories]. *)
Definition load_directories (env : Env) (directories : option (list DirectoryConfig.t)) : M unit :=
  (p <- get_self ;;
   let directories := seq_or directories (NotebookConfig.directories (config p)) in
   for_each directories (load_directory env) ;;
   _build_averaged_dataset)%world.

(** [collection_lookup.get(name)] in [build_groups]. *)
Definition collection_lookup (p : Pipeline) (name : string) : option DatasetCollection :=
  dict_get string_dec name [("all", all_data p); ("averaged", averaged_data p)].

(** The two inner loops of [build_groups] for one group: the subset built
    and the records logged on the way. *)
Definition subset_from_keys (source_collection : DatasetCollection) (keys : list string)
  : DatasetCollection * list LogRecord :=
  fold_left (fun (acc : DatasetCollection * list LogRecord) key =>
               let '(subset, logs) := acc in
               if collection_contains source_collection key then
                 match dict_get string_dec key (entries source_collection) with
                 | Some e => ({| entries := dict_set string_dec key e (entries subset) |}, logs)
                 | None => (subset, logs)
                 end
               else
                 (subset, logs ++ [(WARNING, "Key " ++ key ++ " not found in source collection")%string]))
    keys (DatasetCollection_new, []).

Definition apply_assignment (p : Pipeline) (acc : DatasetCollection * list LogRecord)
    (assignment : string * string) : DatasetCollection * list LogRecord :=
  let '(subset, logs) := acc in
  let '(target_key, descriptor) := assignment in
  match split_once ":" descriptor with
  | None =>
      (subset, logs ++ [(ERROR, "Invalid assignment descriptor '" ++ descriptor ++ "'")%string])
  | Some (source_name, source_key) =>
      match collection_lookup p source_name with
      | Some source =>
          match dict_get string_dec source_key (entries source) with
          | Some e => ({| entries := dict_set string_dec target_key e (entries subset) |}, logs)
          | None =>
              (subset, logs ++ [(WARNING, "Assignment " ++ descriptor ++ " -> " ++ target_key
                                            ++ " could not be resolved")%string])
          end
      | None =>
          (subset, logs ++ [(WARNING, "Assignment " ++ descriptor ++ " -> " ++ target_key
                                        ++ " could not be resolved")%string])
      end
  end.

Definition build_subset (p : Pipeline) (source_collection : DatasetCollection)
    (group : DatasetGroup.t) : DatasetCollection * list LogRecord :=
  fold_left (apply_assignment p) (DatasetGroup.extra_assignments group)
    (subset_from_keys source_collection (DatasetGroup.keys group)).

(** The body of the outer loop of [build_groups]; [p0] is the pipeline at
    the time [collection_lookup] was built. *)
Definition build_group (p0 : Pipeline) (group : DatasetGroup.t) : M unit :=
  match collection_lookup p0 (DatasetGroup.source group) with
  | None =>
      raise (ValueError ("Unknown dataset source '" ++ DatasetGroup.source group ++ "'")%string)
  | Some source_collection =>
      let '(subset, logs) := build_subset p0 source_collection group in
      (for_each logs (fun r => log_record (fst r) (snd r)) ;;
       modify_self (set_group (DatasetGroup.name group) subset))%world
  end.

(** [ColourimetryPipeline.build_groups]. *)
Definition build_groups (groups : option (list DatasetGroup.t)) : M unit :=
  (p <- get_self ;;
   let groups := seq_or groups (NotebookConfig.groups (config p)) in
   for_each groups (build_group p))%world.

(** [ColourimetryPipeline._compute_colour_distances]. *)
Definition _compute_colour_distances (rgb : array) : R * R :=
  let reference_rgb := map (fun c => c / 255) [68; 77; 55] in
  let decolouring :=
    (np_sum rgb - np_sum reference_rgb) / (3 - np_sum reference_rgb) * 100 in
  let white_distance := (1 - np_mean rgb) * 100 in
  (decolouring, white_distance).

(** The [illuminant] argument of [analyse_group]: a name, or the
    distribution itself. *)
Inductive IlluminantArg : Type :=
| ByName (name : string)
| Direct (sd : SpectralDistribution).

(** The computation of one [ColourResult] in the analysis loops. *)
Definition analyse_entry (colour : option Colour) (absorbance : bool)
    (illuminant_sd : SpectralDistribution) (reference_lab : array)
    (item : string * DatasetEntry) : result ColourResult.t :=
  let '(key, entry) := item in
  let spectrum :=
    Gen (as_pairs (record entry) (if absorbance then "absorbance" else "transmittance")) in
  (metrics <- compute_colour_metrics colour spectrum absorbance (Some illuminant_sd) reference_lab ;;
   let '(decolouring, white_distance) :=
     _compute_colour_distances (vec3_list (ColourMetrics.rgb metrics)) in
   Ok {| ColourResult.name := key;
         ColourResult.metrics := metrics;
         ColourResult.decolouring_percentage := decolouring;
         ColourResult.white_distance := white_distance |})%py.

(** The loop of [analyse_group] over the items of the group, with its
    local [results] made explicit: it ends with the local dict and the
    exception that stopped it, if any.  Each result goes to the local dict
    and to [self.results]. *)
Fixpoint analyse_and_store (compute : string * DatasetEntry -> result ColourResult.t)
    (items : dict string DatasetEntry) (results : dict string ColourResult.t)
    (w : World) : (dict string ColourResult.t * option exn) * World :=
  match items with
  | [] => ((results, None), w)
  | (key, entry) :: rest =>
      match compute (key, entry) with
      | Raise e => ((results, Some e), w)
      | Ok result =>
          let results := dict_set string_dec key result results in
          let w := {| self := set_result key result (self w); logged := logged w |} in
          analyse_and_store compute rest results w
      end
  end.

(** The loop of [analyse_blackbody]: the local dict only. *)
Fixpoint analyse_local (compute : string * DatasetEntry -> result ColourResult.t)
    (items : dict string DatasetEntry) (results : dict string ColourResult.t)
  : result (dict string ColourResult.t) :=
  match items with
  | [] => Ok results
  | (key, entry) :: rest =>
      (result <- compute (key, entry) ;;
       analyse_local compute rest (dict_set string_dec key result results))%py
  end.

Definition group_missing (group_name : string) : exn :=
  KeyError ("Group '" ++ group_name ++ "' has not been built")%string.

Definition illuminant_missing (illuminant : string) : exn :=
  KeyError ("Illuminant '" ++ illuminant ++ "' not defined")%string.

(** [d[k]] in an expression. *)
Definition subscript {V} (d : dict string V) (k : string) : M V :=
  match dict_get string_dec k d with
  | Some v => ret v
  | None => raise (KeyError k)
  end.

(** [ColourimetryPipeline.analyse_group]. *)
Definition analyse_group (colour : option Colour) (group_name : string)
    (illuminant : IlluminantArg) (absorbance : bool) (reference_lab : option array)
  : M (dict string ColourResult.t) :=
  (p <- get_self ;;
   if negb (dict_mem string_dec group_name (groups p)) then raise (group_missing group_name)
   else
     let reference_lab := seq_or reference_lab (NotebookConfig.reference_lab (config p)) in
     illuminant_sd <-
       match illuminant with
       | ByName illuminant =>
           if negb (dict_mem string_dec illuminant (NotebookConfig.illuminants (config p)))
           then raise (illuminant_missing illuminant)
           else subscript (NotebookConfig.illuminants (config p)) illuminant
       | Direct sd => ret sd
       end ;;
     group <- subscript (groups p) group_name ;;
     fun w =>
       match analyse_and_store (analyse_entry colour absorbance illuminant_sd reference_lab)
               (entries group) [] w with
       | ((results, None), w') => (Ok results, w')
       | ((_, Some e), w') => (Raise e, w')
       end)%world.

(** [ColourimetryPipeline.analyse_blackbody]. *)
Definition analyse_blackbody (colour : option Colour) (group_name : string)
    (temperature : R) (absorbance : bool) (reference_lab : option array)
  : M (dict string ColourResult.t) :=
  (p <- get_self ;;
   if negb (dict_mem string_dec group_name (groups p)) then raise (group_missing group_name)
   else
     let reference_lab := seq_or reference_lab (NotebookConfig.reference_lab (config p)) in
     illuminant_sd <- lift (blackbody_illuminant colour temperature) ;;
     group <- subscript (groups p) group_name ;;
     lift (analyse_local (analyse_entry colour absorbance illuminant_sd reference_lab)
             (entries group) []))%world.

(* ------------------------------------------------------------------ *)
(** ** Specification vocabulary and example data *)

(** The lowercase hexadecimal digit of a value below sixteen. *)
Definition lower_hex_digit (n : Z) : ascii :=
  match String.get (Z.to_nat n) "0123456789abcdef" with
  | Some c => c
  | None => "0"%char
  end.

(** Two lowercase hexadecimal digits, most significant first. *)
Definition two_hex_digits (n : Z) : string :=
  String (lower_hex_digit (n / 16)) (String (lower_hex_digit (n mod 16)) EmptyString).

(** The sample filter of [parse]: integer-valued and within the band. *)
Definition in_band (w : R) : bool :=
  Reqb (mod1 w) 0 && Rleb 250 w && Rleb w 800.

(** The samples of a file as (wavelength, (absorbance, transmittance)). *)
Definition samples_of (mode : string) (spectra : Spectrum) : list (R * (R * R)) :=
  combine (wavelength spectra)
    (combine (fst (convert_amplitudes mode (amplitudes spectra)))
             (snd (convert_amplitudes mode (amplitudes spectra)))).

(** [m] is the element-wise arithmetic mean of the rows. *)
Definition elementwise_mean (rows : list array) (m : array) : Prop :=
  Forall (fun r => List.length r = List.length m) rows /\
  forall j, (j < List.length m)%nat ->
            nth j m 0 = np_sum (map (fun r => nth j r 0) rows) / INR (List.length rows).

(** The entry that [averaged] builds from two or more replicates. *)
Definition mean_entry (e0 : DatasetEntry) (entries : list DatasetEntry) : DatasetEntry :=
  let mean_values := mean_axis0 (map (fun e => transmittances (record e)) entries) in
  {| record := {| wavelengths := mean_axis0 (map (fun e => wavelengths (record e)) entries);
                  absorbances := map (fun v => - log10 (clip_min 1e-12 v)) mean_values;
                  transmittances := mean_values |};
     measurement := "transmittance";
     metadata := metadata e0 |}.

(** The entries of a collection whose key has the given root, in order. *)
Definition replicates_of (suffix root : string) (items : dict string DatasetEntry)
  : list DatasetEntry :=
  map snd (filter (fun kv => String.eqb (key_root suffix (fst kv)) root) items).

(** The second loop of [averaged]. *)
Definition average_groups (grouped : dict string (list DatasetEntry))
    (acc : DatasetCollection) : result DatasetCollection :=
  foldM (fun (averaged_collection : DatasetCollection) (g : string * list DatasetEntry) =>
           (e <- average_entries (snd g) ;;
            Ok {| entries := dict_set string_dec (fst g) e (entries averaged_collection) |})%py)
    grouped acc.

(** A replicate whose transmittance lies below the clipping floor, as a
    reading of 1e-13 in mode [T] is stored. *)
Definition dim_replicate : DatasetEntry :=
  {| record := {| wavelengths := [400];
                  absorbances := [12];
                  transmittances := [1e-13] |};
     measurement := "transmittance";
     metadata := [] |}.

(** The wavelength window of [spectrum_to_xyz]. *)
Definition in_window (wv : R * R) : bool := Rleb 360 (fst wv) && Rleb (fst wv) 800.

(** The value [spectrum_to_xyz] computes from the pairs that reach the
    integration. *)
Definition integrate_kept (colour : Colour) (kept : list (R * R)) (absorbance : bool)
    (illuminant : option SpectralDistribution) : Vec3 * Vec3 * Vec3 :=
  let transmittance :=
    if absorbance then map (fun v => pow10 (- v)) (map snd kept) else map snd kept in
  let raw := sd_to_XYZ colour (dict_zip (map fst kept) transmittance) illuminant in
  let xyz := vec3_map (fun c => c / 100) raw in
  (vec3_map (clip 0 1) (XYZ_to_sRGB colour xyz), XYZ_to_Lab colour xyz, xyz).

(** Everything of the world but [self.results] is the same. *)
Definition same_but_results (w w' : World) : Prop :=
  config (self w') = config (self w) /\
  raw_collections (self w') = raw_collections (self w) /\
  all_data (self w') = all_data (self w) /\
  averaged_data (self w') = averaged_data (self w) /\
  groups (self w') = groups (self w) /\
  logged w' = logged w.





(** The subset and the log records of one group; a group whose source is
    unknown has none. *)
Definition built_subset (p : Pipeline) (group : DatasetGroup.t)
  : DatasetCollection * list LogRecord :=
  match collection_lookup p (DatasetGroup.source group) with
  | Some source_collection => build_subset p source_collection group
  | None => (DatasetCollection_new, [])
  end.

Definition known_source (p : Pipeline) (group : DatasetGroup.t) : Prop :=
  collection_lookup p (DatasetGroup.source group) <> None.

Definition source_error (group : DatasetGroup.t) : exn :=
  ValueError ("Unknown dataset source '" ++ DatasetGroup.source group ++ "'")%string.

(** The named subsets a call of [build_groups] assigns, in order. *)
Definition built_groups (p0 : Pipeline) (groups : list DatasetGroup.t)
  : dict string DatasetCollection :=
  map (fun g => (DatasetGroup.name g, fst (built_subset p0 g))) groups.

Definition with_groups (g : dict string DatasetCollection) (p : Pipeline) : Pipeline :=
  {| config := config p;
     raw_collections := raw_collections p;
     all_data := all_data p;
     averaged_data := averaged_data p;
     groups := g;
     results := results p |}.

Definition named_source (group : DatasetGroup.t) : Prop :=
  DatasetGroup.source group = "all" \/ DatasetGroup.source group = "averaged".

(** What the loop of [load_directories] reads for one directory. *)
Definition collect_directory (env : Env) (directory : DirectoryConfig.t)
  : result (list (string * DatasetCollection)) :=
  match listing env (DirectoryConfig.path directory) with
  | None => Ok []
  | Some _ =>
      (collection <- from_directory env
                       (DirectoryConfig.path directory)
                       (DirectoryConfig.measurement directory)
                       (DirectoryConfig.mode directory)
                       (DirectoryConfig.extension directory) ;;
       Ok [(DirectoryConfig.name directory, collection)])%py
  end.

Fixpoint collected (env : Env) (directories : list DirectoryConfig.t)
  : result (list (string * DatasetCollection)) :=
  match directories with
  | [] => Ok []
  | d :: rest =>
      (c <- collect_directory env d ;;
       cs <- collected env rest ;;
       Ok (c ++ cs))%py
  end.

(** The pipeline after the collections [cs] were stored and merged. *)
Definition with_loaded (cs : list (string * DatasetCollection)) (p : Pipeline) : Pipeline :=
  {| config := config p;
     raw_collections := dict_update string_dec (raw_collections p) cs;
     all_data :=
       {| entries := dict_update string_dec (entries (all_data p))
                       (flat_map (fun c => entries (snd c)) cs) |};
     averaged_data := averaged_data p;
     groups := groups p;
     results := results p |}.

Definition well_formed (p : Pipeline) : Prop :=
  NoDup (dict_keys (raw_collections p)) /\
  NoDup (dict_keys (entries (all_data p))) /\
  NoDup (dict_keys (groups p)).

(** The pipeline used by the rebuild counterexample: nothing loaded. *)
Definition empty_config : NotebookConfig.t :=
  {| NotebookConfig.directories := [];
     NotebookConfig.groups := [];
     NotebookConfig.illuminants := [];
     NotebookConfig.reference_lab := [] |}.

Definition fresh_world : World :=
  {| self := Pipeline_init empty_config; logged := [] |}.

Definition group_named (name : string) : DatasetGroup.t :=
  {| DatasetGroup.name := name;
     DatasetGroup.source := "all";
     DatasetGroup.keys := [];
     DatasetGroup.extra_assignments := [] |}.

Definition sample_entry : DatasetEntry :=
  {| record := {| wavelengths := [400]; absorbances := [0]; transmittances := [1] |};
     measurement := "transmittance";
     metadata := [] |}.

(** A pipeline holding one raw entry and no group. *)
Definition loaded_world : World :=
  {| self := {| config := empty_config;
                raw_collections := [];
                all_data := {| entries := [("present", sample_entry)] |};
                averaged_data := {| entries := [("present", sample_entry)] |};
                groups := [];
                results := [] |};
     logged := [] |}.

(** A group asking for a present key, an absent key and a descriptor
    without a colon. *)
Definition partial_group : DatasetGroup.t :=
  {| DatasetGroup.name := "partial";
     DatasetGroup.source := "all";
     DatasetGroup.keys := ["present"; "absent"];
     DatasetGroup.extra_assignments := [("other", "averaged-present")] |}.

Definition misplaced_group : DatasetGroup.t :=
  {| DatasetGroup.name := "misplaced";
     DatasetGroup.source := "raw";
     DatasetGroup.keys := ["present"];
     DatasetGroup.extra_assignments := [] |}.


(** A file system with one directory holding one file of another kind. *)
Definition notes_only : Env :=
  {| listing := fun p =>
       if String.eqb p "run1"
       then Some [{| stem := "notes"; item_suffix := ".txt"; item_path := "run1/notes.txt" |}]
       else None;
     specread := None |}.

Definition run1 : DirectoryConfig.t :=
  {| DirectoryConfig.name := "run1";
     DirectoryConfig.path := "run1";
     DirectoryConfig.mode := "A";
     DirectoryConfig.measurement := "transmittance";
     DirectoryConfig.extension := ".sp";
     DirectoryConfig.replicate_suffix := "#" |}.

(* ------------------------------------------------------------------ *)
(** ** Further functions of the package *)

(** [DatasetEntry.as_array]: [list] consumes the generator of [as_pairs]
    before NumPy sees it, so the rows are the pairs. *)
Definition as_array (self : DatasetEntry) (quantity : string) : result (list (R * R)) :=
  as_pairs (record self) quantity.

(** [ColourResult.rgb_int]. *)
Definition rgb_int (self : ColourResult.t) : list Z :=
  map (fun channel => py_round (channel * 255))
      (vec3_list (ColourMetrics.rgb (ColourResult.metrics self))).

(** The loop of [analyse_group_under_illuminants], with its local [output]. *)
Fixpoint analyse_each_illuminant (colour : option Colour) (group_name : string)
    (absorbance : bool) (reference_lab : option array) (illuminants : list string)
    (output : dict string (dict string ColourResult.t))
  : M (dict string (dict string ColourResult.t)) :=
  match illuminants with
  | [] => ret output
  | illuminant :: rest =>
      (analysis <- analyse_group colour group_name (ByName illuminant) absorbance reference_lab ;;
       analyse_each_illuminant colour group_name absorbance reference_lab rest
         (dict_set string_dec illuminant analysis output))%world
  end.

(** [ColourimetryPipeline.analyse_group_under_illuminants]. *)
Definition analyse_group_under_illuminants (colour : option Colour) (group_name : string)
    (illuminants : list string) (absorbance : bool) (reference_lab : option array)
  : M (dict string (dict string ColourResult.t)) :=
  analyse_each_illuminant colour group_name absorbance reference_lab illuminants [].

(** The loop of [generate_colour_dataset]. *)
Fixpoint metrics_each_illuminant (colour : option Colour) (group_name : string)
    (absorbance : bool) (illuminants : list string)
    (dataset : dict string (dict string ColourMetrics.t))
  : M (dict string (dict string ColourMetrics.t)) :=
  match illuminants with
  | [] => ret dataset
  | illuminant :: rest =>
      (analysis <- analyse_group colour group_name (ByName illuminant) absorbance None ;;
       metrics_each_illuminant colour group_name absorbance rest
         (dict_set string_dec illuminant
            (dict_update string_dec []
               (map (fun kr => (fst kr, ColourResult.metrics (snd kr))) analysis))
            dataset))%world
  end.

(** [ColourimetryPipeline.generate_colour_dataset]. *)
Definition generate_colour_dataset (colour : option Colour) (group_name : string)
    (illuminants : list string) (absorbance : bool)
  : M (dict string (dict string ColourMetrics.t)) :=
  metrics_each_illuminant colour group_name absorbance illuminants [].

(** [np.interp(x, xp, fp)] at one point, for increasing [xp] (NumPy leaves
    other tables undefined): the first value below the table, the last
    value above it, the chord between the two neighbours inside. *)
Fixpoint interp_from (x x0 f0 : R) (table : list (R * R)) : R :=
  match table with
  | [] => f0
  | (x1, f1) :: rest =>
      if Rle_dec x1 x then interp_from x x1 f1 rest
      else (f1 - f0) / (x1 - x0) * (x - x0) + f0
  end.

Definition interp1 (x : R) (table : list (R * R)) : result R :=
  match table with
  | [] => Raise (ValueError "array of sample points is empty")
  | (x0, f0) :: rest => Ok (if Rle_dec x x0 then f0 else interp_from x x0 f0 rest)
  end.

Definition np_interp (xs xp fp : array) : result array :=
  match xp with
  | [] => Raise (ValueError "array of sample points is empty")
  | _ =>
      if Nat.eqb (List.length fp) (List.length xp)
      then mapM (fun x => interp1 x (combine xp fp)) xs
      else Raise (ValueError "fp and xp are not of the same length")
  end.

(** [np.trapz(y, x)]. *)
Fixpoint np_trapz (y x : array) : R :=
  match y, x with
  | y0 :: ((y1 :: _) as y'), x0 :: ((x1 :: _) as x') =>
      (x1 - x0) * (y1 + y0) / 2 + np_trapz y' x'
  | _, _ => 0
  end.

(** A row of the tabulated observer: wavelength and the three weights. *)
Definition CieRow : Type := (R * R * R * R)%type.

(** [calculate_xyz_from_spd]; an empty table has no columns to read. *)
Definition calculate_xyz_from_spd (spd : list (R * R)) (cie_data : list CieRow)
  : result Vec3 :=
  let wavelengths_spd := map fst spd in
  let power := map snd spd in
  match cie_data with
  | [] => Raise (IndexError "too many indices for array")
  | _ =>
      let wavelengths_cie := map (fun r => fst (fst (fst r))) cie_data in
      let x_cie := map (fun r => snd (fst (fst r))) cie_data in
      let y_cie := map (fun r => snd (fst r)) cie_data in
      let z_cie := map (fun r => snd r) cie_data in
      (x_interp <- np_interp wavelengths_spd wavelengths_cie x_cie ;;
       y_interp <- np_interp wavelengths_spd wavelengths_cie y_cie ;;
       z_interp <- np_interp wavelengths_spd wavelengths_cie z_cie ;;
       let X := np_trapz (zip_with Rmult power x_interp) wavelengths_spd in
       let Y := np_trapz (zip_with Rmult power y_interp) wavelengths_spd in
       let Z := np_trapz (zip_with Rmult power z_interp) wavelengths_spd in
       Ok (X, Y, Z))%py
  end.

(** [np.max]. *)
Definition np_max (a : array) : result R :=
  match a with
  | [] => Raise (ValueError "zero-size array to reduction operation maximum which has no identity")
  | x :: rest => Ok (fold_left Rmax rest x)
  end.

(** Where a float computation ends: with a result or an exception while
    every value is a real number, or with values that are infinite or NaN,
    which the reals do not have. *)
Inductive FloatOutcome (A : Type) : Type :=
| Finite (r : result A)
| NonFinite.
Arguments Finite {A} r.
Arguments NonFinite {A}.

(** [process_data_and_get_color]; [default_cie] is the table of the data
    module, used when [cie_data] is [None].  NumPy divides by a zero
    maximum without raising: every quotient is then infinite or NaN.  With
    an observer table and two paired samples or more the quotients enter
    the integral, X, Y and Z are no longer finite, and what the colour
    package returns for them, hence whether [round] in [rgb_to_hex] meets
    a NaN and raises [ValueError], is beyond the reals: the model ends in
    [NonFinite].  With fewer samples the integral is 0 whatever the
    quotients are. *)
Definition process_data_and_get_color (colour : option Colour) (default_cie : list CieRow)
    (data : list array) (cie_data : option (list CieRow))
  : FloatOutcome (Vec3 * string) :=
  match colour with
  | None => Finite (Raise colour_missing)
  | Some colour =>
      match data with
      | wavelengths :: absorbances :: _ =>
          match np_max absorbances with
          | Raise e => Finite (Raise e)
          | Ok peak =>
              let normalized := map (fun a => a / peak) absorbances in
              let spd := combine wavelengths normalized in
              let cie_data := match cie_data with Some t => t | None => default_cie end in
              if Reqb peak 0 && (2 <=? List.length spd)%nat
                 && negb (Nat.eqb (List.length cie_data) 0)
              then NonFinite
              else
                Finite
                  (xyz <- calculate_xyz_from_spd spd cie_data ;;
                   let rgb := XYZ_to_sRGB colour xyz in
                   hex_colour <- rgb_to_hex (vec3_list rgb) ;;
                   Ok (rgb, hex_colour))%py
          end
      | _ => Finite (Raise (IndexError "list index out of range"))
      end
  end.

(** Three by three matrices, by rows. *)
Definition Mat3 : Type := (Vec3 * Vec3 * Vec3)%type.

Definition dot3 (u v : Vec3) : R :=
  let '(u1, u2, u3) := u in
  let '(v1, v2, v3) := v in
  u1 * v1 + u2 * v2 + u3 * v3.

(** [m @ v]. *)
Definition mat_vec (m : Mat3) (v : Vec3) : Vec3 :=
  let '(r1, r2, r3) := m in (dot3 r1 v, dot3 r2 v, dot3 r3 v).

Definition column (m : Mat3) (j : nat) : Vec3 :=
  let '((a11, a12, a13), (a21, a22, a23), (a31, a32, a33)) := m in
  match j with
  | O => (a11, a21, a31)
  | S O => (a12, a22, a32)
  | _ => (a13, a23, a33)
  end.

(** [a @ b]. *)
Definition mat_mul (a b : Mat3) : Mat3 :=
  let row r := (dot3 r (column b 0), dot3 r (column b 1), dot3 r (column b 2)) in
  let '(r1, r2, r3) := a in (row r1, row r2, row r3).

(** [np.diag(v)]. *)
Definition diag3 (v : Vec3) : Mat3 :=
  let '(d1, d2, d3) := v in ((d1, 0, 0), (0, d2, 0), (0, 0, d3)).

Definition identity3 : Mat3 := ((1, 0, 0), (0, 1, 0), (0, 0, 1)).

Definition det3 (m : Mat3) : R :=
  let '((a, b, c), (d, e, f), (g, h, i)) := m in
  a * (e * i - f * h) - b * (d * i - f * g) + c * (d * h - e * g).

(** [np.linalg.inv]: the inverse of a regular matrix; a singular one
    raises [LinAlgError], a subclass of [ValueError]. *)
Definition inv3 (m : Mat3) : result Mat3 :=
  let '((a, b, c), (d, e, f), (g, h, i)) := m in
  let t := det3 m in
  if Req_dec_T t 0 then Raise (ValueError "Singular matrix")
  else Ok (((e * i - f * h) / t, (c * h - b * i) / t, (b * f - c * e) / t),
           ((f * g - d * i) / t, (a * i - c * g) / t, (c * d - a * f) / t),
           ((d * h - e * g) / t, (b * g - a * h) / t, (a * e - b * d) / t)).

(** [np.asarray(v)] used as the right operand of a product with a three
    by three matrix: any other length is a shape error. *)
Definition as_vec3 (v : array) : result Vec3 :=
  match v with
  | [x; y; z] => Ok (x, y, z)
  | _ => Raise (ValueError "matmul: Input operand 1 has a mismatch in its core dimension 0")
  end.

(** The cone response matrix of [chromatic_adaptation_matrix]. *)
Definition cone_matrix : Mat3 :=
  ((0.8951, -0.7502, 0.0389),
   (0.2664, 1.7135, -0.0685),
   (-0.1614, 0.0367, 1.0296)).

Definition vec3_div (u v : Vec3) : Vec3 :=
  let '(u1, u2, u3) := u in
  let '(v1, v2, v3) := v in
  (u1 / v1, u2 / v2, u3 / v3).

(** [chromatic_adaptation_matrix]. *)
Definition chromatic_adaptation_matrix (source_wp target_wp : array) : result Mat3 :=
  let M := cone_matrix in
  (s <- as_vec3 source_wp ;;
   let source_cone := mat_vec M s in
   t <- as_vec3 target_wp ;;
   let target_cone := mat_vec M t in
   let scaling := diag3 (vec3_div target_cone source_cone) in
   Minv <- inv3 M ;;
   Ok (mat_mul (mat_mul Minv scaling) M))%py.

Definition M_sRGB_to_XYZ : Mat3 :=
  ((0.4124564, 0.3575761, 0.1804375),
   (0.2126729, 0.7151522, 0.0721750),
   (0.0193339, 0.1191920, 0.9503041)).

Definition mat_map (f : R -> R) (m : Mat3) : Mat3 :=
  let '(r1, r2, r3) := m in (vec3_map f r1, vec3_map f r2, vec3_map f r3).

(** [xyz_to_rgb_conversion_matrix]. *)
Definition xyz_to_rgb_conversion_matrix (xyz : array) (adaptation_matrix : Mat3)
  : result Mat3 :=
  (v <- as_vec3 xyz ;;
   let adapted_xyz := mat_vec adaptation_matrix v in
   let total := np_sum (vec3_list adapted_xyz) in
   let M_RGB_to_XYZ := mat_map (fun c => c / total) M_sRGB_to_XYZ in
   inv3 M_RGB_to_XYZ)%py.

(** The test of [from_directory] on a directory item. *)
Definition has_extension (extension : string) (item : DirItem) : bool :=
  String.eqb (lower (item_suffix item)) (lower extension).

(** The record logged for a directory that does not exist. *)
Definition missing_directory_warning (directory : DirectoryConfig.t) : LogRecord :=
  (WARNING, "Directory " ++ DirectoryConfig.path directory ++ " does not exist; skipping")%string.

(** What a call of [load_directories] or [build_groups] never touches and
    never removes. *)
Definition keeps_loaded (w w' : World) : Prop :=
  config (self w') = config (self w) /\
  groups (self w') = groups (self w) /\
  results (self w') = results (self w) /\
  (forall k, In k (dict_keys (raw_collections (self w))) ->
             In k (dict_keys (raw_collections (self w')))) /\
  (forall k, In k (dict_keys (entries (all_data (self w)))) ->
             In k (dict_keys (entries (all_data (self w'))))).

(** What NumPy raises when handed a generator where an array is expected. *)
Definition generator_rejected : exn :=
  TypeError "float() argument must be a string or a real number, not 'generator'".

(** The exception of an analysis loop on its first entry. *)
Definition first_entry_error (colour : option Colour) : exn :=
  match colour with
  | None => colour_missing
  | Some _ => generator_rejected
  end.

(** A pipeline with one built group without entries and one illuminant. *)
Definition lit_world : World :=
  {| self := {| config := {| NotebookConfig.directories := [];
                             NotebookConfig.groups := [];
                             NotebookConfig.illuminants := [("D65", [])];
                             NotebookConfig.reference_lab := [] |};
                raw_collections := [];
                all_data := DatasetCollection_new;
                averaged_data := DatasetCollection_new;
                groups := [("blank", DatasetCollection_new)];
                results := [] |};
     logged := [] |}.

(** What NumPy raises on two shapes that do not broadcast. *)
Definition broadcast_error : exn := ValueError "operands could not be broadcast together".

(** The pairs of a spectrum with each absorbance turned into the
    transmittance [10 ** (-A)]. *)
Definition as_transmittance (l : list (R * R)) : list (R * R) :=
  map (fun p => (fst p, pow10 (- snd p))) l.

(** A stand-in for the colour package on which the model can be run: every
    tristimulus value is the sum of the sampled values, and the conversions
    keep their argument. *)
Definition grey_colour : Colour :=
  {| sd_to_XYZ := fun sd _ => let s := np_sum (map snd sd) in (s, s, s);
     XYZ_to_Lab := fun xyz => xyz;
     XYZ_to_sRGB := fun xyz => xyz;
     XYZ_to_xy := fun xyz => (fst (fst xyz), snd (fst xyz));
     whiteness_CIE2004 := fun _ Y _ => (Y, 0);
     sd_blackbody := fun _ => [] |}.

(** The value of [np.interp] at [x] on a table that starts with [(x0, f0)]. *)
Definition interp_value (x x0 f0 : R) (rest : list (R * R)) : R :=
  if Rle_dec x x0 then f0 else interp_from x x0 f0 rest.

(** The columns of the tabulated observer. *)
Definition cie_wavelengths (cie_data : list CieRow) : array :=
  map (fun r => fst (fst (fst r))) cie_data.

Definition cie_weights (cie_data : list CieRow) : list array :=
  [map (fun r => snd (fst (fst r))) cie_data;
   map (fun r => snd (fst r)) cie_data;
   map (fun r => snd r) cie_data].

(** A power distribution with every power multiplied by [k]. *)
Definition scale_power (k : R) (spd : list (R * R)) : list (R * R) :=
  map (fun p => (fst p, k * snd p)) spd.

(** The integral [calculate_xyz_from_spd] takes against one weight column. *)
Definition weighted_integral (spd : list (R * R)) (x0 f0 : R) (rest : list (R * R)) : R :=
  np_trapz (zip_with Rmult (map snd spd)
              (map (fun x => interp_value x x0 f0 rest) (map fst spd)))
           (map fst spd).

(** Equality of nested pairs, one component at a time. *)
Ltac by_components :=
  repeat match goal with
         | |- (_, _) = (_, _) => apply f_equal2
         end.

(** [k * m] and the componentwise product of two vectors. *)
Definition mat_scale (k : R) (m : Mat3) : Mat3 := mat_map (Rmult k) m.

Definition vec3_mul (u v : Vec3) : Vec3 :=
  let '(u1, u2, u3) := u in
  let '(v1, v2, v3) := v in
  (u1 * v1, u2 * v2, u3 * v3).

(** No component of the cone response of a white point is zero. *)
Definition cones_nonzero (white : Vec3) : Prop :=
  let '(c1, c2, c3) := mat_vec cone_matrix white in
  c1 <> 0 /\ c2 <> 0 /\ c3 <> 0.

(** [f"{index:02d}"] for a non-negative index. *)
Definition format_02d (index : nat) : string :=
  let digits := DecimalString.NilEmpty.string_of_uint (Nat.to_uint index) in
  if (String.length digits <? 2)%nat then ("0" ++ digits)%string else digits.

(** The name [load_sample_spectra] gives to the sample at [index]. *)
Definition sample_name (index : nat) : string := ("sample_" ++ format_02d index)%string.

(** The record [load_sample_spectra] builds from one inline spectrum. *)
Definition inline_record (sample : array * array) : SpectralRecord :=
  let '(wavelengths, absorbances) := sample in
  {| wavelengths := wavelengths;
     absorbances := absorbances;
     transmittances := map (fun a => pow10 (- a)) absorbances |}.

(** The loop of [load_sample_spectra] over [enumerate(..., start=index)]. *)
Fixpoint add_samples (index : nat) (samples : list (array * array))
    (all_data : DatasetCollection) : DatasetCollection :=
  match samples with
  | [] => all_data
  | sample :: rest =>
      add_samples (S index) rest
        (add all_data (sample_name index) (inline_record sample) "absorbance"
             [("source", "inline")])
  end.

(** [ColourimetryPipeline.load_sample_spectra]; [SAMPLE_SPECTRA] is the
    list of inline spectra of the data module. *)
Definition load_sample_spectra (SAMPLE_SPECTRA : list (array * array)) : M unit :=
  (modify_self (fun p => set_all_data (add_samples 1 SAMPLE_SPECTRA (all_data p)) p) ;;
   _build_averaged_dataset)%world.

(** The entry stored for an inline spectrum. *)
Definition inline_entry (sample : array * array) : DatasetEntry :=
  {| record := inline_record sample;
     measurement := "absorbance";
     metadata := [("source", "inline")] |}.

(** [directory.path.exists()]. *)
Definition directory_exists (env : Env) (directory : DirectoryConfig.t) : bool :=
  match listing env (DirectoryConfig.path directory) with
  | Some _ => true
  | None => false
  end.

(** The warnings [load_directories] logs for [directories], in order. *)
Definition missing_warnings (env : Env) (directories : list DirectoryConfig.t)
  : list LogRecord :=
  map missing_directory_warning
      (filter (fun d => negb (directory_exists env d)) directories).

(** A file system with one directory holding one spectrum file, and a
    reader that knows it. *)
Definition one_spectrum : Env :=
  {| listing := fun p =>
       if String.eqb p "run1"
       then Some [{| stem := "a"; item_suffix := ".sp"; item_path := "run1/a.sp" |}]
       else None;
     specread := Some (fun _ => Ok {| wavelength := [400]; amplitudes := [1] |}) |}.

(** A configured directory that does not exist in [one_spectrum]. *)
Definition gone : DirectoryConfig.t :=
  {| DirectoryConfig.name := "gone";
     DirectoryConfig.path := "gone";
     DirectoryConfig.mode := "A";
     DirectoryConfig.measurement := "transmittance";
     DirectoryConfig.extension := ".sp";
     DirectoryConfig.replicate_suffix := "#" |}.

(** The entry [from_directory] builds from the file of [one_spectrum]. *)
Definition spectrum_entry : DatasetEntry :=
  {| record := {| wavelengths := [400]; absorbances := [1];
                  transmittances := [pow10 (- 1)] |};
     measurement := "transmittance";
     metadata := [] |}.

(** [loaded_world] after the directory of [one_spectrum] was loaded, with
    the given log. *)
Definition reloaded_world (log : list LogRecord) : World :=
  {| self := {| config := empty_config;
                raw_collections := [("run1", {| entries := [("a", spectrum_entry)] |})];
                all_data := {| entries := [("present", sample_entry); ("a", spectrum_entry)] |};
                averaged_data :=
                  {| entries := [("present", sample_entry); ("a", spectrum_entry)] |};
                groups := [];
                results := [] |};
     logged := log |}.







(* ================================================================== *)
(** * Properties *)

Unset Implicit Arguments.

(* ------------------------------------------------------------------ *)
(** ** Facts about dictionaries *)

Section DictFacts.
Context {K V : Type}.
Variable eq_dec : forall x y : K, {x = y} + {x <> y}.

Local Abbreviation dict := (list (K * V)).
Local Abbreviation dict_get := (dict_get eq_dec).
Local Abbreviation dict_set := (dict_set eq_dec).
Local Abbreviation dict_mem := (dict_mem eq_dec).
Local Abbreviation dict_update := (dict_update eq_dec).
Local Abbreviation last_binding := (last_binding eq_dec).

Lemma dict_get_set (k k' : K) (v : V) (d : dict) :
  dict_get k' (dict_set k v d) = if eq_dec k' k then Some v else dict_get k' d.
Proof.
  induction d as [|[k0 v0] d IH]; simpl.
  - reflexivity.
  - destruct (eq_dec k k0) as [->|Hk]; simpl.
    + destruct (eq_dec k' k0); reflexivity.
    + destruct (eq_dec k' k0) as [->|Hk'].
      * destruct (eq_dec k0 k); [congruence | reflexivity].
      * exact IH.
Qed.

Lemma dict_get_set_same (k : K) (v : V) (d : dict) :
  dict_get k (dict_set k v d) = Some v.
Proof. rewrite dict_get_set. destruct (eq_dec k k); congruence. Qed.

Lemma dict_get_set_other (k k' : K) (v : V) (d : dict) :
  k' <> k -> dict_get k' (dict_set k v d) = dict_get k' d.
Proof. intros H. rewrite dict_get_set. destruct (eq_dec k' k); congruence. Qed.

Lemma dict_get_in_keys (k : K) (d : dict) :
  In k (dict_keys d) <-> dict_get k d <> None.
Proof.
  induction d as [|[k0 v0] d IH]; simpl.
  - split; [tauto | congruence].
  - destruct (eq_dec k k0) as [->|Hk].
    + split; [congruence | auto].
    + rewrite <- IH. split; [intros [H|H]; congruence || assumption | auto].
Qed.

Lemma dict_mem_in_keys (k : K) (d : dict) :
  dict_mem k d = true <-> In k (dict_keys d).
Proof.
  unfold dict_mem. rewrite dict_get_in_keys.
  destruct (dict_get k d); split; congruence.
Qed.

Lemma dict_keys_set (k : K) (v : V) (d : dict) :
  dict_keys (dict_set k v d) =
  if dict_mem k d then dict_keys d else dict_keys d ++ [k].
Proof.
  unfold dict_mem.
  induction d as [|[k0 v0] d IH]; simpl.
  - reflexivity.
  - destruct (eq_dec k k0) as [->|Hk]; simpl.
    + reflexivity.
    + rewrite IH. destruct (dict_get k d); reflexivity.
Qed.

Lemma dict_set_NoDup (k : K) (v : V) (d : dict) :
  NoDup (dict_keys d) -> NoDup (dict_keys (dict_set k v d)).
Proof.
  intros H. rewrite dict_keys_set.
  destruct (dict_mem k d) eqn:E; [assumption|].
  apply NoDup_app; [assumption | repeat constructor; simpl; tauto |].
  intros x Hx [<-|[]].
  apply dict_mem_in_keys in Hx. congruence.
Qed.

Lemma dict_update_NoDup (other d : dict) :
  NoDup (dict_keys d) -> NoDup (dict_keys (dict_update d other)).
Proof.
  unfold dict_update. revert d.
  induction other as [|[k v] o IH]; simpl; intros d H; [assumption|].
  apply IH, dict_set_NoDup, H.
Qed.

(** Two dicts with the same key sequence and the same lookups are equal. *)
Lemma dict_ext (d1 d2 : dict) :
  NoDup (dict_keys d1) ->
  dict_keys d1 = dict_keys d2 ->
  (forall k, dict_get k d1 = dict_get k d2) ->
  d1 = d2.
Proof.
  revert d2. induction d1 as [|[k1 v1] d1 IH]; intros [|[k2 v2] d2] Hnd Hk Hg;
    simpl in Hk; try discriminate; [reflexivity|].
  injection Hk as -> Hk.
  inversion Hnd as [|? ? Hnin Hnd']; subst.
  pose proof (Hg k2) as H2. simpl in H2.
  destruct (eq_dec k2 k2); [|congruence]. injection H2 as ->.
  f_equal. apply IH; auto.
  intros k. specialize (Hg k). simpl in Hg.
  destruct (eq_dec k k2) as [->|Hne]; [|exact Hg].
  assert (dict_get k2 d1 = None) as ->.
  { destruct (dict_get k2 d1) eqn:E; [|reflexivity].
    exfalso. apply Hnin. apply dict_get_in_keys. congruence. }
  assert (~ In k2 (dict_keys d2)) as Hnin2 by (rewrite <- Hk; exact Hnin).
  destruct (dict_get k2 d2) eqn:E; [|reflexivity].
  exfalso. apply Hnin2. apply dict_get_in_keys. congruence.
Qed.

(** Setting a key to the value it already has changes nothing. *)
Lemma dict_set_id (k : K) (v : V) (d : dict) :
  dict_get k d = Some v -> dict_set k v d = d.
Proof.
  induction d as [|[k0 v0] d IH]; simpl; [discriminate|].
  destruct (eq_dec k k0) as [->|Hk].
  - intros [= ->]. reflexivity.
  - intros H. rewrite IH; auto.
Qed.

Lemma dict_get_update (k : K) (other d : dict) :
  dict_get k (dict_update d other) =
  match last_binding k other with
  | Some v => Some v
  | None => dict_get k d
  end.
Proof.
  unfold dict_update. revert d.
  induction other as [|[k0 v0] o IH]; simpl; intros d; [reflexivity|].
  rewrite IH. destruct (last_binding k o); [reflexivity|].
  rewrite dict_get_set. destruct (eq_dec k k0); reflexivity.
Qed.

Lemma dict_keys_update_mem (other d : dict) :
  (forall k, In k (dict_keys other) -> In k (dict_keys d)) ->
  dict_keys (dict_update d other) = dict_keys d.
Proof.
  unfold dict_update. revert d.
  induction other as [|[k0 v0] o IH]; simpl; intros d H; [reflexivity|].
  assert (Hk : dict_keys (dict_set k0 v0 d) = dict_keys d).
  { rewrite dict_keys_set.
    destruct (dict_mem k0 d) eqn:E; [reflexivity|].
    assert (In k0 (dict_keys d)) as Hin by (apply H; auto).
    apply dict_mem_in_keys in Hin. congruence. }
  rewrite IH; [exact Hk|].
  intros k Hin. rewrite Hk. apply H. auto.
Qed.

Lemma dict_keys_update_incl (other d : dict) (k : K) :
  In k (dict_keys d) \/ In k (dict_keys other) <->
  In k (dict_keys (dict_update d other)).
Proof.
  unfold dict_update. revert d.
  induction other as [|[k0 v0] o IH]; simpl; intros d; [tauto|].
  rewrite <- IH. rewrite dict_keys_set.
  destruct (dict_mem k0 d) eqn:E.
  - apply dict_mem_in_keys in E.
    split; [intros [H|[<-|H]]; auto | tauto].
  - rewrite in_app_iff. simpl. split; [intros [H|[<-|H]]; auto | tauto].
Qed.

(** [d.update(o); d.update(o)] is [d.update(o)]. *)
Lemma dict_update_idem (other d : dict) :
  NoDup (dict_keys d) ->
  dict_update (dict_update d other) other = dict_update d other.
Proof.
  intros Hnd. apply dict_ext.
  - apply dict_update_NoDup, dict_update_NoDup, Hnd.
  - apply dict_keys_update_mem.
    intros k Hk. apply dict_keys_update_incl. auto.
  - intros k. rewrite dict_get_update.
    destruct (last_binding k other) eqn:E; [|reflexivity].
    rewrite dict_get_update, E. reflexivity.
Qed.

Lemma dict_set_set (k : K) (v v0 : V) (d : dict) :
  dict_set k v (dict_set k v0 d) = dict_set k v d.
Proof.
  induction d as [|[k0 w0] d IH]; simpl.
  - destruct (eq_dec k k); congruence.
  - destruct (eq_dec k k0) as [->|Hk]; simpl.
    + destruct (eq_dec k0 k0); congruence.
    + destruct (eq_dec k k0); [congruence|]. rewrite IH. reflexivity.
Qed.

Lemma dict_set_comm (k k1 : K) (v v1 : V) (d : dict) :
  k <> k1 -> In k (dict_keys d) ->
  dict_set k v (dict_set k1 v1 d) = dict_set k1 v1 (dict_set k v d).
Proof.
  intros Hne. induction d as [|[k0 w0] d IH]; simpl; [contradiction|].
  intros Hin.
  destruct (eq_dec k k0) as [->|Hk], (eq_dec k1 k0) as [->|Hk1]; simpl;
    try congruence.
  - destruct (eq_dec k0 k0); [|congruence].
    destruct (eq_dec k1 k0); congruence.
  - destruct (eq_dec k k0); [congruence|].
    destruct (eq_dec k0 k0); congruence.
  - destruct (eq_dec k k0); [congruence|].
    destruct (eq_dec k1 k0); [congruence|].
    rewrite IH; [reflexivity|]. destruct Hin; congruence.
Qed.

Lemma dict_keys_set_in (k k' : K) (v : V) (d : dict) :
  In k (dict_keys d) -> In k (dict_keys (dict_set k' v d)).
Proof.
  intros H. rewrite dict_keys_set. destruct (dict_mem k' d); [exact H|].
  apply in_or_app. left. exact H.
Qed.

Lemma dict_set_update_comm (k : K) (v : V) (other d : dict) :
  ~ In k (dict_keys other) -> In k (dict_keys d) ->
  dict_set k v (dict_update d other) = dict_update (dict_set k v d) other.
Proof.
  unfold dict_update. revert d.
  induction other as [|[k1 v1] o IH]; simpl; intros d Hnin Hin; [reflexivity|].
  rewrite IH.
  - rewrite dict_set_comm; [reflexivity | intros ->; apply Hnin; auto | exact Hin].
  - intros H. apply Hnin. auto.
  - apply dict_keys_set_in, Hin.
Qed.

Lemma dict_keys_set_self (k : K) (v : V) (d : dict) :
  In k (dict_keys (dict_set k v d)).
Proof.
  apply dict_get_in_keys. rewrite dict_get_set_same. discriminate.
Qed.

(** Updating with a dict to which a binding was assigned is assigning
    the binding after the update. *)
Lemma dict_update_set (k : K) (v : V) (other d : dict) :
  NoDup (dict_keys other) ->
  dict_update d (dict_set k v other) = dict_set k v (dict_update d other).
Proof.
  revert d. induction other as [|[k0 v0] o IH]; intros d Hnd.
  - reflexivity.
  - inversion Hnd as [|? ? Hnin Hnd']; subst. simpl.
    destruct (eq_dec k k0) as [->|Hk].
    + unfold dict_update. simpl. fold (dict_update (dict_set k0 v d) o).
      fold (dict_update (dict_set k0 v0 d) o).
      rewrite dict_set_update_comm by (auto using dict_keys_set_self).
      rewrite dict_set_set. reflexivity.
    + unfold dict_update. simpl. fold (dict_update (dict_set k0 v0 d) (dict_set k v o)).
      fold (dict_update (dict_set k0 v0 d) o).
      apply IH, Hnd'.
Qed.

Lemma last_binding_NoDup (k : K) (d : dict) :
  NoDup (dict_keys d) -> last_binding k d = dict_get k d.
Proof.
  induction d as [|[k0 v0] d IH]; simpl; intros Hnd; [reflexivity|].
  inversion Hnd as [|? ? Hnin Hnd']; subst.
  rewrite IH by exact Hnd'.
  destruct (eq_dec k k0) as [->|Hk].
  - destruct (dict_get k0 d) eqn:E; [|reflexivity].
    exfalso. apply Hnin, dict_get_in_keys. congruence.
  - destruct (dict_get k d); reflexivity.
Qed.

End DictFacts.

(** ** Facts about the NumPy fragments *)

Lemma Rleb_le (x y : R) : Rleb x y = true <-> x <= y.
Proof. unfold Rleb. destruct (Rle_dec x y); split; auto; discriminate. Qed.

Lemma Reqb_eq (x y : R) : Reqb x y = true <-> x = y.
Proof. unfold Reqb. destruct (Req_dec_T x y); split; auto; discriminate. Qed.

Lemma np_sum_fold (a : array) (x : R) : fold_left Rplus a x = x + np_sum a.
Proof.
  unfold np_sum. revert x.
  induction a as [|y a IH]; simpl; intros x; [lra|].
  rewrite (IH (x + y)), (IH (0 + y)). lra.
Qed.

Lemma np_sum_cons (x : R) (a : array) : np_sum (x :: a) = x + np_sum a.
Proof. unfold np_sum at 1. simpl. rewrite np_sum_fold. lra. Qed.

Lemma np_sum_nil : np_sum [] = 0.
Proof. reflexivity. Qed.

Lemma clip_bounds (lo hi x : R) : lo <= hi -> lo <= clip lo hi x <= hi.
Proof.
  intros H. unfold clip, Rmin, Rmax.
  destruct (Rle_dec x lo); destruct (Rle_dec _ hi); lra.
Qed.

Lemma clip_id (lo hi x : R) : lo <= x <= hi -> clip lo hi x = x.
Proof.
  intros H. unfold clip, Rmin, Rmax.
  destruct (Rle_dec x lo); destruct (Rle_dec _ hi); lra.
Qed.

(* ------------------------------------------------------------------ *)
(** ** Colour differences *)

Lemma squares_sub_sym (a b : array) :
  map (fun x => x * x) (zip_with Rminus a b) = map (fun x => x * x) (zip_with Rminus b a).
Proof.
  revert b. induction a as [|x a IH]; intros [|y b]; simpl; try reflexivity.
  f_equal; [ring | apply IH].
Qed.

Lemma squares_broadcast_sym (x : R) (b : array) :
  map (fun z => z * z) (map (fun y => x - y) b) = map (fun z => z * z) (map (fun y => y - x) b).
Proof.
  induction b as [|y b IH]; simpl; [reflexivity|].
  f_equal; [ring | apply IH].
Qed.

Lemma norm_broadcast_sym (x : R) (b : array) :
  norm (map (fun y => x - y) b) = norm (map (fun y => y - x) b).
Proof. unfold norm. rewrite squares_broadcast_sym. reflexivity. Qed.

Lemma np_sub_norm_sym (a b : array) :
  (d <- np_sub a b ;; Ok (norm d))%py = (d <- np_sub b a ;; Ok (norm d))%py.
Proof.
  unfold np_sub. rewrite (Nat.eqb_sym (List.length b) (List.length a)).
  destruct (Nat.eqb (List.length a) (List.length b)) eqn:E.
  - simpl. unfold norm. rewrite squares_sub_sym. reflexivity.
  - destruct a as [|x [|x' a]], b as [|y [|y' b]]; simpl in *;
      try discriminate; try reflexivity.
    + exact (f_equal Ok (norm_broadcast_sym x (y :: y' :: b))).
    + exact (f_equal Ok (eq_sym (norm_broadcast_sym y (x :: x' :: a)))).
Qed.

(** C7: [delta_e] is symmetric in its two arguments and is the Euclidean
    distance of two Lab triples; [delta_c] is the Euclidean distance of
    their two chroma components, which is [delta_e] of the two-dimensional
    projections. *)
Theorem delta_e_symmetric_delta_c_projection :
  (forall A B : array, delta_e A B = delta_e B A) /\
  (forall L1 a1 b1 L2 a2 b2 : R,
      delta_e [L1; a1; b1] [L2; a2; b2] =
        Ok (sqrt ((L1 - L2) * (L1 - L2) + (a1 - a2) * (a1 - a2) + (b1 - b2) * (b1 - b2)))
      /\ delta_c [L1; a1; b1] [L2; a2; b2] =
           Ok (sqrt ((a1 - a2) * (a1 - a2) + (b1 - b2) * (b1 - b2)))
      /\ delta_c [L1; a1; b1] [L2; a2; b2] = delta_e [a1; b1] [a2; b2]).
Proof.
  split.
  - intros A B. unfold delta_e. apply np_sub_norm_sym.
  - intros L1 a1 b1 L2 a2 b2. repeat split.
    + unfold delta_e, np_sub, norm. simpl.
      rewrite !np_sum_cons, np_sum_nil. do 2 f_equal. ring.
    + unfold delta_c, np_sub, norm. simpl.
      rewrite !np_sum_cons, np_sum_nil. do 2 f_equal. ring.
Qed.

(* ------------------------------------------------------------------ *)
(** ** Derived scores *)

(** C8: the two scores follow the fixed formulas, with the reference colour
    (68, 77, 55)/255; white has decolouring 100 and white distance 0. *)
Theorem compute_colour_distances_formula :
  let reference_sum := 68 / 255 + 77 / 255 + 55 / 255 in
  (forall rgb : array,
      _compute_colour_distances rgb =
        ((np_sum rgb - reference_sum) / (3 - reference_sum) * 100,
         (1 - np_sum rgb / INR (List.length rgb)) * 100)) /\
  (forall r g b : R,
      _compute_colour_distances [r; g; b] =
        (((r + g + b) - reference_sum) / (3 - reference_sum) * 100,
         (1 - (r + g + b) / 3) * 100)) /\
  _compute_colour_distances [1; 1; 1] = (100, 0).
Proof.
  intros reference_sum.
  assert (Href : np_sum (map (fun c => c / 255) [68; 77; 55]) = reference_sum).
  { simpl. rewrite !np_sum_cons, np_sum_nil. unfold reference_sum. lra. }
  assert (Hgen : forall rgb : array,
      _compute_colour_distances rgb =
        ((np_sum rgb - reference_sum) / (3 - reference_sum) * 100,
         (1 - np_sum rgb / INR (List.length rgb)) * 100)).
  { intros rgb. unfold _compute_colour_distances, np_mean. rewrite Href. reflexivity. }
  split; [exact Hgen|]. split.
  - intros r g b. rewrite Hgen. rewrite !np_sum_cons, np_sum_nil.
    replace (INR (List.length [r; g; b])) with 3 by (simpl; lra).
    f_equal; f_equal; f_equal; lra.
  - rewrite Hgen. rewrite !np_sum_cons, np_sum_nil.
    replace (INR (List.length [1; 1; 1])) with 3 by (simpl; lra).
    unfold reference_sum. f_equal; field_simplify; lra.
Qed.

(* ------------------------------------------------------------------ *)
(** ** Hex rendering *)

Lemma format_02x_byte_nat (n : nat) :
  (n < 256)%nat -> format_02x (Z.of_nat n) = two_hex_digits (Z.of_nat n).
Proof.
  intros H.
  assert (Hall : forallb (fun k => String.eqb (format_02x (Z.of_nat k)) (two_hex_digits (Z.of_nat k)))
                   (seq 0 256) = true) by (vm_compute; reflexivity).
  rewrite forallb_forall in Hall.
  apply String.eqb_eq, Hall, in_seq. lia.
Qed.

Lemma format_02x_byte (n : Z) :
  (0 <= n <= 255)%Z -> format_02x n = two_hex_digits n.
Proof.
  intros H. rewrite <- (Z2Nat.id n) by lia. apply format_02x_byte_nat. lia.
Qed.

Lemma Int_part_bounds (x : R) : IZR (Int_part x) <= x < IZR (Int_part x) + 1.
Proof.
  pose proof (base_fp x) as [H1 H2]. unfold frac_part in *. lra.
Qed.

Lemma py_round_nearest (x : R) : Rabs (IZR (py_round x) - x) <= 1 / 2.
Proof.
  pose proof (base_fp x) as [H1 H2].
  assert (Hx : x = IZR (Int_part x) + frac_part x) by (unfold frac_part; lra).
  unfold py_round.
  destruct (Rlt_dec (frac_part x) (1 / 2)) as [Hlt|Hge].
  - rewrite Rabs_left1; lra.
  - destruct (Rlt_dec (1 / 2) (frac_part x)) as [Hgt|Hle].
    + rewrite plus_IZR. rewrite Rabs_right; lra.
    + destruct (Z.even (Int_part x)).
      * rewrite Rabs_left1; lra.
      * rewrite plus_IZR. rewrite Rabs_right; lra.
Qed.

Lemma py_round_range (x : R) (lo hi : Z) :
  IZR lo <= x <= IZR hi -> (lo <= py_round x <= hi)%Z.
Proof.
  intros [Hlo Hhi].
  pose proof (base_fp x) as [H1 H2].
  pose proof (Int_part_bounds x) as [H3 H4].
  assert (Hf_lo : (lo <= Int_part x)%Z).
  { apply Z.lt_succ_r. apply lt_IZR. rewrite succ_IZR. lra. }
  assert (Hf_hi : (Int_part x <= hi)%Z) by (apply le_IZR; lra).
  assert (Hup : frac_part x <> 0 -> (Int_part x + 1 <= hi)%Z).
  { intros Hnz. assert (Int_part x < hi)%Z; [|lia].
    apply lt_IZR. unfold frac_part in *. lra. }
  unfold py_round.
  destruct (Rlt_dec (frac_part x) (1 / 2)); [lia|].
  assert (Hnz : frac_part x <> 0) by lra.
  specialize (Hup Hnz).
  destruct (Rlt_dec (1 / 2) (frac_part x)); [lia|].
  destruct (Z.even (Int_part x)); lia.
Qed.

Lemma py_round_IZR (z : Z) : py_round (IZR z) = z.
Proof.
  assert (Hi : Int_part (IZR z) = z) by (symmetry; apply Int_part_spec; lra).
  unfold py_round, frac_part. rewrite Hi.
  destruct (Rlt_dec (IZR z - IZR z) (1 / 2)); [reflexivity | lra].
Qed.

(** C9: [rgb_to_hex] clips each channel to the unit interval, scales it by
    255, rounds it to the nearest integer and renders it as two lowercase
    hexadecimal digits after a leading hash sign; pure red gives "#ff0000"
    and black gives "#000000". *)
Theorem rgb_to_hex_two_lowercase_digits :
  (forall r g b : R,
      rgb_to_hex [r; g; b] =
        Ok ("#" ++ two_hex_digits (py_round (clip 0 1 r * 255))
                ++ two_hex_digits (py_round (clip 0 1 g * 255))
                ++ two_hex_digits (py_round (clip 0 1 b * 255)))%string) /\
  (forall c : R,
      0 <= clip 0 1 c <= 1 /\
      (0 <= py_round (clip 0 1 c * 255) <= 255)%Z /\
      Rabs (IZR (py_round (clip 0 1 c * 255)) - clip 0 1 c * 255) <= 1 / 2) /\
  rgb_to_hex [1; 0; 0] = Ok "#ff0000" /\
  rgb_to_hex [0; 0; 0] = Ok "#000000".
Proof.
  assert (Hrange : forall c : R, (0 <= py_round (clip 0 1 c * 255) <= 255)%Z).
  { intros c. apply py_round_range.
    pose proof (@clip_bounds 0 1 c ltac:(lra)). lra. }
  assert (Hgen : forall r g b : R,
      rgb_to_hex [r; g; b] =
        Ok ("#" ++ two_hex_digits (py_round (clip 0 1 r * 255))
                ++ two_hex_digits (py_round (clip 0 1 g * 255))
                ++ two_hex_digits (py_round (clip 0 1 b * 255)))%string).
  { intros r g b. unfold rgb_to_hex. cbn [map].
    rewrite !format_02x_byte by apply Hrange. reflexivity. }
  assert (H1 : py_round (clip 0 1 1 * 255) = 255%Z).
  { rewrite clip_id by lra. replace (1 * 255) with (IZR 255) by lra. apply py_round_IZR. }
  assert (H0 : py_round (clip 0 1 0 * 255) = 0%Z).
  { rewrite clip_id by lra. replace (0 * 255) with (IZR 0) by lra. apply py_round_IZR. }
  split; [exact Hgen|]. split; [|split].
  - intros c. split; [apply clip_bounds; lra|]. split; [apply Hrange | apply py_round_nearest].
  - rewrite Hgen, H1, H0. reflexivity.
  - rewrite Hgen, H0. reflexivity.
Qed.

(* ------------------------------------------------------------------ *)
(** ** Indexing and sorting *)

Lemma bool_index_map {A} (p : R -> bool) (w : array) (a : list A) :
  List.length a = List.length w ->
  bool_index a (map p w) =
    Ok (map snd (filter (fun wa => p (fst wa)) (combine w a))).
Proof.
  revert a. induction w as [|x w IH]; intros [|y a] H; simpl in *; try discriminate.
  - reflexivity.
  - rewrite IH by congruence. simpl. destruct (p x); reflexivity.
Qed.

Lemma bool_index_self (p : R -> bool) (w : array) :
  bool_index w (map p w) = Ok (filter p w).
Proof.
  induction w as [|x w IH]; simpl; [reflexivity|].
  rewrite IH. simpl. destruct (p x); reflexivity.
Qed.

Lemma bool_index_length_mismatch {A} (a : list A) (mask : list bool) :
  List.length a <> List.length mask -> exists e, bool_index a mask = Raise e.
Proof.
  revert mask. induction a as [|x a IH]; intros [|b mask] H; simpl in *;
    try (eexists; reflexivity); [congruence|].
  destruct (IH mask) as [e He]; [congruence|]. rewrite He. eexists; reflexivity.
Qed.

Lemma fancy_index_map {A} (d : A) (a : list A) (idx : list nat) :
  Forall (fun i => (i < List.length a)%nat) idx ->
  fancy_index a idx = Ok (map (fun i => nth i a d) idx).
Proof.
  unfold fancy_index.
  induction idx as [|i idx IH]; intros H; simpl; [reflexivity|].
  inversion H as [|? ? Hi Hidx]; subst.
  rewrite IH by assumption.
  destruct (nth_error a i) eqn:E.
  - simpl. rewrite (nth_error_nth _ _ d E). reflexivity.
  - apply nth_error_None in E. lia.
Qed.

Lemma insert_by_perm (key : nat -> R) (i : nat) (l : list nat) :
  Permutation (insert_by key i l) (i :: l).
Proof.
  induction l as [|j l IH]; simpl; [reflexivity|].
  destruct (Rle_dec (key i) (key j)); [reflexivity|].
  rewrite IH. apply perm_swap.
Qed.

Lemma insert_by_sorted (key : nat -> R) (i : nat) (l : list nat) :
  Sorted (fun x y => key x <= key y) l ->
  Sorted (fun x y => key x <= key y) (insert_by key i l).
Proof.
  induction l as [|j l IH]; simpl; intros H.
  - repeat constructor.
  - destruct (Rle_dec (key i) (key j)) as [Hle|Hgt].
    + constructor; [assumption | constructor; assumption].
    + inversion H as [|? ? Hs Hhd]; subst.
      constructor; [apply IH; assumption|].
      destruct l as [|k l]; simpl.
      * constructor. lra.
      * destruct (Rle_dec (key i) (key k)); constructor; [lra|].
        inversion Hhd; subst. assumption.
Qed.

Lemma argsort_perm (a : array) : Permutation (argsort a) (seq 0 (List.length a)).
Proof.
  unfold argsort. induction (seq 0 (List.length a)) as [|i l IH]; simpl; [reflexivity|].
  rewrite insert_by_perm. constructor. exact IH.
Qed.

Lemma argsort_sorted (a : array) :
  Sorted (fun x y => nth x a 0 <= nth y a 0) (argsort a).
Proof.
  unfold argsort. induction (seq 0 (List.length a)) as [|i l IH]; simpl.
  - constructor.
  - apply insert_by_sorted, IH.
Qed.

Lemma argsort_in_range (a : array) :
  Forall (fun i => (i < List.length a)%nat) (argsort a).
Proof.
  apply Forall_forall. intros i Hi.
  apply (Permutation_in _ (argsort_perm a)) in Hi.
  apply in_seq in Hi. lia.
Qed.

Lemma Sorted_map_key (key : nat -> R) (l : list nat) :
  Sorted (fun x y => key x <= key y) l -> Sorted Rle (map key l).
Proof.
  induction 1 as [|i l Hs IH Hhd]; simpl; constructor; [assumption|].
  destruct Hhd; simpl; constructor. assumption.
Qed.

Lemma map_nth_seq {A} (d : A) (a : list A) :
  map (fun i => nth i a d) (seq 0 (List.length a)) = a.
Proof.
  induction a as [|x a IH]; simpl; [reflexivity|].
  f_equal. rewrite <- seq_shift, map_map. exact IH.
Qed.

Lemma map_nth_perm {A} (d : A) (a : list A) (idx : list nat) :
  Permutation idx (seq 0 (List.length a)) ->
  Permutation (map (fun i => nth i a d) idx) a.
Proof.
  intros H. apply (Permutation_map (fun i => nth i a d)) in H.
  rewrite map_nth_seq in H. exact H.
Qed.

Lemma bool_index_proj {A B} (f : A -> B) (p : A -> bool) (l : list A) :
  bool_index (map f l) (map p l) = Ok (map f (filter p l)).
Proof.
  induction l as [|x l IH]; simpl; [reflexivity|].
  rewrite IH. simpl. destruct (p x); reflexivity.
Qed.

Lemma fancy_index_proj {A B} (f : A -> B) (d : A) (l : list A) (idx : list nat) :
  Forall (fun i => (i < List.length l)%nat) idx ->
  fancy_index (map f l) idx = Ok (map f (map (fun i => nth i l d) idx)).
Proof.
  intros H. rewrite (fancy_index_map (f d)) by (rewrite length_map; exact H).
  rewrite map_map. f_equal. apply map_ext. intros i. apply map_nth.
Qed.

Lemma map_fst_combine {A B} (l : list A) (l' : list B) :
  List.length l = List.length l' -> map fst (combine l l') = l.
Proof.
  revert l'. induction l as [|x l IH]; intros [|y l'] H; simpl in *;
    try discriminate; [reflexivity|]. f_equal. apply IH. congruence.
Qed.

Lemma map_snd_combine {A B} (l : list A) (l' : list B) :
  List.length l = List.length l' -> map snd (combine l l') = l'.
Proof.
  revert l'. induction l as [|x l IH]; intros [|y l'] H; simpl in *;
    try discriminate; [reflexivity|]. f_equal. apply IH. congruence.
Qed.

(* ------------------------------------------------------------------ *)
(** ** Parsing *)

Lemma in_combine_exists {A B} (x : A) (l : list A) (l' : list B) :
  In x l -> List.length l = List.length l' -> exists y, In (x, y) (combine l l').
Proof.
  revert l'. induction l as [|a l IH]; intros [|b l'] Hin Hlen; simpl in *;
    try discriminate; [contradiction|].
  destruct Hin as [->|Hin].
  - exists b. left. reflexivity.
  - destruct (IH l' Hin) as [y Hy]; [congruence|]. exists y. right. exact Hy.
Qed.

Lemma in_band_spec (w : R) :
  in_band w = true <-> frac_part w = 0 /\ 250 <= w <= 800.
Proof.
  unfold in_band, mod1. rewrite !andb_true_iff, Reqb_eq, !Rleb_le. tauto.
Qed.

Lemma convert_amplitudes_length (mode : string) (amplitudes : array) :
  List.length (fst (convert_amplitudes mode amplitudes)) = List.length amplitudes /\
  List.length (snd (convert_amplitudes mode amplitudes)) = List.length amplitudes.
Proof.
  unfold convert_amplitudes.
  destruct (String.eqb mode "A"); [|destruct (String.eqb mode "T")]; simpl;
    rewrite ?length_map; auto.
Qed.

(** What [parse] returns on a readable file whose two arrays have the same
    length: the in-band samples, rearranged in ascending wavelength. *)
Lemma parse_sorted_samples (read : string -> result Spectrum) (self : SpcFileParser)
    (spectra : Spectrum) :
  read (filename self) = Ok spectra ->
  List.length (wavelength spectra) = List.length (amplitudes spectra) ->
  exists sorted : list (R * (R * R)),
    Permutation sorted (filter (fun s => in_band (fst s)) (samples_of (mode self) spectra)) /\
    Sorted Rle (map fst sorted) /\
    parse (Some read) self =
      Ok {| wavelengths := map fst sorted;
            absorbances := map (fun s => fst (snd s)) sorted;
            transmittances := map (fun s => snd (snd s)) sorted |}.
Proof.
  intros Hread Hlen.
  pose proof (convert_amplitudes_length (mode self) (amplitudes spectra)) as [HA HT].
  set (S := samples_of (mode self) spectra).
  set (K := filter (fun s => in_band (fst s)) S).
  set (idx := argsort (map fst K)).
  assert (Hw : wavelength spectra = map fst S).
  { unfold S, samples_of. rewrite map_fst_combine; [reflexivity|].
    rewrite length_combine, HA, HT, Nat.min_id. exact Hlen. }
  assert (Ha : fst (convert_amplitudes (mode self) (amplitudes spectra))
               = map (fun s => fst (snd s)) S).
  { unfold S, samples_of. rewrite <- (map_map snd fst).
    rewrite map_snd_combine, map_fst_combine; congruence || idtac.
    rewrite length_combine, HA, HT, Nat.min_id. exact Hlen. }
  assert (Ht : snd (convert_amplitudes (mode self) (amplitudes spectra))
               = map (fun s => snd (snd s)) S).
  { unfold S, samples_of. rewrite <- (map_map snd snd).
    rewrite map_snd_combine, map_snd_combine; congruence || idtac.
    rewrite length_combine, HA, HT, Nat.min_id. exact Hlen. }
  assert (Hidx : Forall (fun i => (i < List.length K)%nat) idx).
  { pose proof (argsort_in_range (map fst K)) as H. rewrite length_map in H. exact H. }
  exists (map (fun i => nth i K (0, (0, 0))) idx).
  split; [|split].
  - apply map_nth_perm. unfold idx.
    pose proof (argsort_perm (map fst K)) as H. rewrite length_map in H. exact H.
  - rewrite map_map.
    rewrite (map_ext _ (fun i => nth i (map fst K) 0)) by (intros i; symmetry; exact (map_nth fst K (0, (0, 0)) i)).
    apply Sorted_map_key, argsort_sorted.
  - unfold parse. rewrite Hread. cbn [bind].
    destruct (convert_amplitudes (mode self) (amplitudes spectra)) as [A T].
    cbn [fst snd] in Ha, Ht. rewrite Hw, Ha, Ht.
    unfold selector. rewrite map_map.
    rewrite !(bool_index_proj _ (fun s => in_band (fst s)) S). cbn [bind].
    fold K. fold idx.
    rewrite !(@fancy_index_proj _ _ _ (0, (0, 0)) K idx Hidx). cbn [bind].
    reflexivity.
Qed.

Lemma frac_part_IZR (z : Z) : frac_part (IZR z) = 0.
Proof.
  unfold frac_part. rewrite <- (Int_part_spec (IZR z) z) by lra. lra.
Qed.

Lemma Rleb_IZR (a b : Z) : Rleb (IZR a) (IZR b) = (a <=? b)%Z.
Proof.
  unfold Rleb. destruct (Rle_dec (IZR a) (IZR b)) as [H|H].
  - symmetry. apply Z.leb_le. apply le_IZR. exact H.
  - symmetry. apply Z.leb_gt. apply Z.nle_gt. intros Hle. apply H, IZR_le, Hle.
Qed.

Lemma in_band_IZR (z : Z) : in_band (IZR z) = ((250 <=? z)%Z && (z <=? 800)%Z).
Proof.
  unfold in_band, mod1, Reqb. rewrite frac_part_IZR, !Rleb_IZR.
  destruct (Req_dec_T 0 0); [reflexivity | congruence].
Qed.

Lemma selector_IZR (zs : list Z) :
  selector (map IZR zs) = map (fun z => (250 <=? z)%Z && (z <=? 800)%Z) zs.
Proof.
  unfold selector. rewrite map_map. apply map_ext. intros z. apply in_band_IZR.
Qed.

Lemma argsort_three_ascending (x y z : R) :
  x < y -> y < z -> argsort [x; y; z] = [0; 1; 2]%nat.
Proof.
  intros Hxy Hyz. unfold argsort. simpl.
  repeat (destruct (Rle_dec _ _); try lra; simpl). reflexivity.
Qed.

(** C5: [parse] keeps exactly the samples whose wavelength is
    integer-valued and lies between 250 and 800, in ascending order of
    wavelength; from wavelengths 249, 250, 400, 800, 801 it keeps
    250, 400, 800. *)
Theorem parse_keeps_integer_band_sorted :
  (forall (read : string -> result Spectrum) (self : SpcFileParser) (spectra : Spectrum),
      read (filename self) = Ok spectra ->
      List.length (wavelength spectra) = List.length (amplitudes spectra) ->
      exists (rec : SpectralRecord) (sorted : list (R * (R * R))),
        parse (Some read) self = Ok rec /\
        wavelengths rec = map fst sorted /\
        absorbances rec = map (fun s => fst (snd s)) sorted /\
        transmittances rec = map (fun s => snd (snd s)) sorted /\
        Permutation sorted
          (filter (fun s => in_band (fst s)) (samples_of (mode self) spectra)) /\
        (forall s, In s sorted <->
                   In s (samples_of (mode self) spectra) /\
                   frac_part (fst s) = 0 /\ 250 <= fst s <= 800) /\
        Sorted Rle (wavelengths rec) /\
        (forall w, In w (wavelengths rec) <->
                   In w (wavelength spectra) /\ frac_part w = 0 /\ 250 <= w <= 800)) /\
  (forall (read : string -> result Spectrum) (self : SpcFileParser) (a1 a2 a3 a4 a5 : R),
      read (filename self) =
        Ok {| wavelength := [249; 250; 400; 800; 801];
              amplitudes := [a1; a2; a3; a4; a5] |} ->
      exists rec : SpectralRecord,
        parse (Some read) self = Ok rec /\ wavelengths rec = [250; 400; 800]).
Proof.
  split.
  - intros read self spectra Hread Hlen.
    destruct (parse_sorted_samples read self spectra Hread Hlen) as (sorted & Hperm & Hsorted & Hparse).
    assert (Hin : forall s, In s sorted <->
                   In s (samples_of (mode self) spectra) /\
                   frac_part (fst s) = 0 /\ 250 <= fst s <= 800).
    { intros s. rewrite <- in_band_spec, <- (filter_In (fun s => in_band (fst s))).
      split; apply Permutation_in; [exact Hperm | symmetry; exact Hperm]. }
    eexists. exists sorted. split; [exact Hparse|]. cbn [wavelengths absorbances transmittances].
    repeat (split; [first [reflexivity | assumption]|]).
    intros w. rewrite in_map_iff. split.
    + intros (s & <- & Hs). apply Hin in Hs. destruct Hs as (Hs & Hfrac & Hband).
      split; [|tauto].
      unfold samples_of in Hs. destruct s as [w' at']. apply in_combine_l in Hs. exact Hs.
    + intros (Hw & Hfrac & Hband).
      pose proof (convert_amplitudes_length (mode self) (amplitudes spectra)) as [HA HT].
      assert (Hex : exists at', In (w, at') (samples_of (mode self) spectra)).
      { unfold samples_of. apply in_combine_exists; [exact Hw|].
        rewrite length_combine, HA, HT, Nat.min_id. exact Hlen. }
      destruct Hex as [at' Hat'].
      exists (w, at'). split; [reflexivity|]. apply Hin. simpl. tauto.
  - intros read self a1 a2 a3 a4 a5 Hread.
    destruct (convert_amplitudes (mode self) [a1; a2; a3; a4; a5]) as [A T] eqn:E.
    pose proof (convert_amplitudes_length (mode self) [a1; a2; a3; a4; a5]) as [HA HT].
    rewrite E in HA, HT. cbn [fst snd List.length] in HA, HT.
    destruct A as [|x1 [|x2 [|x3 [|x4 [|x5 [|]]]]]]; try discriminate.
    destruct T as [|y1 [|y2 [|y3 [|y4 [|y5 [|]]]]]]; try discriminate.
    eexists. split.
    + unfold parse. rewrite Hread. cbn [bind wavelength amplitudes]. rewrite E.
      change [249; 250; 400; 800; 801] with (map IZR [249; 250; 400; 800; 801]%Z).
      rewrite selector_IZR. cbn -[argsort fancy_index].
      rewrite argsort_three_ascending by lra. cbn. reflexivity.
    + reflexivity.
Qed.

Lemma parse_keeps_integer_band_sorted_witness :
  exists rec : SpectralRecord,
    parse (Some (fun _ => Ok {| wavelength := [249; 250; 400; 800; 801];
                                amplitudes := [2; 1; 0; 1; 2] |}))
          {| filename := "sample.sp"; mode := "A" |} = Ok rec /\
    wavelengths rec = [250; 400; 800].
Proof.
  apply (proj2 parse_keeps_integer_band_sorted
           (fun _ => Ok {| wavelength := [249; 250; 400; 800; 801];
                           amplitudes := [2; 1; 0; 1; 2] |})
           {| filename := "sample.sp"; mode := "A" |} 2 1 0 1 2).
  reflexivity.
Defined.

(* ------------------------------------------------------------------ *)
(** ** Absorbance and transmittance *)

Lemma ln_10_pos : 0 < ln 10.
Proof. rewrite <- ln_1. apply ln_increasing; lra. Qed.

Lemma pow10_pos (x : R) : 0 < pow10 x.
Proof. unfold pow10, Rpower. apply exp_pos. Qed.

Lemma log10_pow10 (x : R) : log10 (pow10 x) = x.
Proof.
  unfold log10, pow10, Rpower. rewrite ln_exp.
  pose proof ln_10_pos. field. lra.
Qed.

Lemma pow10_log10 (t : R) : 0 < t -> pow10 (log10 t) = t.
Proof.
  intros H. unfold log10, pow10, Rpower.
  replace (ln t / ln 10 * ln 10) with (ln t) by (pose proof ln_10_pos; field; lra).
  apply exp_ln, H.
Qed.

Lemma clip_min_above (lo x : R) : lo <= x -> clip_min lo x = x.
Proof. intros H. unfold clip_min. apply Rmax_left, H. Qed.

Lemma clip_min_below (lo x : R) : x <= lo -> clip_min lo x = lo.
Proof. intros H. unfold clip_min. apply Rmax_right, H. Qed.

(** Above the clipping floor the guarded logarithm inverts the power. *)
Lemma pow10_clipped_log10 (t : R) :
  1e-12 <= t -> pow10 (- - log10 (clip_min 1e-12 t)) = t.
Proof.
  intros H. rewrite clip_min_above by exact H.
  rewrite Ropp_involutive. apply pow10_log10. lra.
Qed.

Lemma in_combine_map_r {A B} (f : A -> B) (l : list A) (a : A) (b : B) :
  In (a, b) (combine l (map f l)) -> b = f a.
Proof.
  induction l as [|x l IH]; simpl; [contradiction|].
  intros [[= -> ->]|H]; [reflexivity | apply IH, H].
Qed.

Lemma in_combine_map_l {A B} (g : B -> A) (l : list B) (a : A) (b : B) :
  In (a, b) (combine (map g l) l) -> a = g b.
Proof.
  induction l as [|x l IH]; simpl; [contradiction|].
  intros [H|H]; [injection H as <- <-; reflexivity | apply IH, H].
Qed.

(** The pairwise relation set up by [convert_amplitudes]. *)
Lemma convert_amplitudes_pairs (mode : string) (amplitudes : array) (a t : R) :
  In (a, t) (combine (fst (convert_amplitudes mode amplitudes))
                     (snd (convert_amplitudes mode amplitudes))) ->
  if String.eqb mode "T" then a = - log10 (clip_min 1e-12 t) else t = pow10 (- a).
Proof.
  unfold convert_amplitudes.
  destruct (String.eqb mode "A") eqn:EA.
  - apply String.eqb_eq in EA. subst mode. cbn [fst snd String.eqb Ascii.eqb Bool.eqb].
    apply (in_combine_map_r (fun a => pow10 (- a))).
  - destruct (String.eqb mode "T"); cbn [fst snd].
    + apply (in_combine_map_l (fun a => - log10 (clip_min 1e-12 a))).
    + apply (in_combine_map_r (fun a => pow10 (- a))).
Qed.

(** The same relation on a parsed record. *)
Lemma parse_pairs (read : string -> result Spectrum) (self : SpcFileParser)
    (spectra : Spectrum) (rec : SpectralRecord) :
  read (filename self) = Ok spectra ->
  parse (Some read) self = Ok rec ->
  if String.eqb (mode self) "T"
  then absorbances rec = map (fun t => - log10 (clip_min 1e-12 t)) (transmittances rec)
  else transmittances rec = map (fun a => pow10 (- a)) (absorbances rec).
Proof.
  intros Hread Hparse.
  destruct (Nat.eq_dec (List.length (wavelength spectra)) (List.length (amplitudes spectra)))
    as [Hlen|Hlen].
  - destruct (parse_sorted_samples read self spectra Hread Hlen) as (sorted & Hperm & _ & Hp).
    rewrite Hp in Hparse. injection Hparse as <-. cbn [absorbances transmittances].
    assert (Hrel : forall s, In s sorted ->
              if String.eqb (mode self) "T"
              then fst (snd s) = - log10 (clip_min 1e-12 (snd (snd s)))
              else snd (snd s) = pow10 (- fst (snd s))).
    { intros [w [a t]] Hs. apply (Permutation_in _ Hperm) in Hs.
      apply filter_In in Hs. destruct Hs as [Hs _].
      unfold samples_of in Hs. apply in_combine_r in Hs.
      apply convert_amplitudes_pairs in Hs. exact Hs. }
    destruct (String.eqb (mode self) "T"); rewrite map_map; apply map_ext_in, Hrel.
  - exfalso. unfold parse in Hparse. rewrite Hread in Hparse. cbn [bind] in Hparse.
    pose proof (convert_amplitudes_length (mode self) (amplitudes spectra)) as [HA HT].
    destruct (convert_amplitudes (mode self) (amplitudes spectra)) as [A T].
    cbn [fst snd] in HA, HT.
    change (selector (wavelength spectra)) with (map in_band (wavelength spectra)) in Hparse.
    rewrite bool_index_self in Hparse. cbn [bind] in Hparse.
    destruct (fancy_index _ _); [|discriminate]. cbn [bind] in Hparse.
    destruct (@bool_index_length_mismatch _ A (map in_band (wavelength spectra))) as [e He].
    { rewrite length_map. congruence. }
    rewrite He in Hparse. discriminate.
Qed.

(* ------------------------------------------------------------------ *)
(** ** Replicate averaging *)

Lemma zip_with_Rplus_length (r r' : array) :
  List.length r' = List.length r -> List.length (zip_with Rplus r r') = List.length r.
Proof.
  revert r'. induction r as [|x r IH]; intros [|y r'] H; simpl in *;
    try discriminate; [reflexivity|]. f_equal. apply IH. congruence.
Qed.

Lemma zip_with_Rplus_nth (r r' : array) (j : nat) :
  List.length r' = List.length r ->
  nth j (zip_with Rplus r r') 0 = nth j r 0 + nth j r' 0.
Proof.
  revert r' j. induction r as [|x r IH]; intros [|y r'] [|j] H; simpl in *;
    try discriminate; try lra. apply IH. congruence.
Qed.

Lemma column_fold_spec (rest : list array) (r : array) :
  Forall (fun r' => List.length r' = List.length r) rest ->
  List.length (fold_left (zip_with Rplus) rest r) = List.length r /\
  forall j, nth j (fold_left (zip_with Rplus) rest r) 0 =
            nth j r 0 + np_sum (map (fun r' => nth j r' 0) rest).
Proof.
  revert r. induction rest as [|r' rest IH]; intros r H; simpl.
  - split; [reflexivity|]. intros j. rewrite np_sum_nil. lra.
  - inversion H as [|? ? Hr' Hrest]; subst.
    destruct (IH (zip_with Rplus r r')) as [Hlen Hnth].
    { rewrite zip_with_Rplus_length by exact Hr'. exact Hrest. }
    split.
    + rewrite Hlen. apply zip_with_Rplus_length, Hr'.
    + intros j. rewrite Hnth, np_sum_cons, zip_with_Rplus_nth by exact Hr'. lra.
Qed.

Lemma nth_map_lt (f : R -> R) (l : array) (j : nat) :
  (j < List.length l)%nat -> nth j (map f l) 0 = f (nth j l 0).
Proof.
  intros H. rewrite (nth_indep _ 0 (f 0)) by (rewrite length_map; exact H).
  apply map_nth.
Qed.

Lemma mean_axis0_spec (r : array) (rest : list array) :
  Forall (fun r' => List.length r' = List.length r) rest ->
  elementwise_mean (r :: rest) (mean_axis0 (r :: rest)).
Proof.
  intros H. destruct (column_fold_spec rest r H) as [Hlen Hnth].
  unfold elementwise_mean, mean_axis0, column_sums.
  rewrite length_map, Hlen. split.
  - constructor; [reflexivity | exact H].
  - intros j Hj.
    rewrite nth_map_lt by (rewrite Hlen; exact Hj).
    rewrite Hnth. cbn [map]. rewrite np_sum_cons. reflexivity.
Qed.

Lemma np_stack_inv (rows stacked : list array) :
  np_stack rows = Ok stacked ->
  stacked = rows /\
  exists r rest, rows = r :: rest /\ Forall (fun r' => List.length r' = List.length r) rest.
Proof.
  unfold np_stack. destruct rows as [|r rest]; [discriminate|].
  match goal with |- context [forallb ?f rest] => destruct (forallb f rest) eqn:E end;
    [|discriminate].
  intros [= <-]. split; [reflexivity|]. exists r, rest. split; [reflexivity|].
  apply Forall_forall. intros r' Hr'.
  rewrite forallb_forall in E. apply Nat.eqb_eq, E, Hr'.
Qed.

Lemma np_stack_same_length (r : array) (rest : list array) :
  Forall (fun r' => List.length r' = List.length r) rest ->
  np_stack (r :: rest) = Ok (r :: rest).
Proof.
  intros H. unfold np_stack.
  match goal with |- context [forallb ?f rest] => assert (E : forallb f rest = true) end.
  2: { rewrite E. reflexivity. }
  apply forallb_forall. intros r' Hr'.
  apply Nat.eqb_eq. rewrite Forall_forall in H. apply H, Hr'.
Qed.

Lemma average_entries_single (e : DatasetEntry) : average_entries [e] = Ok e.
Proof. reflexivity. Qed.

Lemma average_entries_many_inv (e1 e2 : DatasetEntry) (rest : list DatasetEntry)
    (e : DatasetEntry) :
  average_entries (e1 :: e2 :: rest) = Ok e ->
  e = mean_entry e1 (e1 :: e2 :: rest) /\
  Forall (fun e' => List.length (wavelengths (record e')) =
                    List.length (wavelengths (record e1))) (e2 :: rest) /\
  Forall (fun e' => List.length (transmittances (record e')) =
                    List.length (transmittances (record e1))) (e2 :: rest).
Proof.
  unfold average_entries.
  destruct (np_stack (map (fun e => wavelengths (record e)) (e1 :: e2 :: rest)))
    as [ws|] eqn:Ew; [|discriminate].
  destruct (np_stack (map (fun e => transmittances (record e)) (e1 :: e2 :: rest)))
    as [ts|] eqn:Et; [|discriminate].
  cbn [bind]. intros [= <-].
  apply np_stack_inv in Ew. destruct Ew as (-> & r & rs & Hr & Hw).
  apply np_stack_inv in Et. destruct Et as (-> & r' & rs' & Hr' & Ht).
  cbn [map] in Hr, Hr'. injection Hr as <- <-. injection Hr' as <- <-.
  split; [reflexivity|]. split.
  - apply (proj1 (Forall_map (fun e => wavelengths (record e))
             (fun r' => List.length r' = List.length (wavelengths (record e1))) (e2 :: rest))). exact Hw.
  - apply (proj1 (Forall_map (fun e => transmittances (record e))
             (fun r' => List.length r' = List.length (transmittances (record e1))) (e2 :: rest))). exact Ht.
Qed.

Lemma average_entries_many_ok (e1 e2 : DatasetEntry) (rest : list DatasetEntry) :
  Forall (fun e' => List.length (wavelengths (record e')) =
                    List.length (wavelengths (record e1))) (e2 :: rest) ->
  Forall (fun e' => List.length (transmittances (record e')) =
                    List.length (transmittances (record e1))) (e2 :: rest) ->
  average_entries (e1 :: e2 :: rest) = Ok (mean_entry e1 (e1 :: e2 :: rest)).
Proof.
  intros Hw Ht. unfold average_entries.
  apply (proj2 (Forall_map (fun e => wavelengths (record e))
             (fun r' => List.length r' = List.length (wavelengths (record e1))) (e2 :: rest))) in Hw.
  apply (proj2 (Forall_map (fun e => transmittances (record e))
             (fun r' => List.length r' = List.length (transmittances (record e1))) (e2 :: rest))) in Ht.
  cbn [map] in *. rewrite !np_stack_same_length by assumption.
  reflexivity.
Qed.

Lemma grouped_fold_get (suffix root : string) (items : dict string DatasetEntry)
    (grouped : dict string (list DatasetEntry)) :
  dict_get string_dec root
    (fold_left (fun g kv => grouped_append g (key_root suffix (fst kv)) (snd kv)) items grouped) =
  match dict_get string_dec root grouped, replicates_of suffix root items with
  | Some l0, reps => Some (l0 ++ reps)
  | None, [] => None
  | None, reps => Some reps
  end.
Proof.
  revert grouped. induction items as [|[k e] items IH]; intros grouped; simpl.
  - destruct (dict_get string_dec root grouped); [rewrite app_nil_r|]; reflexivity.
  - rewrite IH. unfold grouped_append at 1. rewrite dict_get_set.
    unfold replicates_of. simpl.
    destruct (string_dec root (key_root suffix k)) as [->|Hne].
    + rewrite String.eqb_refl. simpl.
      destruct (dict_get string_dec (key_root suffix k) grouped) as [l0|].
      * rewrite <- app_assoc. reflexivity.
      * reflexivity.
    + replace (String.eqb (key_root suffix k) root) with false
        by (symmetry; apply String.eqb_neq; congruence).
      reflexivity.
Qed.

Lemma group_by_root_get (suffix root : string) (items : dict string DatasetEntry) :
  dict_get string_dec root (group_by_root suffix items) =
  match replicates_of suffix root items with
  | [] => None
  | reps => Some reps
  end.
Proof. unfold group_by_root. rewrite grouped_fold_get. reflexivity. Qed.

Lemma group_by_root_NoDup (suffix : string) (items : dict string DatasetEntry) :
  NoDup (dict_keys (group_by_root suffix items)).
Proof.
  unfold group_by_root.
  assert (H : NoDup (dict_keys (@nil (string * list DatasetEntry)))) by constructor.
  revert H. generalize (@nil (string * list DatasetEntry)).
  induction items as [|[k e] items IH]; intros g Hg; simpl; [exact Hg|].
  apply IH. unfold grouped_append. apply dict_set_NoDup, Hg.
Qed.

Lemma average_groups_get (grouped : dict string (list DatasetEntry)) :
  NoDup (dict_keys grouped) ->
  forall (acc c' : DatasetCollection) (root : string),
    average_groups grouped acc = Ok c' ->
    match dict_get string_dec root grouped with
    | Some ents =>
        exists e, average_entries ents = Ok e /\
                  dict_get string_dec root (entries c') = Some e
    | None => dict_get string_dec root (entries c') = dict_get string_dec root (entries acc)
    end.
Proof.
  unfold average_groups.
  induction grouped as [|[k ents] grouped IH]; intros Hnd acc c' root H; simpl in *.
  - injection H as <-. reflexivity.
  - inversion Hnd as [|? ? Hnin Hnd']; subst.
    destruct (average_entries ents) as [e|] eqn:Ee; [|discriminate]. cbn [bind] in H.
    specialize (IH Hnd' _ c' root H).
    destruct (string_dec root k) as [->|Hne]; cbn iota.
    + exists e. split; [exact Ee|].
      assert (Hk : dict_get string_dec k grouped = None).
      { destruct (dict_get string_dec k grouped) eqn:E; [|reflexivity].
        exfalso. apply Hnin. apply dict_get_in_keys with (eq_dec := string_dec). congruence. }
      rewrite Hk in IH. rewrite IH. cbn [entries]. apply dict_get_set_same.
    + destruct (dict_get string_dec root grouped); [exact IH|].
      rewrite IH. cbn [entries]. apply dict_get_set_other. exact Hne.
Qed.

Lemma average_groups_total (grouped : dict string (list DatasetEntry)) :
  (forall g, In g grouped -> exists e, average_entries (snd g) = Ok e) ->
  forall acc, exists c', average_groups grouped acc = Ok c'.
Proof.
  unfold average_groups.
  induction grouped as [|[k ents] grouped IH]; intros H acc; simpl.
  - eexists; reflexivity.
  - destruct (H (k, ents)) as [e He]; [left; reflexivity|]. simpl in He.
    rewrite He. cbn [bind]. apply IH. intros g Hg. apply H. right. exact Hg.
Qed.

Lemma dict_get_In {V} (k : string) (v : V) (d : dict string V) :
  In (k, v) d -> NoDup (dict_keys d) -> dict_get string_dec k d = Some v.
Proof.
  induction d as [|[k0 v0] d IH]; simpl; [contradiction|].
  intros [H|H] Hnd; inversion Hnd as [|? ? Hnin Hnd']; subst.
  - injection H as -> ->. destruct (string_dec k k); congruence.
  - destruct (string_dec k k0) as [->|Hne]; [|apply IH; assumption].
    exfalso. apply Hnin. apply in_map_iff. exists (k0, v). split; [reflexivity | exact H].
Qed.

Lemma average_entries_total (ents : list DatasetEntry) (nw nt : nat) :
  ents <> [] ->
  Forall (fun e => List.length (wavelengths (record e)) = nw /\
                   List.length (transmittances (record e)) = nt) ents ->
  exists e, average_entries ents = Ok e.
Proof.
  intros Hne H. destruct ents as [|e1 [|e2 rest]]; [congruence | eexists; reflexivity |].
  exists (mean_entry e1 (e1 :: e2 :: rest)).
  inversion H as [|? ? [Hw1 Ht1] Hrest]; subst.
  apply average_entries_many_ok.
  - eapply Forall_impl; [|exact Hrest]. intros e' [Hw _]. exact Hw.
  - eapply Forall_impl; [|exact Hrest]. intros e' [_ Ht]. congruence.
Qed.

Lemma log10_inv_pow (n : nat) : log10 (/ 10 ^ n) = - INR n.
Proof.
  unfold log10. pose proof ln_10_pos.
  rewrite ln_Rinv by (apply pow_lt; lra).
  rewrite ln_pow by lra. field. lra.
Qed.

Lemma log10_mean_differs :
  - log10 0.3 <> (- log10 0.5 + - log10 0.1) / 2.
Proof.
  unfold log10. pose proof ln_10_pos as H10. intros H.
  assert (H2 : ln 0.3 + ln 0.3 = ln 0.5 + ln 0.1).
  { apply (Rmult_eq_reg_r (/ ln 10)); [|apply Rinv_neq_0_compat; lra].
    unfold Rdiv in H. lra. }
  rewrite <- !ln_mult in H2 by lra.
  apply ln_inv in H2; lra.
Qed.

Lemma averaged_unfold (self : DatasetCollection) (suffix : string) :
  averaged self suffix =
  average_groups (group_by_root suffix (entries self)) DatasetCollection_new.
Proof. reflexivity. Qed.

(** What [averaged] stores under a root, by the number of replicates. *)
Lemma averaged_get (self c' : DatasetCollection) (suffix root : string) :
  averaged self suffix = Ok c' ->
  match replicates_of suffix root (entries self) with
  | [] => dict_get string_dec root (entries c') = None
  | [e] => dict_get string_dec root (entries c') = Some e
  | e1 :: e2 :: rest =>
      dict_get string_dec root (entries c') = Some (mean_entry e1 (e1 :: e2 :: rest)) /\
      Forall (fun e' => List.length (wavelengths (record e')) =
                        List.length (wavelengths (record e1))) (e2 :: rest) /\
      Forall (fun e' => List.length (transmittances (record e')) =
                        List.length (transmittances (record e1))) (e2 :: rest)
  end.
Proof.
  rewrite averaged_unfold. intros H.
  pose proof (average_groups_get _ (group_by_root_NoDup suffix (entries self)) _ _ root H) as Hg.
  rewrite group_by_root_get in Hg.
  destruct (replicates_of suffix root (entries self)) as [|e1 [|e2 rest]].
  - exact Hg.
  - destruct Hg as (e & He & Hget). rewrite average_entries_single in He.
    injection He as <-. exact Hget.
  - destruct Hg as (e & He & Hget).
    apply average_entries_many_inv in He. destruct He as (-> & Hw & Ht).
    auto.
Qed.

Lemma averaged_pair (e1 e2 : DatasetEntry) :
  List.length (wavelengths (record e2)) = List.length (wavelengths (record e1)) ->
  List.length (transmittances (record e2)) = List.length (transmittances (record e1)) ->
  averaged {| entries := [("X#1", e1); ("X#2", e2)] |} "#" =
    Ok {| entries := [("X", mean_entry e1 [e1; e2])] |}.
Proof.
  intros Hw Ht. rewrite averaged_unfold.
  change (group_by_root "#" (entries {| entries := [("X#1", e1); ("X#2", e2)] |}))
    with [("X", [e1; e2])].
  unfold average_groups. cbn [foldM fst snd].
  rewrite average_entries_many_ok by (repeat constructor; assumption).
  reflexivity.
Qed.

(** C1, as the code has it: [averaged] stores one entry per root; a root
    with a single entry keeps that entry as it is; a root with two or more
    replicates gets the element-wise arithmetic mean of their wavelengths
    and of their transmittances, and the absorbance is minus the decimal
    logarithm of the mean transmittance clipped from below at 1e-12 (so it
    is minus the logarithm of the mean itself wherever the mean is at least
    1e-12).  Replicates of transmittance 0.5 and 0.1 average to 0.3 with
    absorbance minus log10 of 0.3, which is not the mean of the two
    absorbances.  The call returns whenever all arrays have one length. *)
Theorem averaged_means_in_transmittance_space :
  (forall (self c' : DatasetCollection) (suffix root : string),
      averaged self suffix = Ok c' ->
      match replicates_of suffix root (entries self) with
      | [] => dict_get string_dec root (entries c') = None
      | [e] => dict_get string_dec root (entries c') = Some e
      | e1 :: more =>
          exists e,
            dict_get string_dec root (entries c') = Some e /\
            elementwise_mean (map (fun r => wavelengths (record r)) (e1 :: more))
                             (wavelengths (record e)) /\
            elementwise_mean (map (fun r => transmittances (record r)) (e1 :: more))
                             (transmittances (record e)) /\
            absorbances (record e) =
              map (fun t => - log10 (Rmax t 1e-12)) (transmittances (record e)) /\
            (Forall (fun t => 1e-12 <= t) (transmittances (record e)) ->
             absorbances (record e) = map (fun t => - log10 t) (transmittances (record e)))
      end) /\
  (forall (e1 e2 : DatasetEntry) (w1 w2 : R),
      wavelengths (record e1) = [w1; w2] -> transmittances (record e1) = [0.5; 0.5] ->
      wavelengths (record e2) = [w1; w2] -> transmittances (record e2) = [0.1; 0.1] ->
      exists e,
        averaged {| entries := [("X#1", e1); ("X#2", e2)] |} "#" =
          Ok {| entries := [("X", e)] |} /\
        wavelengths (record e) = [w1; w2] /\
        transmittances (record e) = [0.3; 0.3] /\
        absorbances (record e) = [- log10 0.3; - log10 0.3] /\
        - log10 0.3 <> (- log10 0.5 + - log10 0.1) / 2) /\
  (forall (self : DatasetCollection) (suffix : string) (nw nt : nat),
      Forall (fun kv => List.length (wavelengths (record (snd kv))) = nw /\
                        List.length (transmittances (record (snd kv))) = nt)
             (entries self) ->
      exists c', averaged self suffix = Ok c').
Proof.
  split; [|split].
  - intros self c' suffix root H.
    pose proof (averaged_get self c' suffix root H) as Hg.
    destruct (replicates_of suffix root (entries self)) as [|e1 [|e2 rest]];
      [exact Hg | exact Hg |].
    destruct Hg as (Hget & Hw & Ht).
    exists (mean_entry e1 (e1 :: e2 :: rest)).
    split; [exact Hget|]. cbn [mean_entry record wavelengths transmittances absorbances].
    split; [|split; [|split]].
    + apply mean_axis0_spec.
      apply (proj2 (Forall_map (fun e => wavelengths (record e))
               (fun r' => List.length r' = List.length (wavelengths (record e1))) (e2 :: rest))).
      exact Hw.
    + apply mean_axis0_spec.
      apply (proj2 (Forall_map (fun e => transmittances (record e))
               (fun r' => List.length r' = List.length (transmittances (record e1))) (e2 :: rest))).
      exact Ht.
    + reflexivity.
    + intros Hpos. apply map_ext_in. intros t Ht'.
      rewrite Forall_forall in Hpos. rewrite clip_min_above by (apply Hpos, Ht').
      reflexivity.
  - intros e1 e2 w1 w2 Hw1 Ht1 Hw2 Ht2.
    exists (mean_entry e1 [e1; e2]).
    split; [apply averaged_pair; rewrite ?Hw1, ?Hw2, ?Ht1, ?Ht2; reflexivity|].
    unfold mean_entry, mean_axis0, column_sums.
    cbn [record wavelengths transmittances absorbances map fold_left].
    rewrite Hw1, Hw2, Ht1, Ht2. cbn [zip_with map List.length INR].
    assert (Hm : (0.5 + 0.1) / (1 + 1) = 0.3) by lra.
    assert (Hc : clip_min 1e-12 0.3 = 0.3) by (apply clip_min_above; lra).
    rewrite Hm, Hc.
    repeat split; try reflexivity.
    + f_equal; [|f_equal]; lra.
    + apply log10_mean_differs.
  - intros self suffix nw nt H.
    rewrite averaged_unfold. apply average_groups_total.
    intros [root ents] Hg. cbn [snd].
    pose proof (dict_get_In root ents _ Hg (group_by_root_NoDup suffix (entries self))) as Hget.
    rewrite group_by_root_get in Hget.
    assert (Hents : ents = replicates_of suffix root (entries self) /\ ents <> []).
    { destruct (replicates_of suffix root (entries self)); [discriminate|].
      injection Hget as <-. split; [reflexivity | discriminate]. }
    destruct Hents as [-> Hne].
    apply (average_entries_total _ nw nt Hne).
    apply Forall_forall. intros e He.
    unfold replicates_of in He. apply in_map_iff in He.
    destruct He as ([k e'] & <- & Hin). apply filter_In in Hin. destruct Hin as [Hin _].
    rewrite Forall_forall in H. apply (H _ Hin).
Qed.

Lemma averaged_means_in_transmittance_space_witness :
  exists e,
    averaged {| entries :=
                  [("X#1", {| record := {| wavelengths := [400; 500];
                                           absorbances := [- log10 0.5; - log10 0.5];
                                           transmittances := [0.5; 0.5] |};
                              measurement := "transmittance"; metadata := [] |});
                   ("X#2", {| record := {| wavelengths := [400; 500];
                                           absorbances := [- log10 0.1; - log10 0.1];
                                           transmittances := [0.1; 0.1] |};
                              measurement := "transmittance"; metadata := [] |})] |} "#" =
      Ok {| entries := [("X", e)] |} /\
    wavelengths (record e) = [400; 500] /\
    transmittances (record e) = [0.3; 0.3] /\
    absorbances (record e) = [- log10 0.3; - log10 0.3] /\
    - log10 0.3 <> (- log10 0.5 + - log10 0.1) / 2.
Proof.
  apply (proj1 (proj2 averaged_means_in_transmittance_space)
           {| record := {| wavelengths := [400; 500];
                           absorbances := [- log10 0.5; - log10 0.5];
                           transmittances := [0.5; 0.5] |};
              measurement := "transmittance"; metadata := [] |}
           {| record := {| wavelengths := [400; 500];
                           absorbances := [- log10 0.1; - log10 0.1];
                           transmittances := [0.1; 0.1] |};
              measurement := "transmittance"; metadata := [] |}
           400 500); reflexivity.
Defined.

(** Counterexample to C1 as stated: two replicates of transmittance 1e-13
    average to transmittance 1e-13, whose minus log10 is 13, while the
    stored absorbance is 12. *)
Lemma averaged_absorbance_floor_counterexample :
  exists e,
    averaged {| entries := [("X#1", dim_replicate); ("X#2", dim_replicate)] |} "#" =
      Ok {| entries := [("X", e)] |} /\
    transmittances (record e) = [1e-13] /\
    map (fun t => - log10 t) (transmittances (record e)) = [13] /\
    absorbances (record e) = [12] /\
    absorbances (record e) <> map (fun t => - log10 t) (transmittances (record e)).
Proof.
  exists (mean_entry dim_replicate [dim_replicate; dim_replicate]).
  split; [apply averaged_pair; reflexivity|].
  unfold mean_entry, mean_axis0, column_sums, dim_replicate.
  cbn [record wavelengths transmittances absorbances map fold_left zip_with List.length INR].
  assert (Hm : (1e-13 + 1e-13) / (1 + 1) = 1e-13) by lra.
  assert (Hc : clip_min 1e-12 1e-13 = 1e-12) by (apply clip_min_below; lra).
  assert (H12 : - log10 1e-12 = 12).
  { replace 1e-12 with (/ 10 ^ 12) by lra. rewrite log10_inv_pow. simpl. lra. }
  assert (H13 : - log10 1e-13 = 13).
  { replace 1e-13 with (/ 10 ^ 13) by lra. rewrite log10_inv_pow. simpl. lra. }
  rewrite Hm, Hc, H12, H13.
  repeat split; try reflexivity.
  intros [= H]. lra.
Qed.

Lemma map_pow10_clipped_log10 (ts : array) :
  Forall (fun t => 1e-12 <= t) ts ->
  ts = map (fun a => pow10 (- a)) (map (fun t => - log10 (clip_min 1e-12 t)) ts).
Proof.
  intros H. rewrite map_map. rewrite <- (map_id ts) at 1.
  apply map_ext_in. intros t Ht. rewrite Forall_forall in H.
  symmetry. apply pow10_clipped_log10, H, Ht.
Qed.

Lemma argsort_single (x : R) : argsort [x] = [0%nat].
Proof. reflexivity. Qed.

(** C2, as the code has it: a record parsed in mode A or R has
    transmittance equal to ten to the minus absorbance, element by element;
    a record parsed in mode T, and a record averaged from two or more
    replicates, has absorbance equal to minus log10 of the transmittance
    clipped from below at 1e-12, hence the power law wherever the
    transmittance is at least 1e-12; a root with one entry keeps its record;
    and minus log10 of ten to the minus A is A for every A. *)
Theorem transmittance_power_law_above_floor :
  (forall (read : string -> result Spectrum) (self : SpcFileParser)
          (spectra : Spectrum) (rec : SpectralRecord),
      read (filename self) = Ok spectra ->
      parse (Some read) self = Ok rec ->
      (String.eqb (mode self) "T" = false ->
       transmittances rec = map (fun a => pow10 (- a)) (absorbances rec)) /\
      (String.eqb (mode self) "T" = true ->
       absorbances rec = map (fun t => - log10 (Rmax t 1e-12)) (transmittances rec) /\
       (Forall (fun t => 1e-12 <= t) (transmittances rec) ->
        transmittances rec = map (fun a => pow10 (- a)) (absorbances rec)))) /\
  (forall (self c' : DatasetCollection) (suffix root : string) (e : DatasetEntry),
      averaged self suffix = Ok c' ->
      dict_get string_dec root (entries c') = Some e ->
      match replicates_of suffix root (entries self) with
      | [] => False
      | [e0] => e = e0
      | _ =>
          absorbances (record e) =
            map (fun t => - log10 (Rmax t 1e-12)) (transmittances (record e)) /\
          (Forall (fun t => 1e-12 <= t) (transmittances (record e)) ->
           transmittances (record e) = map (fun a => pow10 (- a)) (absorbances (record e)))
      end) /\
  (forall A : R, - log10 (pow10 (- A)) = A).
Proof.
  split; [|split].
  - intros read self spectra rec Hread Hparse.
    pose proof (parse_pairs read self spectra rec Hread Hparse) as H.
    destruct (String.eqb (mode self) "T"); split; try discriminate.
    + intros _. split; [exact H|]. intros Hpos. rewrite H.
      apply map_pow10_clipped_log10, Hpos.
    + intros _. exact H.
  - intros self c' suffix root e Hav Hget.
    pose proof (averaged_get self c' suffix root Hav) as Hg.
    destruct (replicates_of suffix root (entries self)) as [|e1 [|e2 rest]].
    + congruence.
    + congruence.
    + destruct Hg as (Hget' & _). rewrite Hget' in Hget. injection Hget as <-.
      cbn [mean_entry record absorbances transmittances].
      split; [reflexivity|]. intros Hpos. apply map_pow10_clipped_log10, Hpos.
  - intros A. rewrite log10_pow10. lra.
Qed.

Lemma transmittance_power_law_above_floor_witness :
  (String.eqb "A" "T" = false ->
   transmittances {| wavelengths := [400]; absorbances := [1]; transmittances := [pow10 (- 1)] |} =
     map (fun a => pow10 (- a))
       (absorbances {| wavelengths := [400]; absorbances := [1]; transmittances := [pow10 (- 1)] |})) /\
  (String.eqb "A" "T" = true ->
   absorbances {| wavelengths := [400]; absorbances := [1]; transmittances := [pow10 (- 1)] |} =
     map (fun t => - log10 (Rmax t 1e-12))
       (transmittances {| wavelengths := [400]; absorbances := [1]; transmittances := [pow10 (- 1)] |}) /\
   (Forall (fun t => 1e-12 <= t)
      (transmittances {| wavelengths := [400]; absorbances := [1]; transmittances := [pow10 (- 1)] |}) ->
    transmittances {| wavelengths := [400]; absorbances := [1]; transmittances := [pow10 (- 1)] |} =
      map (fun a => pow10 (- a))
        (absorbances {| wavelengths := [400]; absorbances := [1]; transmittances := [pow10 (- 1)] |}))).
Proof.
  apply (proj1 transmittance_power_law_above_floor
           (fun _ => Ok {| wavelength := [400]; amplitudes := [1] |})
           {| filename := "sample.sp"; mode := "A" |}
           {| wavelength := [400]; amplitudes := [1] |}).
  - reflexivity.
  - unfold parse. cbn [bind filename mode wavelength amplitudes].
    change (convert_amplitudes "A" [1]) with ([1], [pow10 (- 1)]).
    change [400] with (map IZR [400%Z]).
    rewrite selector_IZR. reflexivity.
Defined.

(** Counterexample to C2 as stated: a zero reading parsed in mode [T]
    keeps transmittance 0, which is not a power of ten. *)
Lemma parse_zero_transmittance_counterexample :
  SpcFileParser_init "blank.sp" "T" = Ok {| filename := "blank.sp"; mode := "T" |} /\
  exists rec,
    parse (Some (fun _ => Ok {| wavelength := [400]; amplitudes := [0] |}))
          {| filename := "blank.sp"; mode := "T" |} = Ok rec /\
    transmittances rec = [0] /\
    transmittances rec <> map (fun a => pow10 (- a)) (absorbances rec).
Proof.
  split; [reflexivity|].
  exists {| wavelengths := [400];
            absorbances := [- log10 (clip_min 1e-12 0)];
            transmittances := [0] |}.
  split; [|split].
  - unfold parse. cbn [bind filename mode wavelength amplitudes].
    change (convert_amplitudes "T" [0]) with ([- log10 (clip_min 1e-12 0)], [0]).
    change [400] with (map IZR [400%Z]).
    rewrite selector_IZR. reflexivity.
  - reflexivity.
  - cbn [transmittances absorbances map]. intros [= H].
    pose proof (pow10_pos (- - log10 (clip_min 1e-12 0))). lra.
Qed.

(* ------------------------------------------------------------------ *)
(** ** Spectrum to tristimulus *)

Lemma in_window_spec (wv : R * R) : in_window wv = true <-> 360 <= fst wv <= 800.
Proof. unfold in_window. rewrite andb_true_iff, !Rleb_le. tauto. Qed.

Lemma vec3_clip_bounds (v : Vec3) :
  let '(r, g, b) := vec3_map (clip 0 1) v in
  0 <= r <= 1 /\ 0 <= g <= 1 /\ 0 <= b <= 1.
Proof.
  destruct v as [[x y] z]. cbn [vec3_map].
  repeat split; apply clip_bounds; lra.
Qed.

Lemma spectrum_to_xyz_pairs (colour : Colour) (p : R * R) (l : list (R * R))
    (absorbance : bool) (illuminant : option SpectralDistribution) :
  spectrum_to_xyz (Some colour) (Pairs (p :: l)) absorbance illuminant =
    Ok (integrate_kept colour (filter in_window (p :: l)) absorbance illuminant).
Proof.
  unfold spectrum_to_xyz, np_array_columns. cbn [bind fst snd].
  rewrite map_map.
  change (fun x : R * R => Rleb 360 (fst x) && Rleb (fst x) 800) with in_window.
  rewrite (bool_index_proj fst in_window (p :: l)).
  rewrite (bool_index_proj snd in_window (p :: l)).
  cbn [bind]. reflexivity.
Qed.

(** C6: on a non-empty sequence of pairs and with the colour package
    present, [spectrum_to_xyz] raises nothing; only the pairs with
    wavelength between 360 and 800 reach the integration (the result is the
    one obtained from those pairs alone), the integrated tristimulus is
    divided by 100, and every component of the returned rgb lies between 0
    and 1. *)
Theorem spectrum_to_xyz_window_scale_clip :
  forall (colour : Colour) (p : R * R) (l : list (R * R)) (absorbance : bool)
         (illuminant : option SpectralDistribution),
    let kept := filter in_window (p :: l) in
    let transmittance :=
      if absorbance then map (fun v => pow10 (- v)) (map snd kept) else map snd kept in
    let raw := sd_to_XYZ colour (dict_zip (map fst kept) transmittance) illuminant in
    exists rgb lab xyz : Vec3,
      spectrum_to_xyz (Some colour) (Pairs (p :: l)) absorbance illuminant = Ok (rgb, lab, xyz) /\
      (forall wv, In wv kept <-> In wv (p :: l) /\ 360 <= fst wv <= 800) /\
      xyz = (let '(X, Y, Z) := raw in (X / 100, Y / 100, Z / 100)) /\
      lab = XYZ_to_Lab colour xyz /\
      rgb = vec3_map (clip 0 1) (XYZ_to_sRGB colour xyz) /\
      (let '(r, g, b) := rgb in 0 <= r <= 1 /\ 0 <= g <= 1 /\ 0 <= b <= 1) /\
      match kept with
      | [] => True
      | _ => spectrum_to_xyz (Some colour) (Pairs kept) absorbance illuminant =
             spectrum_to_xyz (Some colour) (Pairs (p :: l)) absorbance illuminant
      end.
Proof.
  intros colour p l absorbance illuminant kept transmittance raw.
  eexists _, _, _. split; [apply spectrum_to_xyz_pairs|].
  split; [|split; [|split; [|split; [|split]]]].
  - intros wv. unfold kept. rewrite filter_In, in_window_spec. reflexivity.
  - fold kept. fold transmittance. fold raw. destruct raw as [[X Y] Z]. reflexivity.
  - reflexivity.
  - reflexivity.
  - apply vec3_clip_bounds.
  - destruct kept as [|q kept'] eqn:E; [exact I|].
    rewrite !spectrum_to_xyz_pairs. f_equal. f_equal.
    rewrite <- E. unfold kept.
    clear. induction (p :: l) as [|x xs IH]; simpl; [reflexivity|].
    destruct (in_window x) eqn:Ex; simpl; rewrite ?Ex, IH; reflexivity.
Qed.

(* ------------------------------------------------------------------ *)
(** ** The results map *)

Lemma same_but_results_refl (w : World) : same_but_results w w.
Proof. repeat split. Qed.

Lemma analyse_and_store_invariant
    (compute : string * DatasetEntry -> result ColourResult.t)
    (base : dict string ColourResult.t) (items : dict string DatasetEntry) :
  forall (local : dict string ColourResult.t) (w : World),
    NoDup (dict_keys local) ->
    results (self w) = dict_update string_dec base local ->
    let out := analyse_and_store compute items local w in
    NoDup (dict_keys (fst (fst out))) /\
    results (self (snd out)) = dict_update string_dec base (fst (fst out)) /\
    same_but_results w (snd out).
Proof.
  induction items as [|[key entry] items IH]; intros local w Hnd Hres; simpl.
  - split; [exact Hnd|]. split; [exact Hres | apply same_but_results_refl].
  - destruct (compute (key, entry)) as [result|e]; simpl.
    + specialize (IH (dict_set string_dec key result local)
                     {| self := set_result key result (self w); logged := logged w |}).
      destruct IH as (H1 & H2 & H3).
      * apply dict_set_NoDup, Hnd.
      * simpl. rewrite Hres. symmetry. apply dict_update_set, Hnd.
      * split; [exact H1|]. split; [exact H2|].
        unfold same_but_results in *. simpl in H3. exact H3.
    + split; [exact Hnd|]. split; [exact Hres | apply same_but_results_refl].
Qed.










(* ------------------------------------------------------------------ *)
(** ** Building groups *)

Lemma collection_lookup_known (p : Pipeline) (name : string) :
  collection_lookup p name <> None <-> name = "all" \/ name = "averaged".
Proof.
  unfold collection_lookup. simpl.
  destruct (string_dec name "all") as [->|H1]; [split; [auto | discriminate]|].
  destruct (string_dec name "averaged") as [->|H2]; [split; [auto | discriminate]|].
  split; [congruence | intros [?|?]; congruence].
Qed.




Lemma for_each_log (logs : list LogRecord) (w : World) :
  for_each logs (fun r => log_record (fst r) (snd r)) w =
    (Ok tt, {| self := self w; logged := logged w ++ logs |}).
Proof.
  revert w. induction logs as [|[level msg] logs IH]; intros w; simpl.
  - unfold ret. rewrite app_nil_r. destruct w; reflexivity.
  - unfold bindM, log_record. rewrite IH. cbn [self logged fst snd].
    rewrite <- app_assoc. reflexivity.
Qed.

Lemma build_group_known (p0 : Pipeline) (group : DatasetGroup.t) (w : World) :
  known_source p0 group ->
  build_group p0 group w =
    (Ok tt, {| self := set_group (DatasetGroup.name group) (fst (built_subset p0 group)) (self w);
               logged := logged w ++ snd (built_subset p0 group) |}).
Proof.
  unfold known_source, build_group, built_subset.
  destruct (collection_lookup p0 (DatasetGroup.source group)) as [source|];
    [|intros H; exfalso; apply H; reflexivity].
  intros _. destruct (build_subset p0 source group) as [subset logs].
  unfold bindM. rewrite for_each_log. reflexivity.
Qed.

Lemma build_group_unknown (p0 : Pipeline) (group : DatasetGroup.t) (w : World) :
  ~ known_source p0 group ->
  build_group p0 group w = (Raise (source_error group), w).
Proof.
  unfold known_source, build_group.
  destruct (collection_lookup p0 (DatasetGroup.source group));
    [intros H; exfalso; apply H; discriminate|].
  reflexivity.
Qed.

Lemma build_groups_loop_ok (p0 : Pipeline) (gs : list DatasetGroup.t) :
  Forall (known_source p0) gs ->
  forall w,
    for_each gs (build_group p0) w =
      (Ok tt,
       {| self := with_groups (dict_update string_dec (groups (self w)) (built_groups p0 gs))
                    (self w);
          logged := logged w ++ flat_map (fun g => snd (built_subset p0 g)) gs |}).
Proof.
  induction 1 as [|g gs Hg Hgs IH]; intros w; simpl.
  - unfold ret. rewrite app_nil_r. destruct w as [[] ?]; reflexivity.
  - unfold bindM. rewrite build_group_known by exact Hg. rewrite IH.
    cbn [self logged set_group with_groups groups config raw_collections all_data
         averaged_data results].
    rewrite <- app_assoc. reflexivity.
Qed.


Lemma build_groups_unfold (given : option (list DatasetGroup.t)) (w : World) :
  build_groups given w =
    for_each (seq_or given (NotebookConfig.groups (config (self w))))
      (build_group (self w)) w.
Proof. reflexivity. Qed.


Lemma named_sources_known (p : Pipeline) (gs : list DatasetGroup.t) :
  Forall named_source gs -> Forall (known_source p) gs.
Proof.
  intros H. eapply Forall_impl; [|exact H].
  intros g Hg. apply collection_lookup_known, Hg.
Qed.


(* ------------------------------------------------------------------ *)
(** ** Loading and rebuilding *)

Lemma dict_update_app {K V} (eq_dec : forall x y : K, {x = y} + {x <> y})
    (d l1 l2 : dict K V) :
  dict_update eq_dec d (l1 ++ l2) = dict_update eq_dec (dict_update eq_dec d l1) l2.
Proof. unfold dict_update. apply fold_left_app. Qed.

Lemma with_loaded_nil (p : Pipeline) : with_loaded [] p = p.
Proof. destruct p as [? ? [?] ? ? ?]. reflexivity. Qed.

Lemma with_loaded_app (cs1 cs2 : list (string * DatasetCollection)) (p : Pipeline) :
  with_loaded (cs1 ++ cs2) p = with_loaded cs2 (with_loaded cs1 p).
Proof.
  unfold with_loaded. cbn [config raw_collections all_data averaged_data groups results entries].
  rewrite flat_map_app, !dict_update_app. reflexivity.
Qed.

Lemma load_directory_spec (env : Env) (d : DirectoryConfig.t) (w : World) :
  match collect_directory env d with
  | Ok c => exists lg,
      load_directory env d w = (Ok tt, {| self := with_loaded c (self w); logged := lg |})
  | Raise e => load_directory env d w = (Raise e, w)
  end.
Proof.
  unfold collect_directory, load_directory.
  destruct (listing env (DirectoryConfig.path d)).
  - unfold bindM, lift, modify_self.
    destruct (from_directory env _ _ _ _) as [c|e]; cbn [bind]; [|reflexivity].
    eexists. cbn [self logged]. f_equal. f_equal.
    unfold with_loaded, set_all_data, set_raw_collection, extend.
    cbn [config raw_collections all_data averaged_data groups results entries flat_map snd].
    rewrite app_nil_r. reflexivity.
  - eexists. unfold log_record. rewrite with_loaded_nil. reflexivity.
Qed.

Lemma load_loop_sound (env : Env) (dirs : list DirectoryConfig.t) :
  forall w w',
    for_each dirs (load_directory env) w = (Ok tt, w') ->
    exists cs, collected env dirs = Ok cs /\ self w' = with_loaded cs (self w).
Proof.
  induction dirs as [|d dirs IH]; intros w w' H; simpl in *.
  - injection H as <-. exists []. split; [reflexivity | symmetry; apply with_loaded_nil].
  - unfold bindM in H. pose proof (load_directory_spec env d w) as Hd.
    destruct (collect_directory env d) as [c|e].
    + destruct Hd as [lg Hd]. rewrite Hd in H.
      destruct (IH _ _ H) as (cs & Hcs & Hself). rewrite Hcs. cbn [bind].
      exists (c ++ cs). split; [reflexivity|].
      rewrite Hself, with_loaded_app. reflexivity.
    + rewrite Hd in H. discriminate.
Qed.

Lemma load_loop_complete (env : Env) (dirs : list DirectoryConfig.t) :
  forall cs w,
    collected env dirs = Ok cs ->
    exists lg,
      for_each dirs (load_directory env) w =
        (Ok tt, {| self := with_loaded cs (self w); logged := lg |}).
Proof.
  induction dirs as [|d dirs IH]; intros cs w H; simpl in *.
  - injection H as <-. exists (logged w). unfold ret. rewrite with_loaded_nil.
    destruct w; reflexivity.
  - pose proof (load_directory_spec env d w) as Hd.
    destruct (collect_directory env d) as [c|e]; [|discriminate]. cbn [bind] in H.
    destruct (collected env dirs) as [cs'|] eqn:Ecs; [|discriminate].
    injection H as <-. destruct Hd as [lg Hd].
    destruct (IH cs' {| self := with_loaded c (self w); logged := lg |} eq_refl) as [lg' Hrest].
    exists lg'. unfold bindM. rewrite Hd, Hrest. cbn [self].
    rewrite with_loaded_app. reflexivity.
Qed.

Lemma with_loaded_idem (cs : list (string * DatasetCollection)) (p : Pipeline)
    (a : DatasetCollection) :
  well_formed p ->
  with_loaded cs (set_averaged_data a (with_loaded cs p)) =
    set_averaged_data a (with_loaded cs p).
Proof.
  intros (Hraw & Hall & _). unfold with_loaded, set_averaged_data.
  cbn [config raw_collections all_data averaged_data groups results entries].
  rewrite !dict_update_idem by assumption. reflexivity.
Qed.

Lemma set_averaged_data_same (p : Pipeline) :
  set_averaged_data (averaged_data p) p = p.
Proof. destruct p. reflexivity. Qed.

Lemma build_averaged_spec (w : World) :
  _build_averaged_dataset w =
    match entries (all_data (self w)) with
    | [] => (Ok tt, w)
    | _ =>
        match averaged (all_data (self w)) "#" with
        | Ok a => (Ok tt, {| self := set_averaged_data a (self w); logged := logged w |})
        | Raise e => (Raise e, w)
        end
    end.
Proof.
  unfold _build_averaged_dataset, bindM, get_self, lift, modify_self, ret.
  destruct (entries (all_data (self w))); [reflexivity|].
  destruct (averaged (all_data (self w)) "#"); reflexivity.
Qed.

(** A second [load_directories] with the same arguments, on the same file
    system, leaves the pipeline as the first one left it. *)
Lemma load_directories_idempotent (env : Env) (given : option (list DirectoryConfig.t))
    (w w1 : World) :
  well_formed (self w) ->
  load_directories env given w = (Ok tt, w1) ->
  exists w2, load_directories env given w1 = (Ok tt, w2) /\ self w2 = self w1.
Proof.
  intros Hwf H.
  unfold load_directories, bindM, get_self in H.
  set (dirs := seq_or given (NotebookConfig.directories (config (self w)))) in H.
  destruct (for_each dirs (load_directory env) w) as [[[]|e] wm] eqn:E1; [|discriminate].
  destruct (load_loop_sound env dirs w wm E1) as (cs & Hcs & Hwm).
  rewrite build_averaged_spec in H.
  assert (Hconf : forall a, config (set_averaged_data a (with_loaded cs (self w)))
                            = config (self w)) by reflexivity.
  assert (Hnil : with_loaded cs (with_loaded cs (self w)) = with_loaded cs (self w)).
  { pose proof (with_loaded_idem cs (self w) (averaged_data (self w)) Hwf) as Hi.
    assert (Hs : set_averaged_data (averaged_data (self w)) (with_loaded cs (self w))
                 = with_loaded cs (self w))
      by exact (set_averaged_data_same (with_loaded cs (self w))).
    rewrite Hs in Hi. exact Hi. }
  destruct (entries (all_data (self wm))) as [|kv rest] eqn:Eall.
  - injection H as <-.
    destruct (load_loop_complete env dirs cs wm Hcs) as [lg Hrun].
    assert (Hfix : with_loaded cs (self wm) = self wm) by (rewrite Hwm; exact Hnil).
    rewrite Hfix in Hrun.
    eexists. split.
    + unfold load_directories, bindM, get_self.
      replace (config (self wm)) with (config (self w)) by (rewrite Hwm; reflexivity).
      fold dirs. rewrite Hrun, build_averaged_spec. cbn [self].
      rewrite Eall. reflexivity.
    + reflexivity.
  - destruct (averaged (all_data (self wm)) "#") as [a|] eqn:Eav; [|discriminate].
    injection H as <-.
    destruct (load_loop_complete env dirs cs
                {| self := set_averaged_data a (self wm); logged := logged wm |} Hcs)
      as [lg Hrun].
    assert (Hfix : with_loaded cs (set_averaged_data a (self wm)) = set_averaged_data a (self wm)).
    { rewrite Hwm. apply with_loaded_idem, Hwf. }
    eexists. split.
    + unfold load_directories, bindM, get_self. cbn [self].
      replace (config (set_averaged_data a (self wm))) with (config (self w))
        by (rewrite Hwm; reflexivity).
      fold dirs. rewrite Hrun, build_averaged_spec. cbn [self logged].
      rewrite Hfix. cbn [set_averaged_data all_data]. rewrite Eall, Eav. reflexivity.
    + cbn [self]. destruct (self wm). reflexivity.
Qed.

Lemma fold_left_pointwise {A B} (f g : A -> B -> A) (l : list B) (a : A) :
  (forall x y, f x y = g x y) -> fold_left f l a = fold_left g l a.
Proof.
  intros H. revert a. induction l as [|y l IH]; intros a; simpl; [reflexivity|].
  rewrite H. apply IH.
Qed.

(** The subset of a group is a function of the two pools and the group. *)
Lemma built_subset_pools (p p' : Pipeline) (g : DatasetGroup.t) :
  all_data p = all_data p' ->
  averaged_data p = averaged_data p' ->
  built_subset p g = built_subset p' g.
Proof.
  intros Hall Havg.
  assert (Hl : forall name, collection_lookup p name = collection_lookup p' name).
  { intros name. unfold collection_lookup. rewrite Hall, Havg. reflexivity. }
  unfold built_subset. rewrite Hl.
  destruct (collection_lookup p' (DatasetGroup.source g)); [|reflexivity].
  unfold build_subset. apply fold_left_pointwise.
  intros [subset logs] [target descriptor]. unfold apply_assignment.
  destruct (split_once ":" descriptor) as [[sn sk]|]; [|reflexivity].
  rewrite Hl. reflexivity.
Qed.

(** Counterexample to C3 as stated: after [build_groups] for group "first"
    and then [build_groups] for group "second", the groups map holds both
    names, not only the group of the new call. *)
Lemma build_groups_keeps_earlier_groups_counterexample :
  let first_call := build_groups (Some [group_named "first"]) fresh_world in
  let second_call := build_groups (Some [group_named "second"]) (snd first_call) in
  fst first_call = Ok tt /\
  fst second_call = Ok tt /\
  dict_keys (groups (self (snd second_call))) = ["first"; "second"] /\
  dict_keys (groups (self (snd second_call))) <> ["second"].
Proof.
  cbv zeta. split; [reflexivity|]. split; [reflexivity|].
  split; [reflexivity | discriminate].
Qed.

(** C3, as the code has it: a second [load_directories] with the same
    arguments on the same file system leaves the pipeline (raw pools, merged
    pool, averaged pool) as the first call left it; [build_groups] assigns,
    for each requested group, a subset built afresh from the two pools and
    the group description alone, keeps every group stored under another
    name by an earlier call, changes nothing else of the pipeline, and is
    idempotent when repeated with the same arguments. *)
Theorem load_and_build_groups_are_idempotent_and_keep_other_groups :
  (forall (env : Env) (given : option (list DirectoryConfig.t)) (w w1 : World),
      well_formed (self w) ->
      load_directories env given w = (Ok tt, w1) ->
      exists w2, load_directories env given w1 = (Ok tt, w2) /\ self w2 = self w1) /\
  (forall (given : option (list DatasetGroup.t)) (w : World),
      let requested := seq_or given (NotebookConfig.groups (config (self w))) in
      Forall named_source requested ->
      let w1 := snd (build_groups given w) in
      fst (build_groups given w) = Ok tt /\
      self w1 = with_groups (dict_update string_dec (groups (self w))
                               (built_groups (self w) requested)) (self w) /\
      (forall name,
          dict_get string_dec name (groups (self w1)) =
            match last_binding string_dec name (built_groups (self w) requested) with
            | Some subset => Some subset
            | None => dict_get string_dec name (groups (self w))
            end) /\
      (forall name, In name (dict_keys (groups (self w))) ->
                    In name (dict_keys (groups (self w1)))) /\
      (well_formed (self w) -> self (snd (build_groups given w1)) = self w1)) /\
  (forall (p p' : Pipeline) (g : DatasetGroup.t),
      all_data p = all_data p' ->
      averaged_data p = averaged_data p' ->
      built_subset p g = built_subset p' g).
Proof.
  split; [exact load_directories_idempotent|]. split; [|exact built_subset_pools].
  intros given w requested Hall w1.
  assert (Hrun : build_groups given w =
                   (Ok tt,
                    {| self := with_groups (dict_update string_dec (groups (self w))
                                              (built_groups (self w) requested)) (self w);
                       logged := logged w ++
                                 flat_map (fun g => snd (built_subset (self w) g)) requested |})).
  { rewrite build_groups_unfold. fold requested.
    apply build_groups_loop_ok, named_sources_known, Hall. }
  unfold w1. rewrite Hrun. cbn [fst snd self].
  split; [reflexivity|]. split; [reflexivity|]. split; [|split].
  - intros name. cbn [with_groups groups]. apply dict_get_update.
  - intros name Hin. cbn [with_groups groups].
    apply dict_keys_update_incl. left. exact Hin.
  - intros (_ & _ & Hnd).
    set (w' := {| self := with_groups _ (self w); logged := _ |}).
    assert (Hreq : seq_or given (NotebookConfig.groups (config (self w'))) = requested)
      by reflexivity.
    rewrite build_groups_unfold, Hreq.
    rewrite (build_groups_loop_ok (self w') requested
               (named_sources_known (self w') requested Hall) w').
    cbn [snd self].
    assert (Hsame : built_groups (self w') requested = built_groups (self w) requested).
    { unfold built_groups. apply map_ext. intros g.
      rewrite (built_subset_pools (self w') (self w) g) by reflexivity. reflexivity. }
    change (groups (self w'))
      with (dict_update string_dec (groups (self w)) (built_groups (self w) requested)).
    rewrite Hsame, dict_update_idem by exact Hnd. reflexivity.
Qed.

(* ------------------------------------------------------------------ *)
(** ** Concrete runs *)


Lemma load_and_build_groups_are_idempotent_and_keep_other_groups_witness :
  (exists w2,
      load_directories notes_only (Some [run1])
        {| self := with_loaded [("run1", DatasetCollection_new)] (self fresh_world);
           logged := [] |} = (Ok tt, w2) /\
      self w2 = with_loaded [("run1", DatasetCollection_new)] (self fresh_world)) /\
  fst (build_groups (Some [partial_group]) loaded_world) = Ok tt.
Proof.
  destruct load_and_build_groups_are_idempotent_and_keep_other_groups as (Hload & Hbuild & _).
  split.
  - apply (Hload notes_only (Some [run1]) fresh_world
             {| self := with_loaded [("run1", DatasetCollection_new)] (self fresh_world);
                logged := [] |}).
    + repeat split; constructor.
    + reflexivity.
  - apply (Hbuild (Some [partial_group]) loaded_world). repeat constructor.
Defined.


(* ------------------------------------------------------------------ *)
(** ** Parser construction and record shape *)

(** X1: a parser can be constructed exactly for the modes that read A, T
    or R once upper-cased; it then stores the file name and the upper-cased
    mode, and any other mode raises [ValueError]. *)
Theorem parser_init_accepts_three_modes (file m : string) :
  (upper m = "A" \/ upper m = "T" \/ upper m = "R" ->
   SpcFileParser_init file m = Ok {| filename := file; mode := upper m |}) /\
  (forall p, SpcFileParser_init file m = Ok p ->
             filename p = file /\ mode p = upper m /\
             (mode p = "A" \/ mode p = "T" \/ mode p = "R")) /\
  (upper m <> "A" -> upper m <> "T" -> upper m <> "R" ->
   exists msg, SpcFileParser_init file m = Raise (ValueError msg)).
Proof.
  assert (Hiff : existsb (String.eqb (upper m)) ["A"; "T"; "R"] = true <->
                 (upper m = "A" \/ upper m = "T" \/ upper m = "R")).
  { cbn [existsb]. rewrite !orb_true_iff, !String.eqb_eq. intuition discriminate. }
  unfold SpcFileParser_init.
  destruct (existsb (String.eqb (upper m)) ["A"; "T"; "R"]) eqn:E.
  - split; [reflexivity|]. split.
    + intros p [= <-]. cbn [filename mode]. split; [reflexivity|]. split; [reflexivity|].
      apply Hiff. reflexivity.
    + intros HA HT HR. exfalso. destruct (proj1 Hiff eq_refl) as [?|[?|?]]; congruence.
  - split; [|split].
    + intros H. apply Hiff in H. discriminate.
    + intros p Hp. discriminate Hp.
    + intros _ _ _. eexists. reflexivity.
Qed.

Lemma parser_init_accepts_three_modes_witness :
  SpcFileParser_init "scan.sp" "t" = Ok {| filename := "scan.sp"; mode := upper "t" |}.
Proof.
  apply (proj1 (parser_init_accepts_three_modes "scan.sp" "t")).
  right. left. reflexivity.
Defined.

Lemma bool_index_mismatch {A} (a : list A) (mask : list bool) :
  List.length a <> List.length mask ->
  bool_index a mask = Raise (IndexError "boolean index did not match indexed array").
Proof.
  revert mask. induction a as [|x a IH]; intros [|b mask] H; simpl in *;
    try reflexivity; [congruence|].
  rewrite IH by congruence. reflexivity.
Qed.

Lemma parse_length_mismatch (read : string -> result Spectrum) (self : SpcFileParser)
    (spectra : Spectrum) :
  read (filename self) = Ok spectra ->
  List.length (wavelength spectra) <> List.length (amplitudes spectra) ->
  parse (Some read) self = Raise (IndexError "boolean index did not match indexed array").
Proof.
  intros Hread Hlen. unfold parse. rewrite Hread. cbn [bind].
  pose proof (convert_amplitudes_length (mode self) (amplitudes spectra)) as [HA HT].
  destruct (convert_amplitudes (mode self) (amplitudes spectra)) as [A T].
  cbn [fst snd] in HA, HT.
  change (selector (wavelength spectra)) with (map in_band (wavelength spectra)).
  rewrite bool_index_self. cbn [bind].
  rewrite (fancy_index_map 0 _ _ (argsort_in_range _)). cbn [bind].
  rewrite (bool_index_mismatch A) by (rewrite length_map; congruence).
  reflexivity.
Qed.

Lemma parse_equal_lengths (read : string -> result Spectrum) (self : SpcFileParser)
    (rec : SpectralRecord) :
  parse (Some read) self = Ok rec ->
  List.length (absorbances rec) = List.length (wavelengths rec) /\
  List.length (transmittances rec) = List.length (wavelengths rec).
Proof.
  intros Hparse.
  destruct (read (filename self)) as [spectra|e] eqn:Hread.
  - destruct (Nat.eq_dec (List.length (wavelength spectra)) (List.length (amplitudes spectra)))
      as [Hlen|Hlen].
    + destruct (parse_sorted_samples read self spectra Hread Hlen) as (sorted & _ & _ & Hp).
      rewrite Hp in Hparse. injection Hparse as <-.
      cbn [wavelengths absorbances transmittances]. rewrite !length_map. auto.
    + rewrite (parse_length_mismatch read self spectra Hread Hlen) in Hparse. discriminate.
  - unfold parse in Hparse. rewrite Hread in Hparse. discriminate.
Qed.

(** X2: [parse] raises [RuntimeError] when specio is missing, whatever the
    file; it raises [IndexError] when the file's two arrays differ in
    length; and every record it returns has three arrays of one length. *)
Theorem parse_errors_and_equal_lengths :
  (forall self : SpcFileParser, exists msg, parse None self = Raise (RuntimeError msg)) /\
  (forall (read : string -> result Spectrum) (self : SpcFileParser) (spectra : Spectrum),
      read (filename self) = Ok spectra ->
      List.length (wavelength spectra) <> List.length (amplitudes spectra) ->
      exists msg, parse (Some read) self = Raise (IndexError msg)) /\
  (forall (read : string -> result Spectrum) (self : SpcFileParser) (rec : SpectralRecord),
      parse (Some read) self = Ok rec ->
      List.length (absorbances rec) = List.length (wavelengths rec) /\
      List.length (transmittances rec) = List.length (wavelengths rec)).
Proof.
  split; [|split].
  - intros self. eexists. reflexivity.
  - intros read self spectra Hread Hlen. eexists.
    apply (parse_length_mismatch read self spectra Hread Hlen).
  - exact parse_equal_lengths.
Qed.

Lemma parse_errors_and_equal_lengths_witness :
  exists msg,
    parse (Some (fun _ => Ok {| wavelength := [400; 401]; amplitudes := [1] |}))
          {| filename := "short.sp"; mode := "A" |} = Raise (IndexError msg).
Proof.
  apply (proj1 (proj2 parse_errors_and_equal_lengths)
           (fun _ => Ok {| wavelength := [400; 401]; amplitudes := [1] |})
           {| filename := "short.sp"; mode := "A" |}
           {| wavelength := [400; 401]; amplitudes := [1] |}).
  - reflexivity.
  - cbn. discriminate.
Defined.

(* ------------------------------------------------------------------ *)
(** ** Pairs of a record *)

Lemma ascii_lower_idem (c : ascii) : ascii_lower (ascii_lower c) = ascii_lower c.
Proof. destruct c as [[] [] [] [] [] [] [] []]; vm_compute; reflexivity. Qed.

Lemma ascii_lower_upper (c : ascii) : ascii_lower (ascii_upper c) = ascii_lower c.
Proof. destruct c as [[] [] [] [] [] [] [] []]; vm_compute; reflexivity. Qed.

Lemma lower_idem (s : string) : lower (lower s) = lower s.
Proof.
  induction s as [|c s IH]; simpl; [reflexivity|].
  rewrite ascii_lower_idem. f_equal. exact IH.
Qed.

Lemma lower_upper (s : string) : lower (upper s) = lower s.
Proof.
  induction s as [|c s IH]; simpl; [reflexivity|].
  rewrite ascii_lower_upper. f_equal. exact IH.
Qed.

(** X3: [as_pairs] reads the quantity name without regard to letter case
    and raises [KeyError] for any other name; on a record returned by
    [parse] it yields one pair per wavelength, whose first components are
    the wavelengths and whose second components are the chosen quantity. *)
Theorem as_pairs_case_insensitive_and_unzips :
  (forall (self : SpectralRecord) (quantity : string),
      as_pairs self (upper quantity) = as_pairs self quantity /\
      as_pairs self (lower quantity) = as_pairs self quantity) /\
  (forall (self : SpectralRecord) (quantity : string),
      lower quantity <> "absorbance" -> lower quantity <> "transmittance" ->
      as_pairs self quantity = Raise (KeyError (lower quantity))) /\
  (forall (read : string -> result Spectrum) (parser : SpcFileParser) (rec : SpectralRecord),
      parse (Some read) parser = Ok rec ->
      exists pa pt,
        as_pairs rec "absorbance" = Ok pa /\ as_pairs rec "transmittance" = Ok pt /\
        map fst pa = wavelengths rec /\ map snd pa = absorbances rec /\
        map fst pt = wavelengths rec /\ map snd pt = transmittances rec).
Proof.
  split; [|split].
  - intros self quantity. unfold as_pairs. rewrite lower_upper, lower_idem. split; reflexivity.
  - intros self quantity Ha Ht. unfold as_pairs.
    destruct (String.eqb_spec (lower quantity) "absorbance"); [congruence|].
    destruct (String.eqb_spec (lower quantity) "transmittance"); [congruence|].
    reflexivity.
  - intros read parser rec Hparse.
    destruct (parse_equal_lengths read parser rec Hparse) as [Ha Ht].
    exists (combine (wavelengths rec) (absorbances rec)),
           (combine (wavelengths rec) (transmittances rec)).
    split; [reflexivity|]. split; [reflexivity|].
    rewrite !map_fst_combine, !map_snd_combine by congruence. auto.
Qed.

Lemma as_pairs_case_insensitive_and_unzips_witness :
  exists pa pt,
    as_pairs {| wavelengths := [400]; absorbances := [1]; transmittances := [pow10 (- 1)] |}
      "absorbance" = Ok pa /\
    as_pairs {| wavelengths := [400]; absorbances := [1]; transmittances := [pow10 (- 1)] |}
      "transmittance" = Ok pt /\
    map fst pa = [400] /\ map snd pa = [1] /\
    map fst pt = [400] /\ map snd pt = [pow10 (- 1)].
Proof.
  apply (proj2 (proj2 as_pairs_case_insensitive_and_unzips)
           (fun _ => Ok {| wavelength := [400]; amplitudes := [1] |})
           {| filename := "sample.sp"; mode := "A" |}
           {| wavelengths := [400]; absorbances := [1]; transmittances := [pow10 (- 1)] |}).
  unfold parse. cbn [bind filename mode wavelength amplitudes].
  change (convert_amplitudes "A" [1]) with ([1], [pow10 (- 1)]).
  change [400] with (map IZR [400%Z]).
  rewrite selector_IZR. reflexivity.
Defined.

(* ------------------------------------------------------------------ *)
(** ** Collections *)

Lemma subset_fold_ok (self : DatasetCollection) (keys : list string) :
  (forall k, In k keys -> dict_get string_dec k (entries self) <> None) ->
  forall acc : DatasetCollection,
  exists s,
    foldM (fun (subset : DatasetCollection) key =>
             match dict_get string_dec key (entries self) with
             | Some e => Ok {| entries := dict_set string_dec key e (entries subset) |}
             | None => Raise (KeyError key)
             end) keys acc = Ok s /\
    (NoDup (dict_keys (entries acc)) -> NoDup (dict_keys (entries s))) /\
    forall k, dict_get string_dec k (entries s) =
              if in_dec string_dec k keys
              then dict_get string_dec k (entries self)
              else dict_get string_dec k (entries acc).
Proof.
  induction keys as [|key keys IH]; intros Hall acc.
  - exists acc. simpl. auto.
  - cbn [foldM].
    destruct (dict_get string_dec key (entries self)) as [e|] eqn:Ek;
      [|exfalso; apply (Hall key); [left; reflexivity | exact Ek]].
    cbn [bind].
    destruct (IH (fun k Hk => Hall k (or_intror Hk))
                 {| entries := dict_set string_dec key e (entries acc) |})
      as (s & Hs & Hnd & Hget).
    exists s. split; [exact Hs|]. split.
    + intros H. apply Hnd. cbn [entries]. apply dict_set_NoDup, H.
    + intros k. rewrite Hget. cbn [entries]. simpl (in_dec string_dec k (key :: keys)).
      destruct (string_dec key k) as [->|Hne].
      * rewrite Ek, dict_get_set_same. destruct (in_dec string_dec k keys); reflexivity.
      * rewrite dict_get_set_other by congruence.
        destruct (in_dec string_dec k keys); reflexivity.
Qed.

Lemma subset_fold_missing (self : DatasetCollection) (pre post : list string) (key : string) :
  (forall k, In k pre -> dict_get string_dec k (entries self) <> None) ->
  dict_get string_dec key (entries self) = None ->
  forall acc : DatasetCollection,
    foldM (fun (subset : DatasetCollection) key =>
             match dict_get string_dec key (entries self) with
             | Some e => Ok {| entries := dict_set string_dec key e (entries subset) |}
             | None => Raise (KeyError key)
             end) (pre ++ key :: post) acc = Raise (KeyError key).
Proof.
  intros Hpre Hkey. induction pre as [|k pre IH]; intros acc; simpl.
  - rewrite Hkey. reflexivity.
  - destruct (dict_get string_dec k (entries self)) as [e|] eqn:Ek;
      [|exfalso; apply (Hpre k); [left; reflexivity | exact Ek]].
    simpl. apply IH. intros k' Hk'. apply Hpre. right. exact Hk'.
Qed.

(** X4: [subset] returns the collection of exactly the requested keys,
    each with the entry it has in the source, when every key is present;
    it raises [KeyError] naming the first requested key that is absent. *)
Theorem subset_exact_or_key_error :
  (forall (self : DatasetCollection) (keys : list string),
      (forall k, In k keys -> collection_contains self k = true) ->
      exists s,
        subset self keys = Ok s /\
        NoDup (dict_keys (entries s)) /\
        forall k, dict_get string_dec k (entries s) =
                  if in_dec string_dec k keys
                  then dict_get string_dec k (entries self)
                  else None) /\
  (forall (self : DatasetCollection) (pre post : list string) (key : string),
      (forall k, In k pre -> collection_contains self k = true) ->
      collection_contains self key = false ->
      subset self (pre ++ key :: post) = Raise (KeyError key)).
Proof.
  assert (Hc : forall (self : DatasetCollection) k,
             collection_contains self k = true <-> dict_get string_dec k (entries self) <> None).
  { intros self k. unfold collection_contains, dict_mem.
    destruct (dict_get string_dec k (entries self)); split; congruence. }
  split.
  - intros self keys Hall.
    destruct (subset_fold_ok self keys (fun k Hk => proj1 (Hc self k) (Hall k Hk))
                DatasetCollection_new) as (s & Hs & Hnd & Hget).
    exists s. split; [exact Hs|]. split; [apply Hnd; constructor|].
    intros k. rewrite Hget. reflexivity.
  - intros self pre post key Hpre Hkey. unfold subset.
    apply subset_fold_missing.
    + intros k Hk. apply Hc, Hpre, Hk.
    + unfold collection_contains, dict_mem in Hkey.
      destruct (dict_get string_dec key (entries self)); [discriminate | reflexivity].
Qed.

Lemma subset_exact_or_key_error_witness :
  subset {| entries := [("present", sample_entry)] |} (["present"] ++ "absent" :: ["present"]) =
    Raise (KeyError "absent").
Proof.
  apply (proj2 subset_exact_or_key_error {| entries := [("present", sample_entry)] |}
           ["present"] ["present"] "absent").
  - intros k [<-|[]]. reflexivity.
  - reflexivity.
Defined.

Lemma dict_keys_update_prefix {K V} (eq_dec : forall x y : K, {x = y} + {x <> y})
    (other d : dict K V) :
  exists tail, dict_keys (dict_update eq_dec d other) = dict_keys d ++ tail.
Proof.
  unfold dict_update. revert d.
  induction other as [|[k v] o IH]; intros d; cbn [fold_left fst snd].
  - exists []. rewrite app_nil_r. reflexivity.
  - destruct (IH (dict_set eq_dec k v d)) as [tail Htail]. rewrite Htail.
    rewrite dict_keys_set. destruct (dict_mem eq_dec k d).
    + exists tail. reflexivity.
    + exists (k :: tail). rewrite <- app_assoc. reflexivity.
Qed.

(** X5: after [extend], a key of the other collection has the other
    collection's entry and any other key keeps its own; the keys present
    before keep their places at the front, new keys follow; keys stay
    distinct; extending twice by the same collection changes nothing more. *)
Theorem extend_overwrites_and_appends :
  forall self other : DatasetCollection,
    NoDup (dict_keys (entries other)) ->
    (forall k, dict_get string_dec k (entries (extend self other)) =
               match dict_get string_dec k (entries other) with
               | Some e => Some e
               | None => dict_get string_dec k (entries self)
               end) /\
    (exists tail, dict_keys (entries (extend self other)) =
                  dict_keys (entries self) ++ tail) /\
    (forall k, In k (dict_keys (entries (extend self other))) <->
               In k (dict_keys (entries self)) \/ In k (dict_keys (entries other))) /\
    (NoDup (dict_keys (entries self)) ->
     NoDup (dict_keys (entries (extend self other))) /\
     extend (extend self other) other = extend self other).
Proof.
  intros self other Hnd. unfold extend. cbn [entries].
  split; [|split; [|split]].
  - intros k. rewrite dict_get_update, last_binding_NoDup by exact Hnd. reflexivity.
  - apply dict_keys_update_prefix.
  - intros k. symmetry. apply dict_keys_update_incl.
  - intros Hself. split; [apply dict_update_NoDup, Hself|].
    rewrite dict_update_idem by exact Hself. reflexivity.
Qed.

Lemma extend_overwrites_and_appends_witness :
  exists tail,
    dict_keys (entries (extend {| entries := [("a", sample_entry)] |}
                               {| entries := [("b", sample_entry); ("a", dim_replicate)] |})) =
    dict_keys (entries {| entries := [("a", sample_entry)] |}) ++ tail.
Proof.
  apply (extend_overwrites_and_appends
           {| entries := [("a", sample_entry)] |}
           {| entries := [("b", sample_entry); ("a", dim_replicate)] |}).
  repeat constructor; simpl; intuition discriminate.
Defined.

(** X6: after [add], the name is present with the record, measurement and
    metadata given, every other name is as before, and the number of
    entries grows by one for a new name and not at all for a known one. *)
Theorem add_then_lookup :
  forall (self : DatasetCollection) (name : string) (rec : SpectralRecord)
         (kind : string) (meta : dict string string),
    let after := add self name rec kind meta in
    collection_contains after name = true /\
    dict_get string_dec name (entries after) =
      Some {| record := rec; measurement := kind; metadata := meta |} /\
    (forall k, k <> name ->
               dict_get string_dec k (entries after) = dict_get string_dec k (entries self)) /\
    List.length (entries after) =
      (if collection_contains self name
       then List.length (entries self)
       else S (List.length (entries self))) /\
    (NoDup (dict_keys (entries self)) -> NoDup (dict_keys (entries after))).
Proof.
  intros self name rec kind meta after. unfold after, add, collection_contains. cbn [entries].
  split; [|split; [|split; [|split]]].
  - unfold dict_mem. rewrite dict_get_set_same. reflexivity.
  - apply dict_get_set_same.
  - intros k Hk. apply dict_get_set_other, Hk.
  - rewrite <- !(length_map fst). change (map fst ?d) with (dict_keys d).
    rewrite dict_keys_set. destruct (dict_mem string_dec name (entries self)); [reflexivity|].
    rewrite length_app. simpl. lia.
  - apply dict_set_NoDup.
Qed.

Lemma merge_fold_contains (collections : dict string DatasetCollection) :
  forall (acc : DatasetCollection) (k : string),
    In k (dict_keys (entries (fold_left (fun merged kv => extend merged (snd kv))
                                collections acc))) <->
    In k (dict_keys (entries acc)) \/
    exists c, In c (map snd collections) /\ In k (dict_keys (entries c)).
Proof.
  induction collections as [|[n c] cs IH]; intros acc k; cbn [fold_left map snd].
  - split; [auto | intros [H|(c & [] & _)]; exact H].
  - rewrite IH. unfold extend. cbn [entries].
    rewrite <- dict_keys_update_incl. split.
    + intros [[H|H]|(c' & Hc' & Hk)]; auto.
      * right. exists c. split; [left; reflexivity | exact H].
      * right. exists c'. split; [right; exact Hc' | exact Hk].
    + intros [H|(c' & [<-|Hc'] & Hk)]; auto.
      right. exists c'. auto.
Qed.

(** X7: a key is in the collection returned by [merge_collections]
    exactly when it is in one of the merged collections, and merging no
    collection gives the empty collection. *)
Theorem merge_collections_is_union :
  (forall (collections : dict string DatasetCollection) (k : string),
      collection_contains (merge_collections collections) k = true <->
      exists c, In c (map snd collections) /\ collection_contains c k = true) /\
  merge_collections [] = DatasetCollection_new.
Proof.
  split; [|reflexivity].
  intros collections k. unfold collection_contains, merge_collections.
  rewrite dict_mem_in_keys, merge_fold_contains. cbn [entries DatasetCollection_new dict_keys map].
  split.
  - intros [[]|(c & Hc & Hk)]. exists c. split; [exact Hc|].
    apply (proj2 (dict_mem_in_keys string_dec k (entries c))), Hk.
  - intros (c & Hc & Hk). right. exists c. split; [exact Hc|].
    apply (proj1 (dict_mem_in_keys string_dec k (entries c))), Hk.
Qed.

(* ------------------------------------------------------------------ *)
(** ** Replicate roots *)

Lemma prefix_split (p s : string) :
  prefix p s = true -> exists rest, s = (p ++ rest)%string.
Proof.
  revert s. induction p as [|a p IH]; intros s H.
  - exists s. reflexivity.
  - destruct s as [|b s]; simpl in H; [discriminate H|].
    destruct (ascii_dec a b) as [->|]; [|discriminate H].
    destruct (IH s H) as [rest ->]. exists rest. reflexivity.
Qed.

Lemma prefix_append (p h t : string) :
  prefix p h = true -> prefix p (h ++ t)%string = true.
Proof.
  revert h. induction p as [|a p IH]; intros h H.
  - destruct (h ++ t)%string; reflexivity.
  - destruct h as [|b h]; simpl in H; [discriminate H|]. simpl.
    destruct (ascii_dec a b); [apply IH, H | discriminate H].
Qed.

Lemma prefix_nil_r (p : string) : p <> "" -> prefix p "" = false.
Proof. destruct p; [congruence | reflexivity]. Qed.

Lemma prefix_self_append (p t : string) : prefix p (p ++ t)%string = true.
Proof.
  induction p as [|a p IH]; simpl.
  - destruct t; reflexivity.
  - destruct (ascii_dec a a); [exact IH | congruence].
Qed.

Lemma split_head_is_prefix (sep s : string) :
  exists t, s = (split_head sep s ++ t)%string.
Proof.
  induction s as [|c s IH].
  - exists "". destruct sep; reflexivity.
  - cbn [split_head]. destruct (prefix sep (String c s)).
    + exists (String c s). reflexivity.
    + destruct IH as [t Ht]. exists t. simpl. rewrite <- Ht. reflexivity.
Qed.

Lemma split_head_decomposes (sep s : string) :
  contains sep s = true ->
  exists rest, s = (split_head sep s ++ sep ++ rest)%string.
Proof.
  induction s as [|c s IH].
  - destruct sep; [|discriminate]. intros _. exists "". reflexivity.
  - cbn [contains split_head]. destruct (prefix sep (String c s)) eqn:E.
    + intros _. apply prefix_split in E. destruct E as [rest E]. exists rest. exact E.
    + intros H. destruct (IH H) as [rest Hrest]. exists rest. simpl.
      rewrite <- Hrest. reflexivity.
Qed.

Lemma split_head_free (sep s : string) :
  sep <> "" -> contains sep (split_head sep s) = false.
Proof.
  intros Hsep. pose proof (prefix_nil_r sep Hsep) as Hempty.
  assert (Hnil : contains sep "" = false).
  { cbn [contains]. rewrite Hempty. reflexivity. }
  induction s as [|c s IH].
  - cbn [split_head]. rewrite Hempty. exact Hnil.
  - cbn [split_head]. destruct (prefix sep (String c s)) eqn:E; [exact Hnil|].
    cbn [contains]. rewrite IH.
    destruct (prefix sep (String c (split_head sep s))) eqn:E'; [|reflexivity].
    destruct (split_head_is_prefix sep s) as [t Ht].
    apply (prefix_append _ _ t) in E'.
    change (String c (split_head sep s) ++ t)%string
      with (String c (split_head sep s ++ t)%string) in E'.
    rewrite <- Ht in E'. congruence.
Qed.

(** X8: the grouping key of [averaged] splits at the first occurrence of
    the separator: a key that contains the (non-empty) separator is its
    root, then the separator, then a rest, and the root itself is free of
    the separator; a key without the separator, or any key under the empty
    separator, is its own root. *)
Theorem key_root_splits_at_first_separator :
  forall suffix key : string,
    (suffix <> "" -> contains suffix key = true ->
     (exists rest, key = (key_root suffix key ++ suffix ++ rest)%string) /\
     contains suffix (key_root suffix key) = false) /\
    (suffix = "" \/ contains suffix key = false -> key_root suffix key = key) /\
    (suffix <> "" -> key_root suffix (key_root suffix key) = key_root suffix key).
Proof.
  intros suffix key.
  assert (Hfree : suffix <> "" -> contains suffix (key_root suffix key) = false).
  { intros Hs. unfold key_root.
    destruct (negb (String.eqb suffix "") && contains suffix key) eqn:E.
    - apply split_head_free, Hs.
    - apply andb_false_iff in E. destruct E as [E|E]; [|exact E].
      apply negb_false_iff, String.eqb_eq in E. congruence. }
  split; [|split].
  - intros Hs Hc. split; [|apply Hfree, Hs].
    unfold key_root. rewrite Hc.
    replace (String.eqb suffix "") with false by (symmetry; apply String.eqb_neq, Hs).
    cbn [negb andb]. apply split_head_decomposes, Hc.
  - intros [->|Hc]; unfold key_root; [reflexivity|]. rewrite Hc, andb_false_r. reflexivity.
  - intros Hs. unfold key_root at 1. rewrite (Hfree Hs), andb_false_r. reflexivity.
Qed.

Lemma key_root_splits_at_first_separator_witness :
  (exists rest, "a#1#2" = (key_root "#" "a#1#2" ++ "#" ++ rest)%string) /\
  contains "#" (key_root "#" "a#1#2") = false.
Proof.
  apply (proj1 (key_root_splits_at_first_separator "#" "a#1#2")).
  - discriminate.
  - reflexivity.
Defined.

Lemma key_root_idem (suffix key : string) :
  key_root suffix (key_root suffix key) = key_root suffix key.
Proof.
  destruct (String.eqb_spec suffix "") as [->|Hs]; [reflexivity|].
  unfold key_root at 1.
  replace (contains suffix (key_root suffix key)) with false;
    [rewrite andb_false_r; reflexivity|].
  symmetry. unfold key_root.
  destruct (negb (String.eqb suffix "") && contains suffix key) eqn:E.
  - apply split_head_free, Hs.
  - apply andb_false_iff in E. destruct E as [E|E]; [|exact E].
    apply negb_false_iff, String.eqb_eq in E. congruence.
Qed.

Lemma dict_set_new {K V} (eq_dec : forall x y : K, {x = y} + {x <> y})
    (k : K) (v : V) (d : dict K V) :
  ~ In k (dict_keys d) -> dict_set eq_dec k v d = d ++ [(k, v)].
Proof.
  induction d as [|[k0 v0] d IH]; simpl; intros H; [reflexivity|].
  destruct (eq_dec k k0) as [->|Hne]; [exfalso; auto|].
  rewrite IH by auto. reflexivity.
Qed.

Lemma dict_get_not_in {K V} (eq_dec : forall x y : K, {x = y} + {x <> y})
    (k : K) (d : dict K V) :
  ~ In k (dict_keys d) -> dict_get eq_dec k d = None.
Proof.
  intros H. destruct (dict_get eq_dec k d) eqn:E; [|reflexivity].
  exfalso. apply H, dict_get_in_keys with (eq_dec := eq_dec). congruence.
Qed.

Lemma group_by_root_singletons (suffix : string) (items : dict string DatasetEntry) :
  NoDup (dict_keys items) ->
  (forall k, In k (dict_keys items) -> key_root suffix k = k) ->
  forall grouped : dict string (list DatasetEntry),
    (forall k, In k (dict_keys items) -> ~ In k (dict_keys grouped)) ->
    fold_left (fun g kv => grouped_append g (key_root suffix (fst kv)) (snd kv)) items grouped =
      grouped ++ map (fun kv => (fst kv, [snd kv])) items.
Proof.
  induction items as [|[k e] items IH]; intros Hnd Hroot grouped Hdis; simpl.
  - rewrite app_nil_r. reflexivity.
  - inversion Hnd as [|? ? Hnin Hnd']; subst.
    rewrite (Hroot k) by (left; reflexivity).
    assert (Hk : ~ In k (dict_keys grouped)) by (apply Hdis; left; reflexivity).
    unfold grouped_append. rewrite (dict_get_not_in string_dec k grouped Hk).
    rewrite (dict_set_new string_dec k [e] grouped Hk).
    rewrite IH.
    + rewrite <- app_assoc. reflexivity.
    + exact Hnd'.
    + intros k' Hk'. apply Hroot. right. exact Hk'.
    + intros k' Hk' Hin. unfold dict_keys in Hin. rewrite map_app in Hin.
      apply in_app_or in Hin. destruct Hin as [Hin|[<-|[]]].
      * apply (Hdis k'); [right; exact Hk' | exact Hin].
      * apply Hnin, Hk'.
Qed.

Lemma average_groups_singletons (items : dict string DatasetEntry) :
  NoDup (dict_keys items) ->
  forall acc : DatasetCollection,
    (forall k, In k (dict_keys items) -> ~ In k (dict_keys (entries acc))) ->
    average_groups (map (fun kv => (fst kv, [snd kv])) items) acc =
      Ok {| entries := entries acc ++ items |}.
Proof.
  unfold average_groups.
  induction items as [|[k e] items IH]; intros Hnd acc Hdis; simpl.
  - rewrite app_nil_r. destruct acc. reflexivity.
  - inversion Hnd as [|? ? Hnin Hnd']; subst.
    rewrite (dict_set_new string_dec k e (entries acc)) by (apply Hdis; left; reflexivity).
    rewrite IH.
    + cbn [entries]. rewrite <- app_assoc. reflexivity.
    + exact Hnd'.
    + intros k' Hk' Hin. cbn [entries] in Hin. unfold dict_keys in Hin.
      rewrite map_app in Hin. apply in_app_or in Hin. destruct Hin as [Hin|[<-|[]]].
      * apply (Hdis k'); [right; exact Hk' | exact Hin].
      * apply Hnin, Hk'.
Qed.

Lemma averaged_without_replicates (self : DatasetCollection) (suffix : string) :
  NoDup (dict_keys (entries self)) ->
  (forall k, In k (dict_keys (entries self)) -> key_root suffix k = k) ->
  averaged self suffix = Ok self.
Proof.
  intros Hnd Hroot. rewrite averaged_unfold. unfold group_by_root.
  rewrite (group_by_root_singletons suffix (entries self) Hnd Hroot [])
    by (intros k _ []).
  rewrite app_nil_l. rewrite average_groups_singletons; [destruct self; reflexivity | exact Hnd |].
  intros k _ [].
Qed.

Lemma average_groups_NoDup (grouped : dict string (list DatasetEntry)) :
  forall acc c' : DatasetCollection,
    average_groups grouped acc = Ok c' ->
    (NoDup (dict_keys (entries acc)) -> NoDup (dict_keys (entries c'))) /\
    (List.length (entries c') <= List.length (entries acc) + List.length grouped)%nat.
Proof.
  unfold average_groups.
  induction grouped as [|[k ents] grouped IH]; intros acc c' H; simpl in H.
  - injection H as <-. split; [auto | lia].
  - destruct (average_entries ents) as [e|]; [|discriminate]. cbn [bind fst snd] in H.
    destruct (IH _ _ H) as [Hnd Hlen]. cbn [entries] in *. split.
    + intros Hacc. apply Hnd, dict_set_NoDup, Hacc.
    + assert (Hset : (List.length (dict_set string_dec k e (entries acc))
                      <= S (List.length (entries acc)))%nat).
      { rewrite <- !(length_map fst). change (map fst ?d) with (dict_keys d).
        rewrite dict_keys_set. destruct (dict_mem string_dec k (entries acc)).
        - lia.
        - rewrite length_app. simpl. lia. }
      simpl. lia.
Qed.

Lemma group_by_root_length (suffix : string) (items : dict string DatasetEntry) :
  (List.length (group_by_root suffix items) <= List.length items)%nat.
Proof.
  unfold group_by_root.
  assert (H : forall g : dict string (list DatasetEntry),
             (List.length (fold_left (fun g kv => grouped_append g (key_root suffix (fst kv))
                                                    (snd kv)) items g)
              <= List.length g + List.length items)%nat).
  { induction items as [|[k e] items IH]; intros g; simpl; [lia|].
    specialize (IH (grouped_append g (key_root suffix k) e)).
    assert (Hset : (List.length (grouped_append g (key_root suffix k) e)
                    <= S (List.length g))%nat).
    { unfold grouped_append. rewrite <- !(length_map fst). change (map fst ?d) with (dict_keys d).
      rewrite dict_keys_set. destruct (dict_mem string_dec (key_root suffix k) g).
      - lia.
      - rewrite length_app. simpl. lia. }
    lia. }
  apply (H []).
Qed.

(** X9: [averaged] returns a collection unchanged when its keys are
    distinct and none carries the separator; whatever it returns has
    distinct keys, each the root of a key of the input, has no more
    entries than the input, and averaging it again returns it unchanged. *)
Theorem averaged_is_idempotent_and_keeps_plain_collections :
  (forall (self : DatasetCollection) (suffix : string),
      NoDup (dict_keys (entries self)) ->
      (forall k, In k (dict_keys (entries self)) -> contains suffix k = false) ->
      averaged self suffix = Ok self) /\
  (forall (self c' : DatasetCollection) (suffix : string),
      averaged self suffix = Ok c' ->
      NoDup (dict_keys (entries c')) /\
      (forall k, In k (dict_keys (entries c')) ->
                 exists k0, In k0 (dict_keys (entries self)) /\ k = key_root suffix k0) /\
      (List.length (entries c') <= List.length (entries self))%nat /\
      averaged c' suffix = Ok c').
Proof.
  split.
  - intros self suffix Hnd Hfree. apply averaged_without_replicates; [exact Hnd|].
    intros k Hk. unfold key_root. rewrite (Hfree k Hk), andb_false_r. reflexivity.
  - intros self c' suffix H.
    assert (Hnd : NoDup (dict_keys (entries c'))).
    { rewrite averaged_unfold in H. apply (average_groups_NoDup _ _ _ H). constructor. }
    assert (Hroots : forall k, In k (dict_keys (entries c')) ->
                 exists k0, In k0 (dict_keys (entries self)) /\ k = key_root suffix k0).
    { intros k Hk. apply dict_get_in_keys with (eq_dec := string_dec) in Hk.
      pose proof (averaged_get self c' suffix k H) as Hg.
      destruct (replicates_of suffix k (entries self)) as [|e more] eqn:E; [congruence|].
      assert (Hin : In e (replicates_of suffix k (entries self))) by (rewrite E; left; reflexivity).
      unfold replicates_of in Hin. apply in_map_iff in Hin.
      destruct Hin as ([k0 e0] & _ & Hf). apply filter_In in Hf. destruct Hf as [Hf Heq].
      apply String.eqb_eq in Heq. cbn [fst] in Heq.
      exists k0. split; [|congruence].
      apply in_map_iff. exists (k0, e0). split; [reflexivity | exact Hf]. }
    split; [exact Hnd|]. split; [exact Hroots|]. split.
    + rewrite averaged_unfold in H.
      destruct (average_groups_NoDup _ _ _ H) as [_ Hlen].
      pose proof (group_by_root_length suffix (entries self)). simpl in Hlen. lia.
    + apply averaged_without_replicates; [exact Hnd|].
      intros k Hk. destruct (Hroots k Hk) as (k0 & _ & ->). apply key_root_idem.
Qed.

Lemma averaged_is_idempotent_and_keeps_plain_collections_witness :
  averaged {| entries := [("plain", sample_entry); ("other", dim_replicate)] |} "#" =
    Ok {| entries := [("plain", sample_entry); ("other", dim_replicate)] |}.
Proof.
  apply (proj1 averaged_is_idempotent_and_keeps_plain_collections
           {| entries := [("plain", sample_entry); ("other", dim_replicate)] |} "#").
  - repeat constructor; simpl; intuition discriminate.
  - intros k [<-|[<-|[]]]; reflexivity.
Defined.

(* ------------------------------------------------------------------ *)
(** ** Loading directories *)

Lemma from_directory_fold (env : Env) (kind mode extension : string)
    (items : list DirItem) :
  forall acc c : DatasetCollection,
    foldM (fun (collection : DatasetCollection) item =>
             if negb (String.eqb (lower (item_suffix item)) (lower extension))
             then Ok collection
             else
               (parser <- SpcFileParser_init (item_path item) mode ;;
                record <- parse (specread env) parser ;;
                Ok (add collection (stem item) record kind []))%py)
      items acc = Ok c ->
    (NoDup (dict_keys (entries acc)) -> NoDup (dict_keys (entries c))) /\
    (forall k, In k (dict_keys (entries c)) ->
               In k (dict_keys (entries acc)) \/
               exists item, In item items /\ has_extension extension item = true /\
                            stem item = k) /\
    (forall k e, dict_get string_dec k (entries c) = Some e ->
                 dict_get string_dec k (entries acc) = Some e \/
                 (measurement e = kind /\ metadata e = [])).
Proof.
  induction items as [|item items IH]; intros acc c H; simpl in H.
  - injection H as <-. auto.
  - fold (has_extension extension item) in H.
    destruct (has_extension extension item) eqn:Ext; cbn [negb] in H.
    + destruct (SpcFileParser_init (item_path item) mode) as [parser|]; [|discriminate].
      cbn [bind] in H.
      destruct (parse (specread env) parser) as [rec|]; [|discriminate].
      cbn [bind] in H.
      destruct (IH _ _ H) as (Hnd & Hkeys & Hent). split; [|split].
      * intros Hacc. apply Hnd. unfold add. cbn [entries]. apply dict_set_NoDup, Hacc.
      * intros k Hk. destruct (Hkeys k Hk) as [Hin|(it & Hit & Hext & Hst)].
        -- unfold add in Hin. cbn [entries] in Hin. rewrite dict_keys_set in Hin.
           destruct (dict_mem string_dec (stem item) (entries acc)); [left; exact Hin|].
           apply in_app_or in Hin. destruct Hin as [Hin|[<-|[]]]; [left; exact Hin|].
           right. exists item. split; [left; reflexivity | auto].
        -- right. exists it. split; [right; exact Hit | auto].
      * intros k e Hget. destruct (Hent k e Hget) as [Hin|Hnew]; [|right; exact Hnew].
        unfold add in Hin. cbn [entries] in Hin. rewrite dict_get_set in Hin.
        destruct (string_dec k (stem item)); [|left; exact Hin].
        injection Hin as <-. right. split; reflexivity.
    + destruct (IH _ _ H) as (Hnd & Hkeys & Hent). split; [exact Hnd|]. split; [|exact Hent].
      intros k Hk. destruct (Hkeys k Hk) as [Hin|(it & Hit & Hext & Hst)]; [left; exact Hin|].
      right. exists it. split; [right; exact Hit | auto].
Qed.

Lemma from_directory_fold_skips (env : Env) (kind mode extension : string)
    (items : list DirItem) (acc : DatasetCollection) :
  (forall item, In item items -> has_extension extension item = false) ->
  foldM (fun (collection : DatasetCollection) item =>
           if negb (String.eqb (lower (item_suffix item)) (lower extension))
           then Ok collection
           else
             (parser <- SpcFileParser_init (item_path item) mode ;;
              record <- parse (specread env) parser ;;
              Ok (add collection (stem item) record kind []))%py)
    items acc = Ok acc.
Proof.
  induction items as [|item items IH]; intros H; simpl; [reflexivity|].
  fold (has_extension extension item). rewrite (H item) by (left; reflexivity).
  cbn [negb bind]. apply IH. intros it Hit. apply H. right. exact Hit.
Qed.

(** X10: [from_directory] raises [FileNotFoundError] for a path that does
    not exist; a directory without a file of the extension (compared
    without regard to letter case) gives the empty collection whatever the
    mode and whether or not specio is installed; and a collection it returns
    has distinct keys, each the stem of a file of the extension, every
    entry carrying the measurement kind given and empty metadata. *)
Theorem from_directory_loads_matching_files :
  (forall (env : Env) (path kind mode extension : string),
      listing env path = None ->
      from_directory env path kind mode extension = Raise (FileNotFoundError path)) /\
  (forall (env : Env) (path kind mode extension : string) (items : list DirItem),
      listing env path = Some items ->
      (forall item, In item items -> has_extension extension item = false) ->
      from_directory env path kind mode extension = Ok DatasetCollection_new) /\
  (forall (env : Env) (path kind mode extension : string) (items : list DirItem)
          (c : DatasetCollection),
      listing env path = Some items ->
      from_directory env path kind mode extension = Ok c ->
      NoDup (dict_keys (entries c)) /\
      (forall k, In k (dict_keys (entries c)) ->
                 exists item, In item items /\ has_extension extension item = true /\
                              stem item = k) /\
      (forall k e, dict_get string_dec k (entries c) = Some e ->
                   measurement e = kind /\ metadata e = [])).
Proof.
  split; [|split].
  - intros env path kind mode extension H. unfold from_directory. rewrite H. reflexivity.
  - intros env path kind mode extension items H Hnone. unfold from_directory. rewrite H.
    apply from_directory_fold_skips, Hnone.
  - intros env path kind mode extension items c H Hc. unfold from_directory in Hc.
    rewrite H in Hc.
    destruct (from_directory_fold env kind mode extension items _ _ Hc) as (Hnd & Hkeys & Hent).
    split; [apply Hnd; constructor|]. split.
    + intros k Hk. destruct (Hkeys k Hk) as [[]|Hex]. exact Hex.
    + intros k e Hget. destruct (Hent k e Hget) as [Hin|Hnew]; [discriminate Hin | exact Hnew].
Qed.

Lemma from_directory_loads_matching_files_witness :
  from_directory notes_only "run1" "transmittance" "Z" ".SP" = Ok DatasetCollection_new.
Proof.
  apply (proj1 (proj2 from_directory_loads_matching_files)
           notes_only "run1" "transmittance" "Z" ".SP"
           [{| stem := "notes"; item_suffix := ".txt"; item_path := "run1/notes.txt" |}]).
  - reflexivity.
  - intros item [<-|[]]. reflexivity.
Defined.

Lemma keeps_loaded_refl (w : World) : keeps_loaded w w.
Proof. unfold keeps_loaded. auto. Qed.

Lemma keeps_loaded_trans (w1 w2 w3 : World) :
  keeps_loaded w1 w2 -> keeps_loaded w2 w3 -> keeps_loaded w1 w3.
Proof.
  unfold keeps_loaded. intros (A1 & A2 & A3 & A4 & A5) (B1 & B2 & B3 & B4 & B5).
  repeat split; try congruence; auto.
Qed.

Lemma with_loaded_keeps (cs : list (string * DatasetCollection)) (w : World)
    (lg : list LogRecord) :
  keeps_loaded w {| self := with_loaded cs (self w); logged := lg |}.
Proof.
  unfold keeps_loaded, with_loaded.
  cbn [self config groups results raw_collections all_data entries].
  repeat split; intros k Hk; apply dict_keys_update_incl; left; exact Hk.
Qed.

Lemma load_loop_keeps (env : Env) (dirs : list DirectoryConfig.t) :
  forall w, keeps_loaded w (snd (for_each dirs (load_directory env) w)).
Proof.
  induction dirs as [|d dirs IH]; intros w; simpl.
  - apply keeps_loaded_refl.
  - unfold bindM. pose proof (load_directory_spec env d w) as Hd.
    destruct (collect_directory env d) as [c|e].
    + destruct Hd as [lg Hd]. rewrite Hd.
      eapply keeps_loaded_trans; [apply (with_loaded_keeps c w lg) | apply IH].
    + rewrite Hd. apply keeps_loaded_refl.
Qed.

Lemma build_averaged_keeps (w : World) :
  keeps_loaded w (snd (_build_averaged_dataset w)).
Proof.
  rewrite build_averaged_spec.
  destruct (entries (all_data (self w))); [apply keeps_loaded_refl|].
  destruct (averaged (all_data (self w)) "#"); [|apply keeps_loaded_refl].
  unfold keeps_loaded. cbn [snd self set_averaged_data config groups results
                            raw_collections all_data]. auto.
Qed.

Lemma load_loop_missing (env : Env) (dirs : list DirectoryConfig.t) :
  (forall d, In d dirs -> listing env (DirectoryConfig.path d) = None) ->
  forall w,
    for_each dirs (load_directory env) w =
      (Ok tt, {| self := self w;
                 logged := logged w ++ map missing_directory_warning dirs |}).
Proof.
  induction dirs as [|d dirs IH]; intros Hall w; simpl.
  - unfold ret. rewrite app_nil_r. destruct w; reflexivity.
  - unfold bindM, load_directory at 1. rewrite (Hall d) by (left; reflexivity).
    unfold log_record. rewrite IH by (intros d' Hd'; apply Hall; right; exact Hd').
    cbn [self logged]. rewrite <- app_assoc. reflexivity.
Qed.

Lemma load_directory_missing (env : Env) (d : DirectoryConfig.t) (w : World) :
  directory_exists env d = false ->
  load_directory env d w =
    (Ok tt, {| self := self w; logged := logged w ++ [missing_directory_warning d] |}).
Proof.
  unfold directory_exists, load_directory.
  destruct (listing env (DirectoryConfig.path d)); [discriminate|].
  intros _. reflexivity.
Qed.

Lemma load_directory_present (env : Env) (d : DirectoryConfig.t) (w : World) :
  directory_exists env d = true ->
  load_directory env d w =
    match from_directory env (DirectoryConfig.path d) (DirectoryConfig.measurement d)
            (DirectoryConfig.mode d) (DirectoryConfig.extension d) with
    | Ok collection =>
        (Ok tt,
         {| self := set_all_data (extend (all_data (self w)) collection)
                      (set_raw_collection (DirectoryConfig.name d) collection (self w));
            logged := logged w |})
    | Raise e => (Raise e, w)
    end.
Proof.
  unfold directory_exists, load_directory.
  destruct (listing env (DirectoryConfig.path d)); [|discriminate].
  intros _. unfold bindM, lift, modify_self.
  destruct (from_directory env _ _ _ _); reflexivity.
Qed.

(** The loop over all directories and the loop over the existing ones end
    alike, whatever was loaded before. *)
Lemma load_loop_skips_missing (env : Env) (dirs : list DirectoryConfig.t) :
  forall w1 w2 : World,
    self w1 = self w2 ->
    fst (for_each dirs (load_directory env) w1) =
      fst (for_each (filter (directory_exists env) dirs) (load_directory env) w2) /\
    self (snd (for_each dirs (load_directory env) w1)) =
      self (snd (for_each (filter (directory_exists env) dirs) (load_directory env) w2)).
Proof.
  induction dirs as [|d dirs IH]; intros w1 w2 Hself; cbn [for_each filter].
  - unfold ret. cbn. auto.
  - destruct (directory_exists env d) eqn:E.
    + cbn [for_each]. unfold bindM.
      rewrite !(load_directory_present env d _ E), Hself.
      destruct (from_directory env _ _ _ _) as [c|e].
      * apply IH. reflexivity.
      * cbn. auto.
    + unfold bindM. rewrite (load_directory_missing env d w1 E). apply IH. exact Hself.
Qed.

Lemma load_loop_log (env : Env) (dirs : list DirectoryConfig.t) :
  forall w : World,
    fst (for_each dirs (load_directory env) w) = Ok tt ->
    logged (snd (for_each dirs (load_directory env) w)) =
      logged w ++ missing_warnings env dirs.
Proof.
  unfold missing_warnings.
  induction dirs as [|d dirs IH]; intros w H; cbn [for_each filter map].
  - unfold ret. cbn. rewrite app_nil_r. reflexivity.
  - cbn [for_each] in H. unfold bindM in H |- *.
    destruct (directory_exists env d) eqn:E; cbn [negb].
    + rewrite (load_directory_present env d w E) in H |- *.
      destruct (from_directory env _ _ _ _) as [c|e]; [|discriminate H].
      rewrite (IH _ H). reflexivity.
    + rewrite (load_directory_missing env d w E) in H |- *.
      rewrite (IH _ H). cbn [logged map]. rewrite <- app_assoc. reflexivity.
Qed.

Lemma load_loop_present_log (env : Env) (dirs : list DirectoryConfig.t) :
  forall w : World,
    logged (snd (for_each (filter (directory_exists env) dirs) (load_directory env) w)) =
      logged w.
Proof.
  induction dirs as [|d dirs IH]; intros w; cbn [filter]; [reflexivity|].
  destruct (directory_exists env d) eqn:E; [|apply IH].
  cbn [for_each]. unfold bindM. rewrite (load_directory_present env d w E).
  destruct (from_directory env _ _ _ _) as [c|e]; [|reflexivity].
  rewrite IH. reflexivity.
Qed.

Lemma build_averaged_self_only (w1 w2 : World) :
  self w1 = self w2 ->
  fst (_build_averaged_dataset w1) = fst (_build_averaged_dataset w2) /\
  self (snd (_build_averaged_dataset w1)) = self (snd (_build_averaged_dataset w2)) /\
  logged (snd (_build_averaged_dataset w1)) = logged w1.
Proof.
  intros H. rewrite !build_averaged_spec, H.
  destruct (entries (all_data (self w2))); [cbn; auto|].
  destruct (averaged (all_data (self w2)) "#"); cbn; auto.
Qed.

Lemma load_directories_unfold (env : Env) (given : option (list DirectoryConfig.t))
    (w : World) :
  load_directories env given w =
    match for_each (seq_or given (NotebookConfig.directories (config (self w))))
            (load_directory env) w with
    | (Ok _, w') => _build_averaged_dataset w'
    | (Raise e, w') => (Raise e, w')
    end.
Proof. reflexivity. Qed.

(** X11: [load_directories] skips a directory that does not exist with one
    warning and no error, whatever was loaded before and whatever the other
    directories are: the call ends as the call on the existing directories
    alone does, with the same outcome and the same pipeline, and when it
    returns the log has grown by exactly one warning per missing directory,
    in order.  When no directory exists the call is the averaging of the
    pool already loaded; with an empty pool it returns and leaves the
    pipeline as it was.  In every outcome, normal or raised, the call
    leaves the configuration, the groups and the results as they were and
    removes no key from the raw pools or from the merged pool. *)
Theorem load_directories_skips_missing_and_keeps_loaded :
  (forall (env : Env) (d : DirectoryConfig.t) (w : World),
      directory_exists env d = false ->
      load_directory env d w =
        (Ok tt, {| self := self w; logged := logged w ++ [missing_directory_warning d] |})) /\
  (forall (env : Env) (given : option (list DirectoryConfig.t)) (w : World)
          (present : list DirectoryConfig.t),
      let dirs := seq_or given (NotebookConfig.directories (config (self w))) in
      present = filter (directory_exists env) dirs ->
      present <> [] ->
      fst (load_directories env given w) = fst (load_directories env (Some present) w) /\
      self (snd (load_directories env given w)) =
        self (snd (load_directories env (Some present) w)) /\
      logged (snd (load_directories env (Some present) w)) = logged w /\
      (fst (load_directories env given w) = Ok tt ->
       logged (snd (load_directories env given w)) =
         logged w ++ missing_warnings env dirs)) /\
  (forall (env : Env) (given : option (list DirectoryConfig.t)) (w : World),
      let dirs := seq_or given (NotebookConfig.directories (config (self w))) in
      (forall d, In d dirs -> listing env (DirectoryConfig.path d) = None) ->
      load_directories env given w =
        _build_averaged_dataset
          {| self := self w;
             logged := logged w ++ map missing_directory_warning dirs |}) /\
  (forall (env : Env) (given : option (list DirectoryConfig.t)) (w : World),
      let dirs := seq_or given (NotebookConfig.directories (config (self w))) in
      (forall d, In d dirs -> listing env (DirectoryConfig.path d) = None) ->
      entries (all_data (self w)) = [] ->
      load_directories env given w =
        (Ok tt, {| self := self w;
                   logged := logged w ++ map missing_directory_warning dirs |})) /\
  (forall (env : Env) (given : option (list DirectoryConfig.t)) (w : World),
      keeps_loaded w (snd (load_directories env given w))).
Proof.
  assert (Hnone : forall (env : Env) (given : option (list DirectoryConfig.t)) (w : World),
             let dirs := seq_or given (NotebookConfig.directories (config (self w))) in
             (forall d, In d dirs -> listing env (DirectoryConfig.path d) = None) ->
             load_directories env given w =
               _build_averaged_dataset
                 {| self := self w;
                    logged := logged w ++ map missing_directory_warning dirs |}).
  { intros env given w dirs Hmissing. rewrite load_directories_unfold. fold dirs.
    rewrite (load_loop_missing env dirs Hmissing w). reflexivity. }
  split; [exact load_directory_missing|]. split; [|split; [exact Hnone|split]].
  - intros env given w present dirs Hpresent Hne.
    assert (Hseq : seq_or (Some present) (NotebookConfig.directories (config (self w)))
                   = present).
    { destruct present as [|d ds]; [exfalso; apply Hne; reflexivity | reflexivity]. }
    rewrite !load_directories_unfold. fold dirs. rewrite Hseq, Hpresent.
    destruct (load_loop_skips_missing env dirs w w eq_refl) as [Hfst Hself].
    pose proof (load_loop_log env dirs w) as Hlog.
    pose proof (load_loop_present_log env dirs w) as Hplog.
    destruct (for_each dirs (load_directory env) w) as [[[]|e] wa];
      destruct (for_each (filter (directory_exists env) dirs) (load_directory env) w)
        as [[[]|e'] wb]; cbn [fst snd] in *; try discriminate Hfst.
    + destruct (build_averaged_self_only wa wb Hself) as (A1 & A2 & A3).
      destruct (build_averaged_self_only wb wb eq_refl) as (_ & _ & B3).
      split; [exact A1|]. split; [exact A2|]. split; [rewrite B3; exact Hplog|].
      intros _. rewrite A3. apply Hlog. reflexivity.
    + split; [exact Hfst|]. split; [exact Hself|]. split; [exact Hplog|].
      intros H. discriminate H.
  - intros env given w dirs Hmissing Hempty.
    rewrite (Hnone env given w Hmissing). rewrite build_averaged_spec.
    cbn [self]. rewrite Hempty. reflexivity.
  - intros env given w. unfold load_directories, bindM, get_self.
    set (dirs := seq_or given (NotebookConfig.directories (config (self w)))).
    pose proof (load_loop_keeps env dirs w) as Hloop.
    destruct (for_each dirs (load_directory env) w) as [[[]|e] wm]; cbn [snd] in *.
    + eapply keeps_loaded_trans; [exact Hloop | apply build_averaged_keeps].
    + exact Hloop.
Qed.

Lemma one_spectrum_parse :
  parse (specread one_spectrum) {| filename := "run1/a.sp"; mode := "A" |} =
    Ok (record spectrum_entry).
Proof.
  unfold parse. cbn [specread one_spectrum bind filename mode wavelength amplitudes].
  change (convert_amplitudes "A" [1]) with ([1], [pow10 (- 1)]).
  change [400] with (map IZR [400%Z]).
  rewrite selector_IZR. reflexivity.
Qed.

Lemma one_spectrum_collection :
  from_directory one_spectrum "run1" "transmittance" "A" ".sp" =
    Ok {| entries := [("a", spectrum_entry)] |}.
Proof.
  unfold from_directory.
  change (listing one_spectrum "run1")
    with (Some [{| stem := "a"; item_suffix := ".sp"; item_path := "run1/a.sp" |}]).
  cbn [foldM item_suffix item_path stem].
  change (String.eqb (lower ".sp") (lower ".sp")) with true. cbn [negb].
  change (SpcFileParser_init "run1/a.sp" "A")
    with (Ok {| filename := "run1/a.sp"; mode := "A" |}).
  cbn [bind]. rewrite one_spectrum_parse. reflexivity.
Qed.

Lemma one_spectrum_averaged :
  averaged {| entries := [("present", sample_entry); ("a", spectrum_entry)] |} "#" =
    Ok {| entries := [("present", sample_entry); ("a", spectrum_entry)] |}.
Proof.
  apply averaged_without_replicates.
  - cbn. apply NoDup_cons; [intros [H|[]]; discriminate H|].
    apply NoDup_cons; [intros [] | apply NoDup_nil].
  - intros k [<-|[<-|[]]]; reflexivity.
Qed.

Lemma one_spectrum_run (given : list DirectoryConfig.t) (log : list LogRecord) :
  for_each given (load_directory one_spectrum) loaded_world =
    (Ok tt,
     {| self := set_averaged_data (averaged_data (self loaded_world))
                  (self (reloaded_world log));
        logged := log |}) ->
  load_directories one_spectrum (Some given) loaded_world = (Ok tt, reloaded_world log).
Proof.
  intros H. rewrite load_directories_unfold.
  destruct given as [|d ds]; [discriminate H|].
  cbn [seq_or]. rewrite H. rewrite build_averaged_spec.
  cbn [self reloaded_world set_averaged_data all_data entries].
  rewrite one_spectrum_averaged. reflexivity.
Qed.

Lemma one_spectrum_mixed :
  load_directories one_spectrum (Some [gone; run1; gone]) loaded_world =
    (Ok tt, reloaded_world [missing_directory_warning gone; missing_directory_warning gone]).
Proof.
  apply one_spectrum_run.
  cbn [for_each]. unfold bindM.
  rewrite (load_directory_missing one_spectrum gone loaded_world eq_refl).
  rewrite (load_directory_present one_spectrum run1 _ eq_refl).
  change (from_directory one_spectrum (DirectoryConfig.path run1)
            (DirectoryConfig.measurement run1) (DirectoryConfig.mode run1)
            (DirectoryConfig.extension run1))
    with (from_directory one_spectrum "run1" "transmittance" "A" ".sp").
  rewrite one_spectrum_collection.
  rewrite (load_directory_missing one_spectrum gone _ eq_refl).
  reflexivity.
Qed.

Lemma one_spectrum_alone :
  load_directories one_spectrum (Some [run1]) loaded_world = (Ok tt, reloaded_world []).
Proof.
  apply one_spectrum_run.
  cbn [for_each]. unfold bindM.
  rewrite (load_directory_present one_spectrum run1 _ eq_refl).
  change (from_directory one_spectrum (DirectoryConfig.path run1)
            (DirectoryConfig.measurement run1) (DirectoryConfig.mode run1)
            (DirectoryConfig.extension run1))
    with (from_directory one_spectrum "run1" "transmittance" "A" ".sp").
  rewrite one_spectrum_collection. reflexivity.
Qed.

Lemma load_directories_skips_missing_and_keeps_loaded_witness :
  (fst (load_directories one_spectrum (Some [gone; run1; gone]) loaded_world) = Ok tt /\
   logged (snd (load_directories one_spectrum (Some [gone; run1; gone]) loaded_world)) =
     [missing_directory_warning gone; missing_directory_warning gone]) /\
  self (snd (load_directories one_spectrum (Some [gone; run1; gone]) loaded_world)) =
    self (snd (load_directories one_spectrum (Some [run1]) loaded_world)) /\
  dict_get string_dec "a"
    (entries (all_data
       (self (snd (load_directories one_spectrum (Some [gone; run1; gone]) loaded_world))))) =
    Some spectrum_entry.
Proof.
  destruct (proj1 (proj2 load_directories_skips_missing_and_keeps_loaded)
              one_spectrum (Some [gone; run1; gone]) loaded_world [run1]
              eq_refl ltac:(discriminate))
    as (Hfst & Hself & _ & Hlog).
  split; [split|split].
  - rewrite one_spectrum_mixed. reflexivity.
  - apply Hlog. rewrite one_spectrum_mixed. reflexivity.
  - exact Hself.
  - rewrite Hself, one_spectrum_alone. reflexivity.
Defined.

(* ------------------------------------------------------------------ *)
(** ** Partial effects of build_groups *)

Lemma build_groups_loop_raise_state (p0 : Pipeline) (pre post : list DatasetGroup.t)
    (g : DatasetGroup.t) :
  Forall (known_source p0) pre ->
  ~ known_source p0 g ->
  forall w,
    for_each (pre ++ g :: post) (build_group p0) w =
      (Raise (source_error g),
       {| self := with_groups (dict_update string_dec (groups (self w)) (built_groups p0 pre))
                    (self w);
          logged := logged w ++ flat_map (fun g => snd (built_subset p0 g)) pre |}).
Proof.
  intros Hpre Hg.
  induction Hpre as [|g0 pre Hg0 Hpre IH]; intros w; simpl.
  - unfold bindM. rewrite build_group_unknown by exact Hg.
    rewrite app_nil_r. destruct w as [[] ?]. reflexivity.
  - unfold bindM. rewrite build_group_known by exact Hg0. rewrite IH.
    cbn [self logged set_group with_groups groups config raw_collections all_data
         averaged_data results].
    rewrite <- app_assoc. reflexivity.
Qed.

(** X12: when [build_groups] meets a group with an unknown source it
    raises, but the groups listed before it are already stored: the groups
    map is the former one updated with their subsets, and the pools, the
    results and the configuration are as they were. *)
Theorem build_groups_stores_groups_before_the_failure :
  forall (given : option (list DatasetGroup.t)) (w : World)
         (pre post : list DatasetGroup.t) (g : DatasetGroup.t),
    seq_or given (NotebookConfig.groups (config (self w))) = pre ++ g :: post ->
    Forall named_source pre ->
    ~ named_source g ->
    let w' := snd (build_groups given w) in
    fst (build_groups given w) =
      Raise (ValueError ("Unknown dataset source '" ++ DatasetGroup.source g ++ "'")%string) /\
    groups (self w') = dict_update string_dec (groups (self w)) (built_groups (self w) pre) /\
    (forall g0, In g0 pre ->
                In (DatasetGroup.name g0) (dict_keys (groups (self w')))) /\
    config (self w') = config (self w) /\
    raw_collections (self w') = raw_collections (self w) /\
    all_data (self w') = all_data (self w) /\
    averaged_data (self w') = averaged_data (self w) /\
    results (self w') = results (self w).
Proof.
  intros given w pre post g Hreq Hpre Hg w'.
  assert (Hrun := build_groups_loop_raise_state (self w) pre post g
                    (named_sources_known (self w) pre Hpre)
                    (fun Hk => Hg (proj1 (collection_lookup_known (self w) _) Hk)) w).
  unfold w'. rewrite build_groups_unfold, Hreq, Hrun.
  cbn [fst snd self with_groups groups config raw_collections all_data averaged_data results].
  split; [reflexivity|]. split; [reflexivity|]. split; [|repeat split].
  intros g0 Hg0. apply dict_keys_update_incl. right.
  unfold built_groups, dict_keys. rewrite map_map. cbn [fst].
  apply in_map_iff. exists g0. split; [reflexivity | exact Hg0].
Qed.

Lemma build_groups_stores_groups_before_the_failure_witness :
  groups (self (snd (build_groups (Some [partial_group; misplaced_group]) loaded_world))) =
    dict_update string_dec (groups (self loaded_world))
      (built_groups (self loaded_world) [partial_group]).
Proof.
  apply (build_groups_stores_groups_before_the_failure
           (Some [partial_group; misplaced_group]) loaded_world
           [partial_group] [] misplaced_group).
  - reflexivity.
  - repeat constructor.
  - intros [H|H]; discriminate H.
Defined.

(* ------------------------------------------------------------------ *)
(** ** Analysis loops *)

Lemma analyse_entry_raises (colour : option Colour) (absorbance : bool)
    (sd : SpectralDistribution) (ref : array) (item : string * DatasetEntry) :
  analyse_entry colour absorbance sd ref item = Raise (first_entry_error colour).
Proof.
  destruct item as [key entry]. unfold analyse_entry, compute_colour_metrics, spectrum_to_xyz.
  destruct colour; reflexivity.
Qed.

Lemma dict_mem_of_get {V} (k : string) (v : V) (d : dict string V) :
  dict_get string_dec k d = Some v -> dict_mem string_dec k d = true.
Proof. unfold dict_mem. intros ->. reflexivity. Qed.

(** X13: both analysis loops hand the generator returned by [as_pairs] to
    [np.array], which does not iterate it.  So on a built group with at
    least one entry [analyse_group] and [analyse_blackbody] raise on the
    first entry ([RuntimeError] without the colour package, else
    [TypeError]) and leave the pipeline, its results map included, as it
    was; the same pairs taken through [as_array] are accepted by
    [spectrum_to_xyz]. *)
Theorem analysis_loops_raise_on_the_first_entry :
  (forall (colour : option Colour) (group_name : string) (illuminant : IlluminantArg)
          (absorbance : bool) (reference_lab : option array) (w : World)
          (group : DatasetCollection) (item : string * DatasetEntry)
          (rest : dict string DatasetEntry),
      dict_get string_dec group_name (groups (self w)) = Some group ->
      entries group = item :: rest ->
      (forall name, illuminant = ByName name ->
                    dict_mem string_dec name (NotebookConfig.illuminants (config (self w)))
                    = true) ->
      analyse_group colour group_name illuminant absorbance reference_lab w =
        (Raise (first_entry_error colour), w)) /\
  (forall (colour : option Colour) (group_name : string) (temperature : R)
          (absorbance : bool) (reference_lab : option array) (w : World)
          (group : DatasetCollection) (item : string * DatasetEntry)
          (rest : dict string DatasetEntry),
      dict_get string_dec group_name (groups (self w)) = Some group ->
      entries group = item :: rest ->
      analyse_blackbody colour group_name temperature absorbance reference_lab w =
        (Raise (first_entry_error colour), w)) /\
  (forall (colour : Colour) (entry : DatasetEntry) (quantity : string)
          (p : R * R) (l : list (R * R)) (absorbance : bool)
          (illuminant : option SpectralDistribution),
      as_array entry quantity = Ok (p :: l) ->
      exists out, spectrum_to_xyz (Some colour) (Pairs (p :: l)) absorbance illuminant = Ok out).
Proof.
  split; [|split].
  - intros colour group_name illuminant absorbance reference_lab w group item rest
           Hgroup Hitems Hill.
    unfold analyse_group, bindM, get_self, subscript, ret, raise.
    rewrite (dict_mem_of_get _ _ _ Hgroup). cbn [negb].
    destruct illuminant as [name|sd].
    + rewrite (Hill name eq_refl). cbn [negb].
      pose proof (Hill name eq_refl) as Hm. unfold dict_mem in Hm.
      destruct (dict_get string_dec name (NotebookConfig.illuminants (config (self w))))
        as [sd|]; [|discriminate].
      rewrite Hgroup, Hitems. destruct item as [key entry]. cbn [analyse_and_store].
      rewrite analyse_entry_raises. reflexivity.
    + rewrite Hgroup, Hitems. destruct item as [key entry]. cbn [analyse_and_store].
      rewrite analyse_entry_raises. reflexivity.
  - intros colour group_name temperature absorbance reference_lab w group item rest
           Hgroup Hitems.
    unfold analyse_blackbody, bindM, get_self, subscript, ret, raise, lift.
    rewrite (dict_mem_of_get _ _ _ Hgroup). cbn [negb].
    destruct colour as [c|]; cbn [blackbody_illuminant]; [|reflexivity].
    rewrite Hgroup, Hitems. destruct item as [key entry]. cbn [analyse_local].
    rewrite analyse_entry_raises. reflexivity.
  - intros colour entry quantity p l absorbance illuminant _.
    eexists. apply spectrum_to_xyz_pairs.
Qed.

Lemma analysis_loops_raise_on_the_first_entry_witness :
  analyse_group None "one" (Direct []) true None
    {| self := with_groups [("one", {| entries := [("present", sample_entry)] |})]
                 (self loaded_world);
       logged := [] |} =
    (Raise (first_entry_error None),
     {| self := with_groups [("one", {| entries := [("present", sample_entry)] |})]
                  (self loaded_world);
        logged := [] |}).
Proof.
  apply (proj1 analysis_loops_raise_on_the_first_entry
           None "one" (Direct []) true None
           {| self := with_groups [("one", {| entries := [("present", sample_entry)] |})]
                        (self loaded_world);
              logged := [] |}
           {| entries := [("present", sample_entry)] |} ("present", sample_entry) []).
  - reflexivity.
  - reflexivity.
  - intros name H. discriminate H.
Defined.

Lemma same_but_results_trans (w1 w2 w3 : World) :
  same_but_results w1 w2 -> same_but_results w2 w3 -> same_but_results w1 w3.
Proof.
  unfold same_but_results.
  intros (A1 & A2 & A3 & A4 & A5 & A6) (B1 & B2 & B3 & B4 & B5 & B6).
  repeat split; congruence.
Qed.

Lemma analyse_group_frame (colour : option Colour) (group_name : string)
    (illuminant : IlluminantArg) (absorbance : bool) (reference_lab : option array)
    (w : World) :
  same_but_results w
    (snd (analyse_group colour group_name illuminant absorbance reference_lab w)).
Proof.
  assert (Hrun : forall sd ref group,
             same_but_results w
               (snd (match analyse_and_store (analyse_entry colour absorbance sd ref)
                             (entries group) [] w with
                     | (results, None, w') => (Ok results, w')
                     | (_, Some e, w') => (Raise e, w')
                     end))).
  { intros sd ref group.
    destruct (analyse_and_store_invariant (analyse_entry colour absorbance sd ref)
                (results (self w)) (entries group) [] w) as (_ & _ & Hsame);
      [constructor | reflexivity |].
    destruct (analyse_and_store (analyse_entry colour absorbance sd ref) (entries group) [] w)
      as [[local [e|]] w1]; exact Hsame. }
  unfold analyse_group, bindM, get_self, raise, subscript, ret.
  destruct (negb (dict_mem string_dec group_name (groups (self w))));
    [apply same_but_results_refl|].
  destruct illuminant as [name|sd].
  - destruct (negb (dict_mem string_dec name (NotebookConfig.illuminants (config (self w)))));
      [apply same_but_results_refl|].
    destruct (dict_get string_dec name (NotebookConfig.illuminants (config (self w))))
      as [sd|]; [|apply same_but_results_refl].
    destruct (dict_get string_dec group_name (groups (self w))) as [group|];
      [apply Hrun | apply same_but_results_refl].
  - destruct (dict_get string_dec group_name (groups (self w))) as [group|];
      [apply Hrun | apply same_but_results_refl].
Qed.

Lemma analyse_group_ok_known (colour : option Colour) (group_name : string)
    (illuminant : string) (absorbance : bool) (reference_lab : option array)
    (w w' : World) (r : dict string ColourResult.t) :
  analyse_group colour group_name (ByName illuminant) absorbance reference_lab w = (Ok r, w') ->
  dict_mem string_dec group_name (groups (self w)) = true /\
  dict_mem string_dec illuminant (NotebookConfig.illuminants (config (self w))) = true /\
  same_but_results w w'.
Proof.
  intros H.
  pose proof (analyse_group_frame colour group_name (ByName illuminant) absorbance
                reference_lab w) as Hframe.
  rewrite H in Hframe. cbn [snd] in Hframe.
  unfold analyse_group, bindM, get_self, raise in H.
  destruct (dict_mem string_dec group_name (groups (self w))); [|discriminate].
  destruct (dict_mem string_dec illuminant (NotebookConfig.illuminants (config (self w))));
    [|discriminate].
  auto.
Qed.

Lemma analyse_group_unbuilt (colour : option Colour) (group_name : string)
    (illuminant : IlluminantArg) (absorbance : bool) (reference_lab : option array)
    (w : World) :
  dict_mem string_dec group_name (groups (self w)) = false ->
  analyse_group colour group_name illuminant absorbance reference_lab w =
    (Raise (group_missing group_name), w).
Proof.
  intros H. unfold analyse_group, bindM, get_self, raise. rewrite H. reflexivity.
Qed.

Lemma dict_keys_set_iff {V} (k k' : string) (v : V) (d : dict string V) :
  In k (dict_keys (dict_set string_dec k' v d)) <-> In k (dict_keys d) \/ k = k'.
Proof.
  rewrite dict_keys_set.
  destruct (dict_mem string_dec k' d) eqn:E.
  - apply dict_mem_in_keys in E. split; [tauto|]. intros [H| ->]; [exact H | exact E].
  - rewrite in_app_iff. cbn [In]. intuition auto.
Qed.

Lemma analyse_each_illuminant_ok (colour : option Colour) (group_name : string)
    (absorbance : bool) (reference_lab : option array) (illuminants : list string) :
  forall (output out : dict string (dict string ColourResult.t)) (w w' : World),
    analyse_each_illuminant colour group_name absorbance reference_lab illuminants output w
      = (Ok out, w') ->
    NoDup (dict_keys output) ->
    NoDup (dict_keys out) /\
    (forall k, In k (dict_keys out) <-> In k (dict_keys output) \/ In k illuminants) /\
    (forall k, In k illuminants ->
               dict_mem string_dec k (NotebookConfig.illuminants (config (self w))) = true) /\
    (illuminants <> [] -> dict_mem string_dec group_name (groups (self w)) = true) /\
    same_but_results w w'.
Proof.
  induction illuminants as [|i rest IH]; intros output out w w' H Hnd.
  - cbn in H. injection H as <- <-.
    split; [exact Hnd|]. split; [intros k; cbn; tauto|].
    split; [intros k []|]. split; [intros C; exfalso; apply C; reflexivity|].
    apply same_but_results_refl.
  - cbn [analyse_each_illuminant] in H. unfold bindM in H.
    destruct (analyse_group colour group_name (ByName i) absorbance reference_lab w)
      as [[analysis|e] w1] eqn:E; [|discriminate].
    destruct (analyse_group_ok_known _ _ _ _ _ _ _ _ E) as (Hg & Hi & Hs).
    assert (Hnd' : NoDup (dict_keys (dict_set string_dec i analysis output)))
      by (apply dict_set_NoDup, Hnd).
    destruct (IH _ _ _ _ H Hnd') as (N & Keys & Known & _ & Hs').
    split; [exact N|]. split; [|split; [|split]].
    + intros k. rewrite Keys, dict_keys_set_iff. cbn [In]. intuition auto.
    + intros k [<-|Hk]; [exact Hi|].
      destruct Hs as (Hc & _). rewrite <- Hc. apply Known, Hk.
    + intros _. exact Hg.
    + exact (same_but_results_trans _ _ _ Hs Hs').
Qed.

Lemma metrics_each_illuminant_ok (colour : option Colour) (group_name : string)
    (absorbance : bool) (illuminants : list string) :
  forall (dataset out : dict string (dict string ColourMetrics.t)) (w w' : World),
    metrics_each_illuminant colour group_name absorbance illuminants dataset w
      = (Ok out, w') ->
    NoDup (dict_keys dataset) ->
    NoDup (dict_keys out) /\
    (forall k, In k (dict_keys out) <-> In k (dict_keys dataset) \/ In k illuminants) /\
    (forall k, In k illuminants ->
               dict_mem string_dec k (NotebookConfig.illuminants (config (self w))) = true) /\
    (illuminants <> [] -> dict_mem string_dec group_name (groups (self w)) = true) /\
    same_but_results w w'.
Proof.
  induction illuminants as [|i rest IH]; intros dataset out w w' H Hnd.
  - cbn in H. injection H as <- <-.
    split; [exact Hnd|]. split; [intros k; cbn; tauto|].
    split; [intros k []|]. split; [intros C; exfalso; apply C; reflexivity|].
    apply same_but_results_refl.
  - cbn [metrics_each_illuminant] in H. unfold bindM in H.
    destruct (analyse_group colour group_name (ByName i) absorbance None w)
      as [[analysis|e] w1] eqn:E; [|discriminate].
    destruct (analyse_group_ok_known _ _ _ _ _ _ _ _ E) as (Hg & Hi & Hs).
    match type of H with
    | metrics_each_illuminant _ _ _ _ ?d _ = _ =>
        assert (Hnd' : NoDup (dict_keys d)) by (apply dict_set_NoDup, Hnd)
    end.
    destruct (IH _ _ _ _ H Hnd') as (N & Keys & Known & _ & Hs').
    split; [exact N|]. split; [|split; [|split]].
    + intros k. rewrite Keys, dict_keys_set_iff. cbn [In]. intuition auto.
    + intros k [<-|Hk]; [exact Hi|].
      destruct Hs as (Hc & _). rewrite <- Hc. apply Known, Hk.
    + intros _. exact Hg.
    + exact (same_but_results_trans _ _ _ Hs Hs').
Qed.

(** X14: [analyse_group_under_illuminants] and [generate_colour_dataset]
    check the group only inside the loop: with no illuminant they return
    an empty dict whatever the group name, with at least one and an unbuilt
    group they raise the [KeyError] of [analyse_group] and change nothing.
    When they return, the keys of the result are exactly the requested
    illuminants, each once, all of them are defined in the configuration,
    and only [self.results] may have changed. *)
Theorem illuminant_loops_keys_and_errors :
  (forall (colour : option Colour) (group_name : string) (absorbance : bool)
          (reference_lab : option array) (w : World),
      analyse_group_under_illuminants colour group_name [] absorbance reference_lab w
        = (Ok [], w) /\
      generate_colour_dataset colour group_name [] absorbance w = (Ok [], w)) /\
  (forall (colour : option Colour) (group_name illuminant : string) (rest : list string)
          (absorbance : bool) (reference_lab : option array) (w : World),
      dict_mem string_dec group_name (groups (self w)) = false ->
      analyse_group_under_illuminants colour group_name (illuminant :: rest) absorbance
        reference_lab w = (Raise (group_missing group_name), w) /\
      generate_colour_dataset colour group_name (illuminant :: rest) absorbance w
        = (Raise (group_missing group_name), w)) /\
  (forall (colour : option Colour) (group_name : string) (illuminants : list string)
          (absorbance : bool) (reference_lab : option array) (w w' : World)
          (out : dict string (dict string ColourResult.t)),
      analyse_group_under_illuminants colour group_name illuminants absorbance
        reference_lab w = (Ok out, w') ->
      NoDup (dict_keys out) /\
      (forall k, In k (dict_keys out) <-> In k illuminants) /\
      (forall k, In k illuminants ->
                 dict_mem string_dec k (NotebookConfig.illuminants (config (self w))) = true) /\
      same_but_results w w') /\
  (forall (colour : option Colour) (group_name : string) (illuminants : list string)
          (absorbance : bool) (w w' : World)
          (out : dict string (dict string ColourMetrics.t)),
      generate_colour_dataset colour group_name illuminants absorbance w = (Ok out, w') ->
      NoDup (dict_keys out) /\
      (forall k, In k (dict_keys out) <-> In k illuminants) /\
      (forall k, In k illuminants ->
                 dict_mem string_dec k (NotebookConfig.illuminants (config (self w))) = true) /\
      same_but_results w w').
Proof.
  split; [|split; [|split]].
  - intros. split; reflexivity.
  - intros colour group_name illuminant rest absorbance reference_lab w Hg.
    unfold analyse_group_under_illuminants, generate_colour_dataset.
    cbn [analyse_each_illuminant metrics_each_illuminant]. unfold bindM.
    rewrite !analyse_group_unbuilt by exact Hg. split; reflexivity.
  - intros colour group_name illuminants absorbance reference_lab w w' out H.
    destruct (analyse_each_illuminant_ok _ _ _ _ _ _ _ _ _ H (NoDup_nil _))
      as (N & Keys & Known & _ & Hs).
    split; [exact N|]. split; [|split; [exact Known | exact Hs]].
    intros k. rewrite Keys. cbn. tauto.
  - intros colour group_name illuminants absorbance w w' out H.
    destruct (metrics_each_illuminant_ok _ _ _ _ _ _ _ _ H (NoDup_nil _))
      as (N & Keys & Known & _ & Hs).
    split; [exact N|]. split; [|split; [exact Known | exact Hs]].
    intros k. rewrite Keys. cbn. tauto.
Qed.

Lemma illuminant_loops_keys_and_errors_witness :
  analyse_group_under_illuminants None "blank" ["D65"; "D65"] true None lit_world
    = (Ok [("D65", [])], lit_world) /\
  NoDup (dict_keys [("D65", @nil (string * ColourResult.t))]) /\
  (forall k, In k (dict_keys [("D65", @nil (string * ColourResult.t))])
             <-> In k ["D65"; "D65"]).
Proof.
  split; [reflexivity|].
  pose proof (proj1 (proj2 (proj2 illuminant_loops_keys_and_errors))
                None "blank" ["D65"; "D65"] true None lit_world lit_world
                [("D65", [])] eq_refl) as H.
  split; [exact (proj1 H) | exact (proj1 (proj2 H))].
Defined.

(* ------------------------------------------------------------------ *)
(** ** Shapes and sizes of colour differences *)

Lemma np_sum_squares_nonneg (a : array) : 0 <= np_sum (map (fun x => x * x) a).
Proof.
  induction a as [|x a IH]; cbn [map].
  - rewrite np_sum_nil. lra.
  - rewrite np_sum_cons. nra.
Qed.

Lemma norm_nonneg (a : array) : 0 <= norm a.
Proof. unfold norm. apply sqrt_pos. Qed.

Lemma np_sub_broadcasts (a b : array) :
  List.length a = List.length b \/ List.length a = 1%nat \/ List.length b = 1%nat ->
  exists d, np_sub a b = Ok d.
Proof.
  intros H. unfold np_sub.
  destruct (Nat.eqb (List.length a) (List.length b)) eqn:E; [eexists; reflexivity|].
  apply Nat.eqb_neq in E.
  destruct H as [H|[H|H]]; [contradiction| |].
  - destruct a as [|x [|x' a]]; try discriminate H. eexists; reflexivity.
  - destruct b as [|y [|y' b]]; try discriminate H.
    destruct a as [|x [|x' a]]; eexists; reflexivity.
Qed.

Lemma np_sub_mismatch (a b : array) :
  List.length a <> List.length b -> List.length a <> 1%nat -> List.length b <> 1%nat ->
  np_sub a b = Raise broadcast_error.
Proof.
  intros Hab Ha Hb. unfold np_sub.
  destruct (Nat.eqb (List.length a) (List.length b)) eqn:E;
    [apply Nat.eqb_eq in E; contradiction|].
  destruct a as [|x [|x' a]], b as [|y [|y' b]]; cbn in *;
    try reflexivity; exfalso; auto.
Qed.

(** X15: [delta_e] follows NumPy broadcasting: it returns a non-negative
    number when the two arrays have the same length or one of them has a
    single element, and raises [ValueError] otherwise.  For a sample
    triple, [delta_e] and [delta_c] both return exactly when the reference
    has three components: a single component is accepted by [delta_e] and
    rejected by [delta_c], four or more are accepted by [delta_c] and
    rejected by [delta_e]. *)
Theorem delta_e_broadcasts_or_raises :
  (forall A B : array,
      List.length A = List.length B \/ List.length A = 1%nat \/ List.length B = 1%nat ->
      exists d, delta_e A B = Ok d /\ 0 <= d) /\
  (forall A B : array,
      List.length A <> List.length B -> List.length A <> 1%nat -> List.length B <> 1%nat ->
      delta_e A B = Raise broadcast_error) /\
  (forall (L a b : R) (reference : array),
      ((exists d, delta_e [L; a; b] reference = Ok d) /\
       (exists d, delta_c [L; a; b] reference = Ok d)) <->
      List.length reference = 3%nat) /\
  (forall L a b x : R,
      (exists d, delta_e [L; a; b] [x] = Ok d) /\
      delta_c [L; a; b] [x] = Raise broadcast_error) /\
  (forall (L a b x1 x2 x3 x4 : R) (more : array),
      delta_e [L; a; b] (x1 :: x2 :: x3 :: x4 :: more) = Raise broadcast_error /\
      delta_c [L; a; b] (x1 :: x2 :: x3 :: x4 :: more) =
        Ok (sqrt ((a - x2) * (a - x2) + (b - x3) * (b - x3)))).
Proof.
  split; [|split; [|split; [|split]]].
  - intros A B H. destruct (np_sub_broadcasts A B H) as [d Hd].
    exists (norm d). unfold delta_e. rewrite Hd. split; [reflexivity | apply norm_nonneg].
  - intros A B Hab Ha Hb. unfold delta_e. rewrite np_sub_mismatch by assumption. reflexivity.
  - intros L a b reference. split.
    + intros [[d1 H1] [d2 H2]].
      destruct reference as [|x1 [|x2 [|x3 [|x4 more]]]]; cbn in H1, H2;
        try discriminate H1; try discriminate H2; reflexivity.
    + intros H. destruct reference as [|x1 [|x2 [|x3 [|x4 more]]]]; try discriminate H.
      split; eexists; reflexivity.
  - intros L a b x. split; [eexists; reflexivity | reflexivity].
  - intros L a b x1 x2 x3 x4 more. split; [reflexivity|].
    unfold delta_c, slice_1_3, np_sub, norm. simpl.
    rewrite !np_sum_cons, np_sum_nil. do 2 f_equal. ring.
Qed.

Lemma delta_e_broadcasts_or_raises_witness :
  delta_e [50; 1; 2] [50; 1; 2; 0] = Raise broadcast_error.
Proof.
  apply (proj1 (proj2 delta_e_broadcasts_or_raises) [50; 1; 2] [50; 1; 2; 0]).
  - cbn. lia.
  - cbn. lia.
  - cbn. lia.
Defined.

Lemma sqrt_sum3_zero (x y z : R) :
  sqrt (x * x + y * y + z * z) = 0 -> x = 0 /\ y = 0 /\ z = 0.
Proof.
  intros H. apply sqrt_eq_0 in H; [|nra].
  assert (x * x = 0) by nra. assert (y * y = 0) by nra. assert (z * z = 0) by nra.
  repeat split; nra.
Qed.

Lemma delta_e_triples (L1 a1 b1 L2 a2 b2 : R) :
  delta_e [L1; a1; b1] [L2; a2; b2] =
    Ok (sqrt ((L1 - L2) * (L1 - L2) + (a1 - a2) * (a1 - a2) + (b1 - b2) * (b1 - b2))).
Proof.
  unfold delta_e, np_sub, norm. simpl.
  rewrite !np_sum_cons, np_sum_nil. do 2 f_equal. ring.
Qed.

Lemma delta_c_triples (L1 a1 b1 L2 a2 b2 : R) :
  delta_c [L1; a1; b1] [L2; a2; b2] =
    Ok (sqrt ((a1 - a2) * (a1 - a2) + (b1 - b2) * (b1 - b2))).
Proof.
  unfold delta_c, np_sub, norm. simpl.
  rewrite !np_sum_cons, np_sum_nil. do 2 f_equal. ring.
Qed.

(** X16: on Lab triples the chroma difference never exceeds the total
    difference and neither is negative; [delta_e] vanishes exactly on equal
    triples, [delta_c] exactly on triples with the same chroma components;
    and the chroma of [lightness_chroma] is [delta_c] against any neutral
    reference. *)
Theorem colour_differences_on_triples :
  forall L1 a1 b1 L2 a2 b2 : R,
    exists e c : R,
      delta_e [L1; a1; b1] [L2; a2; b2] = Ok e /\
      delta_c [L1; a1; b1] [L2; a2; b2] = Ok c /\
      0 <= c <= e /\
      (e = 0 <-> (L1 = L2 /\ a1 = a2 /\ b1 = b2)) /\
      (c = 0 <-> (a1 = a2 /\ b1 = b2)) /\
      (c = e <-> L1 = L2) /\
      lightness_chroma (L1, a1, b1) = (L1, hypot a1 b1) /\
      delta_c [L1; a1; b1] [L2; 0; 0] = Ok (snd (lightness_chroma (L1, a1, b1))).
Proof.
  intros L1 a1 b1 L2 a2 b2.
  set (dL := L1 - L2). set (da := a1 - a2). set (db := b1 - b2).
  exists (sqrt (dL * dL + da * da + db * db)), (sqrt (da * da + db * db)).
  split; [apply delta_e_triples|]. split; [apply delta_c_triples|].
  split; [|split; [|split; [|split; [|split]]]].
  - split; [apply sqrt_pos|]. apply sqrt_le_1; nra.
  - split.
    + intros H. apply sqrt_sum3_zero in H. unfold dL, da, db in H. repeat split; lra.
    + intros (-> & -> & ->). unfold dL, da, db.
      replace (_ + _) with 0 by ring. apply sqrt_0.
  - split.
    + intros H. apply sqrt_eq_0 in H; [|nra].
      assert (da * da = 0) by nra. assert (db * db = 0) by nra.
      unfold da, db in *. split; nra.
    + intros (-> & ->). unfold da, db.
      replace (_ + _) with 0 by ring. apply sqrt_0.
  - split.
    + intros H. apply sqrt_inj in H; [|nra|nra].
      assert (dL * dL = 0) by nra. unfold dL in *. nra.
    + intros ->. unfold dL. f_equal. ring.
  - reflexivity.
  - rewrite delta_c_triples. cbn [lightness_chroma snd]. unfold hypot.
    do 2 f_equal; ring.
Qed.

(* ------------------------------------------------------------------ *)
(** ** The absorbance flag *)

Lemma filter_in_window_as_transmittance (l : list (R * R)) :
  filter in_window (as_transmittance l) = as_transmittance (filter in_window l).
Proof.
  induction l as [|[w v] l IH]; [reflexivity|].
  change (as_transmittance ((w, v) :: l))
    with ((w, pow10 (- v)) :: as_transmittance l).
  cbn [filter]. rewrite IH.
  change (in_window (w, pow10 (- v))) with (in_window (w, v)).
  destruct (in_window (w, v)); reflexivity.
Qed.

Lemma spectrum_to_xyz_flag (colour : option Colour) (l : list (R * R))
    (illuminant : option SpectralDistribution) :
  spectrum_to_xyz colour (Pairs l) true illuminant =
  spectrum_to_xyz colour (Pairs (as_transmittance l)) false illuminant.
Proof.
  destruct colour as [c|]; [|reflexivity].
  destruct l as [|p l]; [reflexivity|].
  change (as_transmittance (p :: l))
    with ((fst p, pow10 (- snd p)) :: as_transmittance l).
  rewrite !spectrum_to_xyz_pairs.
  change ((fst p, pow10 (- snd p)) :: as_transmittance l) with (as_transmittance (p :: l)).
  rewrite filter_in_window_as_transmittance.
  unfold integrate_kept, as_transmittance. rewrite !map_map. cbn [fst snd].
  reflexivity.
Qed.

Lemma combine_map_r {A B C} (f : B -> C) (xs : list A) (ys : list B) :
  combine xs (map f ys) = map (fun p => (fst p, f (snd p))) (combine xs ys).
Proof.
  revert ys. induction xs as [|x xs IH]; intros [|y ys]; cbn; try reflexivity.
  rewrite IH. reflexivity.
Qed.

(** X17: with the absorbance flag set, [spectrum_to_xyz] gives what it
    gives without the flag on the same pairs with each value [A] replaced
    by [10 ** (-A)].  So for a record parsed in mode A or R the absorbance
    pairs with the flag and the transmittance pairs without it give the
    same result, and in mode T they do whenever every stored
    transmittance is at least [1e-12]. *)
Theorem absorbance_flag_matches_transmittance_pairs :
  (forall (colour : option Colour) (l : list (R * R))
          (illuminant : option SpectralDistribution),
      spectrum_to_xyz colour (Pairs l) true illuminant =
      spectrum_to_xyz colour (Pairs (as_transmittance l)) false illuminant) /\
  (forall (read : string -> result Spectrum) (self : SpcFileParser) (entry : DatasetEntry)
          (colour : option Colour) (illuminant : option SpectralDistribution),
      parse (Some read) self = Ok (record entry) ->
      (mode self = "T" -> Forall (fun t => 1e-12 <= t) (transmittances (record entry))) ->
      exists a t : list (R * R),
        as_array entry "absorbance" = Ok a /\
        as_array entry "transmittance" = Ok t /\
        t = as_transmittance a /\
        spectrum_to_xyz colour (Pairs a) true illuminant =
        spectrum_to_xyz colour (Pairs t) false illuminant).
Proof.
  split; [exact spectrum_to_xyz_flag|].
  intros read self entry colour illuminant Hparse Hfloor.
  exists (combine (wavelengths (record entry)) (absorbances (record entry))),
         (combine (wavelengths (record entry)) (transmittances (record entry))).
  split; [reflexivity|]. split; [reflexivity|].
  assert (Ht : combine (wavelengths (record entry)) (transmittances (record entry)) =
               as_transmittance
                 (combine (wavelengths (record entry)) (absorbances (record entry)))).
  { destruct (read (filename self)) as [spectra|e] eqn:Hread;
      [|unfold parse in Hparse; rewrite Hread in Hparse; discriminate Hparse].
    pose proof (parse_pairs read self spectra (record entry) Hread Hparse) as Hrel.
    unfold as_transmittance.
    destruct (String.eqb (mode self) "T") eqn:E.
    - apply String.eqb_eq in E. specialize (Hfloor E).
      rewrite Hrel, combine_map_r, map_map. cbn [fst snd].
      rewrite <- (map_id (combine _ _)) at 1.
      apply map_ext_in. intros [w t] Hin. cbn [fst snd].
      apply in_combine_r in Hin. rewrite Forall_forall in Hfloor.
      rewrite pow10_clipped_log10 by (apply Hfloor, Hin). reflexivity.
    - rewrite Hrel, combine_map_r. reflexivity. }
  split; [exact Ht|]. rewrite Ht. apply spectrum_to_xyz_flag.
Qed.

Lemma absorbance_flag_matches_transmittance_pairs_witness :
  exists a t : list (R * R),
    as_array {| record := {| wavelengths := [400]; absorbances := [1];
                             transmittances := [pow10 (- 1)] |};
                measurement := "absorbance"; metadata := [] |} "absorbance" = Ok a /\
    as_array {| record := {| wavelengths := [400]; absorbances := [1];
                             transmittances := [pow10 (- 1)] |};
                measurement := "absorbance"; metadata := [] |} "transmittance" = Ok t /\
    t = as_transmittance a /\
    spectrum_to_xyz None (Pairs a) true None = spectrum_to_xyz None (Pairs t) false None.
Proof.
  apply (proj2 absorbance_flag_matches_transmittance_pairs
           (fun _ => Ok {| wavelength := [400]; amplitudes := [1] |})
           {| filename := "sample.sp"; mode := "A" |}
           {| record := {| wavelengths := [400]; absorbances := [1];
                           transmittances := [pow10 (- 1)] |};
              measurement := "absorbance"; metadata := [] |} None None).
  - unfold parse. cbn [bind filename mode wavelength amplitudes record].
    change (convert_amplitudes "A" [1]) with ([1], [pow10 (- 1)]).
    change [400] with (map IZR [400%Z]).
    rewrite selector_IZR. reflexivity.
  - intros H. discriminate H.
Defined.

(* ------------------------------------------------------------------ *)
(** ** The metrics of one spectrum *)

Lemma compute_colour_metrics_pairs (colour : Colour) (p : R * R) (l : list (R * R))
    (absorbance : bool) (illuminant : option SpectralDistribution) (reference_lab : array) :
  compute_colour_metrics (Some colour) (Pairs (p :: l)) absorbance illuminant reference_lab =
    (let '(rgb, lab, xyz) :=
       integrate_kept colour (filter in_window (p :: l)) absorbance illuminant in
     let wt := whiteness_CIE2004 colour (XYZ_to_xy colour xyz) (snd (fst xyz))
                 (0.3139, 0.3311) in
     delta_e_value <- delta_e (vec3_list lab) reference_lab ;;
     delta_c_value <- delta_c (vec3_list lab) reference_lab ;;
     Ok {| ColourMetrics.rgb := rgb; ColourMetrics.lab := lab; ColourMetrics.xyz := xyz;
           ColourMetrics.whiteness := fst wt; ColourMetrics.tint := snd wt;
           ColourMetrics.lightness := fst (lightness_chroma lab);
           ColourMetrics.chroma := snd (lightness_chroma lab);
           ColourMetrics.delta_e := delta_e_value;
           ColourMetrics.delta_c := delta_c_value |})%py.
Proof.
  unfold compute_colour_metrics. rewrite spectrum_to_xyz_pairs. cbn [bind].
  destruct (integrate_kept colour (filter in_window (p :: l)) absorbance illuminant)
    as [[rgb lab] xyz].
  cbn [whiteness_and_tint bind].
  destruct lab as [[L a] b]. reflexivity.
Qed.

(** X18: [compute_colour_metrics] raises [RuntimeError] without the colour
    package.  With it and a non-empty sequence of pairs it returns exactly
    when the reference has three components, and raises the broadcasting
    [ValueError] otherwise.  What it returns carries the rgb, Lab and XYZ
    values of [spectrum_to_xyz], rgb channels between 0 and 1, the first
    Lab component as lightness, a non-negative chroma, and a chroma
    difference between 0 and the total difference. *)
Theorem compute_colour_metrics_needs_a_reference_triple :
  (forall (spectrum : PySpectrum) (absorbance : bool)
          (illuminant : option SpectralDistribution) (reference_lab : array),
      compute_colour_metrics None spectrum absorbance illuminant reference_lab =
        Raise colour_missing) /\
  (forall (colour : Colour) (p : R * R) (l : list (R * R)) (absorbance : bool)
          (illuminant : option SpectralDistribution) (reference_lab : array),
      ((exists m, compute_colour_metrics (Some colour) (Pairs (p :: l)) absorbance
                    illuminant reference_lab = Ok m) <->
       List.length reference_lab = 3%nat) /\
      (List.length reference_lab <> 3%nat ->
       compute_colour_metrics (Some colour) (Pairs (p :: l)) absorbance illuminant
         reference_lab = Raise broadcast_error)) /\
  (forall (colour : Colour) (p : R * R) (l : list (R * R)) (absorbance : bool)
          (illuminant : option SpectralDistribution) (reference_lab : array)
          (m : ColourMetrics.t),
      compute_colour_metrics (Some colour) (Pairs (p :: l)) absorbance illuminant
        reference_lab = Ok m ->
      spectrum_to_xyz (Some colour) (Pairs (p :: l)) absorbance illuminant =
        Ok (ColourMetrics.rgb m, ColourMetrics.lab m, ColourMetrics.xyz m) /\
      Forall (fun channel => 0 <= channel <= 1) (vec3_list (ColourMetrics.rgb m)) /\
      ColourMetrics.lightness m = fst (fst (ColourMetrics.lab m)) /\
      0 <= ColourMetrics.chroma m /\
      0 <= ColourMetrics.delta_c m <= ColourMetrics.delta_e m /\
      delta_e (vec3_list (ColourMetrics.lab m)) reference_lab = Ok (ColourMetrics.delta_e m) /\
      delta_c (vec3_list (ColourMetrics.lab m)) reference_lab = Ok (ColourMetrics.delta_c m)).
Proof.
  split; [reflexivity|]. split.
  - intros colour p l absorbance illuminant reference_lab.
    rewrite compute_colour_metrics_pairs.
    destruct (integrate_kept colour (filter in_window (p :: l)) absorbance illuminant)
      as [[rgb [[L a] b]] xyz].
    cbn [vec3_list].
    destruct reference_lab as [|x1 [|x2 [|x3 [|x4 more]]]].
    + split; [split; [intros [m H]; discriminate H | intros H; discriminate H]|reflexivity].
    + split; [split; [intros [m H]; discriminate H | intros H; discriminate H]|reflexivity].
    + split; [split; [intros [m H]; discriminate H | intros H; discriminate H]|reflexivity].
    + rewrite delta_e_triples, delta_c_triples. cbn [bind].
      split; [split; [reflexivity | intros _; eexists; reflexivity]|].
      intros H. exfalso. apply H. reflexivity.
    + split; [split; [intros [m H]; discriminate H | intros H; discriminate H]|reflexivity].
  - intros colour p l absorbance illuminant reference_lab m H.
    rewrite compute_colour_metrics_pairs in H. rewrite spectrum_to_xyz_pairs.
    pose proof (vec3_clip_bounds
                  (XYZ_to_sRGB colour
                     (vec3_map (fun c => c / 100)
                        (sd_to_XYZ colour
                           (dict_zip (map fst (filter in_window (p :: l)))
                              (if absorbance
                               then map (fun v => pow10 (- v))
                                      (map snd (filter in_window (p :: l)))
                               else map snd (filter in_window (p :: l))))
                           illuminant)))) as Hclip.
    unfold integrate_kept in *.
    set (xyz := vec3_map (fun c => c / 100) _) in *.
    destruct (vec3_map (clip 0 1) (XYZ_to_sRGB colour xyz)) as [[r g] b] eqn:Ergb.
    destruct (XYZ_to_Lab colour xyz) as [[L a'] b'] eqn:Elab.
    cbn [vec3_list] in H.
    destruct reference_lab as [|x1 [|x2 [|x3 [|x4 more]]]]; try discriminate H.
    rewrite delta_e_triples, delta_c_triples in H. cbn [bind] in H.
    injection H as <-.
    cbn [ColourMetrics.rgb ColourMetrics.lab ColourMetrics.xyz ColourMetrics.lightness
         ColourMetrics.chroma ColourMetrics.delta_e ColourMetrics.delta_c
         lightness_chroma fst snd vec3_list].
    split; [reflexivity|]. split.
    { destruct Hclip as (Hr & Hg & Hb).
      apply Forall_cons; [exact Hr|]. apply Forall_cons; [exact Hg|].
      apply Forall_cons; [exact Hb | apply Forall_nil]. }
    split; [reflexivity|]. split; [unfold hypot; apply sqrt_pos|].
    split.
    { split; [apply sqrt_pos|].
      pose proof (Rle_0_sqr (L - x1)) as HL. pose proof (Rle_0_sqr (a' - x2)) as Ha.
      pose proof (Rle_0_sqr (b' - x3)) as Hb'. unfold Rsqr in HL, Ha, Hb'.
      apply sqrt_le_1; lra. }
    split; [apply delta_e_triples | apply delta_c_triples].
Qed.

Lemma compute_colour_metrics_needs_a_reference_triple_witness :
  compute_colour_metrics (Some grey_colour) (Pairs [(400, 1)]) true None [100; 0] =
    Raise broadcast_error.
Proof.
  apply (proj2 (proj1 (proj2 compute_colour_metrics_needs_a_reference_triple)
                  grey_colour (400, 1) [] true None [100; 0])).
  cbn. lia.
Defined.

(* ------------------------------------------------------------------ *)
(** ** Hex strings and integer channels *)

Lemma channel_byte (c : R) : (0 <= py_round (clip 0 1 c * 255) <= 255)%Z.
Proof.
  apply py_round_range. pose proof (clip_bounds 0 1 c ltac:(lra)). lra.
Qed.

Lemma rgb_to_hex_digits (r g b : R) (extra : array) :
  rgb_to_hex (r :: g :: b :: extra) =
    Ok ("#" ++ two_hex_digits (py_round (clip 0 1 r * 255))
            ++ two_hex_digits (py_round (clip 0 1 g * 255))
            ++ two_hex_digits (py_round (clip 0 1 b * 255)))%string.
Proof.
  unfold rgb_to_hex. cbn [map].
  rewrite !format_02x_byte by apply channel_byte. reflexivity.
Qed.

Lemma clip_idem (lo hi x : R) : lo <= hi -> clip lo hi (clip lo hi x) = clip lo hi x.
Proof. intros H. apply clip_id, clip_bounds, H. Qed.

Lemma clip_high (x : R) : 1 <= x -> py_round (clip 0 1 x * 255) = 255%Z.
Proof.
  intros H. replace (clip 0 1 x) with 1.
  - replace (1 * 255) with (IZR 255) by lra. apply py_round_IZR.
  - unfold clip, Rmin, Rmax. destruct (Rle_dec x 0); destruct (Rle_dec _ 1); lra.
Qed.

Lemma clip_low (x : R) : x <= 0 -> py_round (clip 0 1 x * 255) = 0%Z.
Proof.
  intros H. replace (clip 0 1 x) with 0.
  - replace (0 * 255) with (IZR 0) by lra. apply py_round_IZR.
  - unfold clip, Rmin, Rmax. destruct (Rle_dec x 0); destruct (Rle_dec _ 1); lra.
Qed.

(** X19: [rgb_to_hex] raises [IndexError] on fewer than three channels and
    ignores any channel after the third; what it returns has seven
    characters and is unchanged when the channels are clipped beforehand,
    so that a first and third channel of at least 1 with a second of at
    most 0 give [#ff00ff].  For a result whose rgb channels lie between 0 and 1, as
    [spectrum_to_xyz] leaves them, the channels of [rgb_int] lie between
    0 and 255 and are the numbers that [rgb_to_hex] renders. *)
Theorem rgb_to_hex_shape_and_rgb_int :
  (forall rgb : array,
      (List.length rgb < 3)%nat -> exists msg, rgb_to_hex rgb = Raise (IndexError msg)) /\
  (forall (r g b : R) (extra : array),
      rgb_to_hex (r :: g :: b :: extra) = rgb_to_hex [r; g; b]) /\
  (forall (rgb : array) (h : string),
      rgb_to_hex rgb = Ok h ->
      String.length h = 7%nat /\ rgb_to_hex (map (clip 0 1) rgb) = Ok h) /\
  (forall r g b : R,
      1 <= r -> g <= 0 -> 1 <= b -> rgb_to_hex [r; g; b] = Ok "#ff00ff") /\
  (forall result : ColourResult.t,
      Forall (fun channel => 0 <= channel <= 1)
             (vec3_list (ColourMetrics.rgb (ColourResult.metrics result))) ->
      List.length (rgb_int result) = 3%nat /\
      Forall (fun n => (0 <= n <= 255)%Z) (rgb_int result) /\
      rgb_to_hex (vec3_list (ColourMetrics.rgb (ColourResult.metrics result))) =
        Ok ("#" ++ String.concat "" (map two_hex_digits (rgb_int result)))%string).
Proof.
  split; [|split; [|split; [|split]]].
  - intros rgb H. destruct rgb as [|r [|g [|b extra]]]; cbn in H; try lia;
      eexists; reflexivity.
  - intros r g b extra. rewrite !rgb_to_hex_digits. reflexivity.
  - intros rgb h H.
    destruct rgb as [|r [|g [|b extra]]]; try discriminate H.
    rewrite rgb_to_hex_digits in H. injection H as <-.
    split; [reflexivity|]. cbn [map]. rewrite rgb_to_hex_digits.
    rewrite !clip_idem by lra. reflexivity.
  - intros r g b Hr Hg Hb. rewrite rgb_to_hex_digits.
    rewrite (clip_high r Hr), (clip_low g Hg), (clip_high b Hb). reflexivity.
  - intros result H. unfold rgb_int.
    destruct (ColourMetrics.rgb (ColourResult.metrics result)) as [[r g] b].
    cbn [vec3_list map] in *.
    inversion H as [|? ? Hr H1]; subst. inversion H1 as [|? ? Hg H2]; subst.
    inversion H2 as [|? ? Hb H3]; subst.
    split; [reflexivity|]. split.
    + repeat apply Forall_cons; try apply Forall_nil; apply py_round_range; lra.
    + rewrite rgb_to_hex_digits. rewrite !clip_id by assumption. reflexivity.
Qed.

Lemma rgb_to_hex_shape_and_rgb_int_witness :
  rgb_to_hex [2; -1; 1] = Ok "#ff00ff".
Proof.
  apply (proj1 (proj2 (proj2 (proj2 rgb_to_hex_shape_and_rgb_int))) 2 (-1) 1); lra.
Defined.

(* ------------------------------------------------------------------ *)
(** ** The two derived scores together *)

Lemma colour_distances_triple (r g b : R) :
  _compute_colour_distances [r; g; b] =
    ((51 * (r + g + b) - 40) / 113 * 100, (1 - (r + g + b) / 3) * 100).
Proof.
  unfold _compute_colour_distances, np_mean. cbn [map List.length].
  rewrite !np_sum_cons, np_sum_nil.
  replace (INR 3) with 3 by (simpl; lra).
  f_equal; field.
Qed.

(** X20: on three channels the two scores of [_compute_colour_distances]
    are tied by [decolouring = 100 - 153/113 * white_distance]; the
    decolouring score is 0 at the reference colour (68, 77, 55)/255 and
    negative exactly when the channel sum is below that of the reference;
    for channels between 0 and 1 the white distance lies between 0 and 100
    and the decolouring score between -4000/113 and 100, both extremes
    being reached at black and white. *)
Theorem colour_distances_tied_and_bounded :
  (forall r g b : R,
      fst (_compute_colour_distances [r; g; b]) =
        100 - 153 / 113 * snd (_compute_colour_distances [r; g; b])) /\
  fst (_compute_colour_distances [68 / 255; 77 / 255; 55 / 255]) = 0 /\
  (forall r g b : R,
      fst (_compute_colour_distances [r; g; b]) < 0 <->
      r + g + b < 68 / 255 + 77 / 255 + 55 / 255) /\
  (forall r g b : R,
      0 <= r <= 1 -> 0 <= g <= 1 -> 0 <= b <= 1 ->
      - (4000 / 113) <= fst (_compute_colour_distances [r; g; b]) <= 100 /\
      0 <= snd (_compute_colour_distances [r; g; b]) <= 100) /\
  _compute_colour_distances [0; 0; 0] = (- (4000 / 113), 100) /\
  _compute_colour_distances [1; 1; 1] = (100, 0).
Proof.
  split; [|split; [|split; [|split; [|split]]]].
  - intros r g b. rewrite colour_distances_triple. cbn [fst snd]. field.
  - rewrite colour_distances_triple. cbn [fst]. field.
  - intros r g b. rewrite colour_distances_triple. cbn [fst]. split; intros H; lra.
  - intros r g b Hr Hg Hb. rewrite colour_distances_triple. cbn [fst snd].
    split; split; lra.
  - rewrite colour_distances_triple. f_equal; field.
  - rewrite colour_distances_triple. f_equal; field.
Qed.

Lemma colour_distances_tied_and_bounded_witness :
  - (4000 / 113) <= fst (_compute_colour_distances [1 / 2; 0; 1]) <= 100 /\
  0 <= snd (_compute_colour_distances [1 / 2; 0; 1]) <= 100.
Proof.
  apply (proj1 (proj2 (proj2 (proj2 colour_distances_tied_and_bounded))) (1 / 2) 0 1); lra.
Defined.

(* ------------------------------------------------------------------ *)
(** ** Interpolation and integration *)

Lemma mapM_total {A B} (f : A -> B) (xs : list A) :
  mapM (fun x => Ok (f x)) xs = Ok (map f xs).
Proof.
  induction xs as [|x xs IH]; cbn [mapM map bind]; [reflexivity|].
  rewrite IH. reflexivity.
Qed.

Lemma np_interp_table (xs : array) (x0 f0 : R) (xp fp : array) :
  List.length fp = List.length xp ->
  np_interp xs (x0 :: xp) (f0 :: fp) =
    Ok (map (fun x => interp_value x x0 f0 (combine xp fp)) xs).
Proof.
  intros H. unfold np_interp. cbn [List.length]. rewrite H, Nat.eqb_refl.
  cbn [combine]. unfold interp1. apply mapM_total.
Qed.

Lemma interp_from_bounds (lo hi x : R) (rest : list (R * R)) :
  forall x0 f0 : R,
    x0 <= x -> lo <= f0 <= hi ->
    Sorted Rlt (x0 :: map fst rest) ->
    Forall (fun p => lo <= snd p <= hi) rest ->
    lo <= interp_from x x0 f0 rest <= hi.
Proof.
  induction rest as [|[x1 f1] rest IH]; intros x0 f0 Hx Hf Hs Hall; cbn [interp_from].
  - exact Hf.
  - cbn [map fst] in Hs. inversion Hs as [|? ? Hs' Hd]; subst.
    inversion Hd as [|? ? H01]; subst.
    inversion Hall as [|? ? Hf1 Hall']; subst. cbn [snd] in Hf1.
    destruct (Rle_dec x1 x) as [H1|H1].
    + apply IH; assumption.
    + assert (Hx1 : x < x1) by lra.
      set (t := (x - x0) / (x1 - x0)).
      assert (Ht : 0 <= t < 1).
      { unfold t. split.
        - apply Rmult_le_pos; [lra|]. left. apply Rinv_0_lt_compat. lra.
        - apply (Rmult_lt_reg_r (x1 - x0)); [lra|].
          unfold Rdiv. rewrite Rmult_assoc, Rinv_l by lra. lra. }
      replace ((f1 - f0) / (x1 - x0) * (x - x0) + f0) with (f0 + t * (f1 - f0))
        by (unfold t; field; lra).
      split; nra.
Qed.

Lemma interp_value_bounds (lo hi x x0 f0 : R) (rest : list (R * R)) :
  lo <= f0 <= hi ->
  Sorted Rlt (x0 :: map fst rest) ->
  Forall (fun p => lo <= snd p <= hi) rest ->
  lo <= interp_value x x0 f0 rest <= hi.
Proof.
  intros Hf Hs Hall. unfold interp_value.
  destruct (Rle_dec x x0) as [H|H]; [exact Hf|].
  apply interp_from_bounds; try assumption. lra.
Qed.

Lemma np_trapz_scale (k : R) (y x : array) :
  np_trapz (map (Rmult k) y) x = k * np_trapz y x.
Proof.
  revert x. induction y as [|y0 y IH]; intros x; [cbn; ring|].
  destruct y as [|y1 y]; [cbn; ring|].
  destruct x as [|x0 [|x1 x]]; try (cbn; ring).
  change (np_trapz (map (Rmult k) (y0 :: y1 :: y)) (x0 :: x1 :: x))
    with ((x1 - x0) * (k * y1 + k * y0) / 2 + np_trapz (map (Rmult k) (y1 :: y)) (x1 :: x)).
  rewrite IH.
  change (np_trapz (y0 :: y1 :: y) (x0 :: x1 :: x))
    with ((x1 - x0) * (y1 + y0) / 2 + np_trapz (y1 :: y) (x1 :: x)).
  field.
Qed.

Lemma np_trapz_nonneg (y x : array) :
  Sorted Rle x -> Forall (fun v => 0 <= v) y -> 0 <= np_trapz y x.
Proof.
  revert x. induction y as [|y0 y IH]; intros x Hs Hy; [cbn; lra|].
  destruct y as [|y1 y]; [cbn; lra|].
  destruct x as [|x0 [|x1 x]]; try (cbn; lra).
  change (np_trapz (y0 :: y1 :: y) (x0 :: x1 :: x))
    with ((x1 - x0) * (y1 + y0) / 2 + np_trapz (y1 :: y) (x1 :: x)).
  inversion Hs as [|? ? Hs' Hd]; subst. inversion Hd as [|? ? H01]; subst.
  inversion Hy as [|? ? Hy0 Hy']; subst. inversion Hy' as [|? ? Hy1 _]; subst.
  specialize (IH (x1 :: x) Hs' Hy'). nra.
Qed.

Lemma zip_with_scale (k : R) (p w : array) :
  zip_with Rmult (map (Rmult k) p) w = map (Rmult k) (zip_with Rmult p w).
Proof.
  revert w. induction p as [|a p IH]; intros [|b w]; cbn; try reflexivity.
  rewrite IH. f_equal. ring.
Qed.

Lemma zip_with_nonneg (p w : array) :
  Forall (fun v => 0 <= v) p -> Forall (fun v => 0 <= v) w ->
  Forall (fun v => 0 <= v) (zip_with Rmult p w).
Proof.
  intros Hp. revert w. induction Hp as [|a p Ha Hp IH]; intros w Hw; [constructor|].
  destruct w as [|b w]; [constructor|].
  inversion Hw; subst. cbn. constructor; [nra | apply IH; assumption].
Qed.

Lemma calculate_xyz_from_spd_table (spd : list (R * R)) (row : CieRow) (cie : list CieRow) :
  calculate_xyz_from_spd spd (row :: cie) =
    Ok (weighted_integral spd (fst (fst (fst row))) (snd (fst (fst row)))
          (combine (cie_wavelengths cie) (map (fun r => snd (fst (fst r))) cie)),
        weighted_integral spd (fst (fst (fst row))) (snd (fst row))
          (combine (cie_wavelengths cie) (map (fun r => snd (fst r)) cie)),
        weighted_integral spd (fst (fst (fst row))) (snd row)
          (combine (cie_wavelengths cie) (map (fun r => snd r) cie))).
Proof.
  unfold calculate_xyz_from_spd. cbn [map].
  rewrite !np_interp_table by (rewrite !length_map; reflexivity).
  cbn [bind]. reflexivity.
Qed.

Lemma np_trapz_app (y1 x1 : array) :
  List.length y1 = List.length x1 ->
  forall (a b : R) (y2 x2 : array),
    np_trapz (y1 ++ a :: y2) (x1 ++ b :: x2) =
      np_trapz (y1 ++ [a]) (x1 ++ [b]) + np_trapz (a :: y2) (b :: x2).
Proof.
  revert x1. induction y1 as [|c y1 IH]; intros [|d x1] Hlen a b y2 x2;
    try discriminate Hlen.
  - rewrite !app_nil_l. change (np_trapz [a] [b]) with 0. ring.
  - injection Hlen as Hlen.
    destruct y1 as [|e y1], x1 as [|f x1]; try discriminate Hlen.
    + rewrite <- !app_comm_cons, !app_nil_l.
      change (np_trapz (c :: a :: y2) (d :: b :: x2))
        with ((b - d) * (a + c) / 2 + np_trapz (a :: y2) (b :: x2)).
      change (np_trapz [c; a] [d; b]) with ((b - d) * (a + c) / 2 + 0).
      ring.
    + specialize (IH (f :: x1) Hlen a b y2 x2).
      change (np_trapz ((c :: e :: y1) ++ a :: y2) ((d :: f :: x1) ++ b :: x2))
        with ((f - d) * (e + c) / 2
              + np_trapz ((e :: y1) ++ a :: y2) ((f :: x1) ++ b :: x2)).
      change (np_trapz ((c :: e :: y1) ++ [a]) ((d :: f :: x1) ++ [b]))
        with ((f - d) * (e + c) / 2 + np_trapz ((e :: y1) ++ [a]) ((f :: x1) ++ [b])).
      rewrite IH. ring.
Qed.

Lemma np_trapz_rev (y x : array) :
  List.length y = List.length x ->
  np_trapz (List.rev y) (List.rev x) = - np_trapz y x.
Proof.
  revert x. induction y as [|y0 y IH]; intros [|x0 x] Hlen; try discriminate Hlen.
  - cbn. ring.
  - injection Hlen as Hlen.
    destruct y as [|y1 y], x as [|x1 x]; try discriminate Hlen.
    + cbn. ring.
    + specialize (IH (x1 :: x) Hlen).
      change (List.rev (y0 :: y1 :: y)) with (List.rev (y1 :: y) ++ [y0]).
      change (List.rev (x0 :: x1 :: x)) with (List.rev (x1 :: x) ++ [x0]).
      cbn [List.rev] in IH |- *. rewrite <- !app_assoc.
      rewrite <- !app_comm_cons, !app_nil_l.
      rewrite np_trapz_app by (rewrite !length_rev; injection Hlen as H; exact H).
      rewrite IH.
      change (np_trapz [y1; y0] [x1; x0]) with ((x0 - x1) * (y0 + y1) / 2 + 0).
      change (np_trapz (y0 :: y1 :: y) (x0 :: x1 :: x))
        with ((x1 - x0) * (y1 + y0) / 2 + np_trapz (y1 :: y) (x1 :: x)).
      lra.
Qed.

Lemma zip_with_rev {A B C} (f : A -> B -> C) (xs : list A) (ys : list B) :
  List.length xs = List.length ys ->
  zip_with f (List.rev xs) (List.rev ys) = List.rev (zip_with f xs ys).
Proof.
  revert ys. induction xs as [|x xs IH]; intros [|y ys] H; try discriminate H;
    [reflexivity|].
  injection H as H. cbn [List.rev zip_with].
  rewrite <- (IH ys H).
  assert (Hl : List.length (List.rev xs) = List.length (List.rev ys)) by (rewrite !length_rev; exact H).
  revert Hl. generalize (List.rev xs) (List.rev ys). clear.
  intros l. induction l as [|a l IH]; intros [|b m] Hl; try discriminate Hl; [reflexivity|].
  injection Hl as Hl. rewrite <- !app_comm_cons. cbn [zip_with].
  rewrite IH by exact Hl. reflexivity.
Qed.

Lemma zip_with_length {A B C} (f : A -> B -> C) (xs : list A) (ys : list B) :
  List.length xs = List.length ys -> List.length (zip_with f xs ys) = List.length xs.
Proof.
  revert ys. induction xs as [|x xs IH]; intros [|y ys] H; try discriminate H;
    [reflexivity|].
  injection H as H. cbn. f_equal. apply IH, H.
Qed.

Lemma weighted_integral_scale (k : R) (spd : list (R * R)) (x0 f0 : R)
    (rest : list (R * R)) :
  weighted_integral (scale_power k spd) x0 f0 rest = k * weighted_integral spd x0 f0 rest.
Proof.
  unfold weighted_integral, scale_power. rewrite !map_map. cbn [fst snd].
  rewrite <- np_trapz_scale, <- zip_with_scale, map_map. reflexivity.
Qed.

Lemma weighted_integral_rev (spd : list (R * R)) (x0 f0 : R) (rest : list (R * R)) :
  weighted_integral (List.rev spd) x0 f0 rest = - weighted_integral spd x0 f0 rest.
Proof.
  unfold weighted_integral. rewrite !map_rev.
  rewrite zip_with_rev by (rewrite !length_map; reflexivity).
  apply np_trapz_rev. rewrite zip_with_length; rewrite !length_map; reflexivity.
Qed.

Lemma weighted_integral_nonneg (spd : list (R * R)) (x0 f0 : R) (rest : list (R * R)) :
  Sorted Rle (map fst spd) ->
  Forall (fun p => 0 <= snd p) spd ->
  Sorted Rlt (x0 :: map fst rest) ->
  0 <= f0 -> Forall (fun p => 0 <= snd p) rest ->
  0 <= weighted_integral spd x0 f0 rest.
Proof.
  intros Hs Hp Ht Hf Hrest. unfold weighted_integral.
  apply np_trapz_nonneg; [exact Hs|].
  apply zip_with_nonneg.
  - rewrite Forall_map. exact Hp.
  - rewrite !Forall_map. rewrite Forall_forall. intros p _.
    set (hi := Rmax f0 (fold_right Rmax 0 (map snd rest))).
    assert (Hhi : forall q, In q rest -> snd q <= fold_right Rmax 0 (map snd rest)).
    { clear. induction rest as [|r rest IH]; intros q [].
      - subst. cbn. apply Rmax_l.
      - cbn. eapply Rle_trans; [apply IH; assumption | apply Rmax_r]. }
    apply (interp_value_bounds 0 hi).
    + split; [exact Hf | apply Rmax_l].
    + exact Ht.
    + rewrite Forall_forall in Hrest |- *. intros q Hq. split; [apply Hrest, Hq|].
      eapply Rle_trans; [apply Hhi, Hq | apply Rmax_r].
Qed.

Lemma calculate_xyz_total (spd : list (R * R)) (row : CieRow)
    (cie : list CieRow) :
  exists v, calculate_xyz_from_spd spd (row :: cie) = Ok v.
Proof. rewrite calculate_xyz_from_spd_table. eexists. reflexivity. Qed.

Lemma column_nonneg (f : CieRow -> R) (cie : list CieRow) :
  Forall (fun r => 0 <= f r) cie ->
  Forall (fun p : R * R => 0 <= snd p) (combine (cie_wavelengths cie) (map f cie)).
Proof.
  intros H. rewrite Forall_forall in H |- *. intros [w v] Hin. cbn [snd].
  apply in_combine_r in Hin. apply in_map_iff in Hin.
  destruct Hin as (r & <- & Hr). apply H, Hr.
Qed.

Lemma column_wavelengths (f : CieRow -> R) (cie : list CieRow) :
  map fst (combine (cie_wavelengths cie) (map f cie)) = cie_wavelengths cie.
Proof. apply map_fst_combine. unfold cie_wavelengths. rewrite !length_map. reflexivity. Qed.

(** X21: [calculate_xyz_from_spd] raises [IndexError] on an empty observer
    table and returns on any other; a distribution with fewer than two
    samples integrates to (0, 0, 0); multiplying every power by [k]
    multiplies the three values by [k]; listing the samples in the
    opposite order changes the sign of the three values; and for samples
    in ascending wavelength order with non-negative powers, against a
    table with strictly increasing wavelengths and non-negative weights,
    the three values are non-negative. *)
Theorem calculate_xyz_from_spd_integrates :
  (forall spd : list (R * R),
      exists msg, calculate_xyz_from_spd spd [] = Raise (IndexError msg)) /\
  (forall (spd : list (R * R)) (row : CieRow) (cie : list CieRow),
      exists v, calculate_xyz_from_spd spd (row :: cie) = Ok v) /\
  (forall (row : CieRow) (cie : list CieRow) (p : R * R),
      calculate_xyz_from_spd [] (row :: cie) = Ok (0, 0, 0) /\
      calculate_xyz_from_spd [p] (row :: cie) = Ok (0, 0, 0)) /\
  (forall (k : R) (spd : list (R * R)) (cie : list CieRow),
      calculate_xyz_from_spd (scale_power k spd) cie =
        (v <- calculate_xyz_from_spd spd cie ;; Ok (vec3_map (Rmult k) v))%py) /\
  (forall (spd : list (R * R)) (cie : list CieRow),
      calculate_xyz_from_spd (List.rev spd) cie =
        (v <- calculate_xyz_from_spd spd cie ;; Ok (vec3_map Ropp v))%py) /\
  (forall (spd : list (R * R)) (cie : list CieRow) (X Y Z : R),
      Sorted Rle (map fst spd) ->
      Forall (fun p => 0 <= snd p) spd ->
      Sorted Rlt (cie_wavelengths cie) ->
      Forall (fun r : CieRow => 0 <= snd (fst (fst r)) /\ 0 <= snd (fst r) /\ 0 <= snd r) cie ->
      calculate_xyz_from_spd spd cie = Ok (X, Y, Z) ->
      0 <= X /\ 0 <= Y /\ 0 <= Z).
Proof.
  split; [|split; [|split; [|split; [|split]]]].
  - intros spd. eexists. reflexivity.
  - intros spd row cie. rewrite calculate_xyz_from_spd_table. eexists. reflexivity.
  - intros row cie p. rewrite !calculate_xyz_from_spd_table. split; reflexivity.
  - intros k spd [|row cie]; [reflexivity|].
    rewrite !calculate_xyz_from_spd_table. cbn [bind vec3_map].
    rewrite !weighted_integral_scale. reflexivity.
  - intros spd [|row cie]; [reflexivity|].
    rewrite !calculate_xyz_from_spd_table. cbn [bind vec3_map].
    rewrite !weighted_integral_rev. reflexivity.
  - intros spd [|row cie] X Y Z Hs Hp Ht Hw H; [discriminate H|].
    rewrite calculate_xyz_from_spd_table in H. injection H as <- <- <-.
    inversion Hw as [|? ? (Hx & Hy & Hz) Hw']; subst.
    change (cie_wavelengths (row :: cie))
      with (fst (fst (fst row)) :: cie_wavelengths cie) in Ht.
    split; [|split]; apply weighted_integral_nonneg; try assumption;
      try (rewrite column_wavelengths; exact Ht).
    + apply (column_nonneg (fun r => snd (fst (fst r)))).
      eapply Forall_impl; [|exact Hw']. intros r (H1 & _ & _). exact H1.
    + apply (column_nonneg (fun r => snd (fst r))).
      eapply Forall_impl; [|exact Hw']. intros r (_ & H2 & _). exact H2.
    + apply (column_nonneg (fun r => snd r)).
      eapply Forall_impl; [|exact Hw']. intros r (_ & _ & H3). exact H3.
Qed.

Lemma calculate_xyz_flat_example :
  calculate_xyz_from_spd [(400, 1); (402, 1)] [(400, 1, 1 / 2, 0); (410, 1, 1 / 2, 0)] =
    Ok (2, 1, 0).
Proof.
  rewrite calculate_xyz_from_spd_table. unfold weighted_integral, interp_value.
  cbn [map fst snd zip_with combine cie_wavelengths interp_from np_trapz].
  destruct (Rle_dec 400 400) as [_|H]; [|exfalso; lra].
  destruct (Rle_dec 402 400) as [H|_]; [exfalso; lra|].
  destruct (Rle_dec 410 402) as [H|_]; [exfalso; lra|].
  f_equal. f_equal; [f_equal|]; field.
Qed.

Lemma calculate_xyz_from_spd_integrates_witness :
  (calculate_xyz_from_spd [(400, 1); (402, 1)] [(400, 1, 1 / 2, 0); (410, 1, 1 / 2, 0)] =
     Ok (2, 1, 0)) /\
  (0 <= 2 /\ 0 <= 1 /\ 0 <= 0).
Proof.
  split; [exact calculate_xyz_flat_example|].
  apply (proj2 (proj2 (proj2 (proj2 (proj2 calculate_xyz_from_spd_integrates))))
           [(400, 1); (402, 1)] [(400, 1, 1 / 2, 0); (410, 1, 1 / 2, 0)] 2 1 0).
  - cbn [map fst].
    apply Sorted_cons; [apply Sorted_cons; [apply Sorted_nil | apply HdRel_nil]|].
    apply HdRel_cons. lra.
  - apply Forall_cons; [cbn [snd]; lra|].
    apply Forall_cons; [cbn [snd]; lra | apply Forall_nil].
  - unfold cie_wavelengths. cbn [map fst].
    apply Sorted_cons; [apply Sorted_cons; [apply Sorted_nil | apply HdRel_nil]|].
    apply HdRel_cons. lra.
  - apply Forall_cons; [cbn [fst snd]; lra|].
    apply Forall_cons; [cbn [fst snd]; lra | apply Forall_nil].
  - exact calculate_xyz_flat_example.
Defined.

(* ------------------------------------------------------------------ *)
(** ** Colour of a detector reading *)

Lemma fold_left_Rmax_scale (k : R) (a : array) :
  0 <= k -> forall x : R,
  fold_left Rmax (map (Rmult k) a) (k * x) = k * fold_left Rmax a x.
Proof.
  intros Hk. induction a as [|y a IH]; intros x; cbn [map fold_left]; [reflexivity|].
  rewrite RmaxRmult by exact Hk. apply IH.
Qed.

Lemma np_max_scale (k : R) (a : array) (peak : R) :
  0 <= k -> np_max a = Ok peak -> np_max (map (Rmult k) a) = Ok (k * peak).
Proof.
  intros Hk H. destruct a as [|x a]; [discriminate H|].
  cbn [np_max map] in *. injection H as <-.
  rewrite fold_left_Rmax_scale by exact Hk. reflexivity.
Qed.

Lemma rgb_to_hex_vec3 (v : Vec3) :
  exists h, rgb_to_hex (vec3_list v) = Ok h /\ String.length h = 7%nat.
Proof.
  destruct v as [[r g] b]. cbn [vec3_list]. rewrite rgb_to_hex_digits.
  eexists. split; reflexivity.
Qed.

Lemma Reqb_false (x y : R) : x <> y -> Reqb x y = false.
Proof. intros H. unfold Reqb. destruct (Req_dec_T x y); [contradiction | reflexivity]. Qed.

Lemma Reqb_refl (x : R) : Reqb x x = true.
Proof. apply Reqb_eq. reflexivity. Qed.

Lemma calculate_xyz_from_spd_short (spd : list (R * R)) (row : CieRow) (cie : list CieRow) :
  (List.length spd < 2)%nat -> calculate_xyz_from_spd spd (row :: cie) = Ok (0, 0, 0).
Proof.
  intros H. rewrite calculate_xyz_from_spd_table.
  destruct spd as [|p [|q spd]]; [reflexivity | reflexivity | cbn in H; lia].
Qed.

Lemma paired_length (f : R -> R) (wavelengths counts : array) :
  List.length (combine wavelengths (map f counts)) =
  List.length (combine wavelengths counts).
Proof. rewrite !length_combine, length_map. reflexivity. Qed.

(** X22: [process_data_and_get_color] raises [RuntimeError] without the
    colour package, [IndexError] when given fewer than two rows or an
    empty observer table, and [ValueError] when the second row is empty.
    When the maximum of the second row is not zero and the observer table
    is not empty it returns the sRGB value of the integrated XYZ together
    with its seven-character hex string, and multiplying the second row by
    a positive factor changes nothing.  When the maximum is zero the
    division yields infinities or NaN: with an observer table and at least
    two paired samples these reach the integral and no result within the
    reals exists; with fewer paired samples the integral is 0 and the
    colour of XYZ = (0, 0, 0) is returned. *)
Theorem process_data_normalises_to_the_peak :
  (forall (default_cie : list CieRow) (data : list array) (cie_data : option (list CieRow)),
      process_data_and_get_color None default_cie data cie_data =
        Finite (Raise colour_missing)) /\
  (forall (colour : Colour) (default_cie : list CieRow) (cie_data : option (list CieRow))
          (wavelengths : array),
      (exists msg, process_data_and_get_color (Some colour) default_cie [] cie_data
                   = Finite (Raise (IndexError msg))) /\
      (exists msg, process_data_and_get_color (Some colour) default_cie [wavelengths] cie_data
                   = Finite (Raise (IndexError msg)))) /\
  (forall (colour : Colour) (default_cie : list CieRow) (cie_data : option (list CieRow))
          (wavelengths : array) (rest : list array),
      exists msg, process_data_and_get_color (Some colour) default_cie
                    (wavelengths :: [] :: rest) cie_data = Finite (Raise (ValueError msg))) /\
  (forall (colour : Colour) (default_cie : list CieRow) (wavelengths counts : array)
          (rest : list array) (peak : R),
      np_max counts = Ok peak ->
      exists msg, process_data_and_get_color (Some colour) default_cie
                    (wavelengths :: counts :: rest) (Some []) = Finite (Raise (IndexError msg))) /\
  (forall (colour : Colour) (default_cie : list CieRow) (wavelengths counts : array)
          (rest : list array) (row : CieRow) (table : list CieRow) (peak : R),
      np_max counts = Ok peak -> peak <> 0 ->
      exists (xyz : Vec3) (hex : string),
        calculate_xyz_from_spd (combine wavelengths (map (fun a => a / peak) counts))
          (row :: table) = Ok xyz /\
        rgb_to_hex (vec3_list (XYZ_to_sRGB colour xyz)) = Ok hex /\
        String.length hex = 7%nat /\
        process_data_and_get_color (Some colour) default_cie
          (wavelengths :: counts :: rest) (Some (row :: table)) =
          Finite (Ok (XYZ_to_sRGB colour xyz, hex))) /\
  (forall (colour : Colour) (default_cie : list CieRow) (wavelengths counts : array)
          (rest : list array) (row : CieRow) (table : list CieRow),
      np_max counts = Ok 0 ->
      (2 <= List.length (combine wavelengths counts))%nat ->
      process_data_and_get_color (Some colour) default_cie
        (wavelengths :: counts :: rest) (Some (row :: table)) = NonFinite) /\
  (forall (colour : Colour) (default_cie : list CieRow) (wavelengths counts : array)
          (rest : list array) (row : CieRow) (table : list CieRow),
      np_max counts = Ok 0 ->
      (List.length (combine wavelengths counts) < 2)%nat ->
      exists hex : string,
        rgb_to_hex (vec3_list (XYZ_to_sRGB colour (0, 0, 0))) = Ok hex /\
        process_data_and_get_color (Some colour) default_cie
          (wavelengths :: counts :: rest) (Some (row :: table)) =
          Finite (Ok (XYZ_to_sRGB colour (0, 0, 0), hex))) /\
  (forall (colour : Colour) (default_cie : list CieRow) (cie_data : option (list CieRow))
          (wavelengths counts : array) (rest : list array) (k peak : R),
      0 < k -> np_max counts = Ok peak -> peak <> 0 ->
      process_data_and_get_color (Some colour) default_cie
        (wavelengths :: map (Rmult k) counts :: rest) cie_data =
      process_data_and_get_color (Some colour) default_cie
        (wavelengths :: counts :: rest) cie_data).
Proof.
  split; [reflexivity|]. split; [|split; [|split; [|split; [|split; [|split]]]]].
  - intros. split; eexists; reflexivity.
  - intros. eexists. reflexivity.
  - intros colour default_cie wavelengths counts rest peak Hpeak.
    unfold process_data_and_get_color. rewrite Hpeak.
    cbn [List.length Nat.eqb negb]. rewrite andb_false_r.
    eexists. reflexivity.
  - intros colour default_cie wavelengths counts rest row table peak Hpeak Hnz.
    unfold process_data_and_get_color. rewrite Hpeak.
    rewrite (Reqb_false peak 0 Hnz). cbn [andb].
    destruct (calculate_xyz_total
                (combine wavelengths (map (fun a => a / peak) counts)) row table)
      as [xyz Hxyz].
    destruct (rgb_to_hex_vec3 (XYZ_to_sRGB colour xyz)) as (hex & Hhex & Hlen).
    exists xyz, hex. rewrite Hxyz. cbn [bind]. rewrite Hhex. cbn [bind]. auto.
  - intros colour default_cie wavelengths counts rest row table Hpeak Hlen.
    unfold process_data_and_get_color. rewrite Hpeak, Reqb_refl, paired_length.
    apply Nat.leb_le in Hlen. rewrite Hlen. reflexivity.
  - intros colour default_cie wavelengths counts rest row table Hpeak Hlen.
    unfold process_data_and_get_color. rewrite Hpeak, Reqb_refl, paired_length.
    assert (Hleb : (2 <=? List.length (combine wavelengths counts))%nat = false)
      by (apply Nat.leb_gt; exact Hlen).
    rewrite Hleb. cbn [andb].
    rewrite calculate_xyz_from_spd_short by (rewrite paired_length; exact Hlen).
    cbn [bind].
    destruct (rgb_to_hex_vec3 (XYZ_to_sRGB colour (0, 0, 0))) as (hex & Hhex & _).
    exists hex. rewrite Hhex. cbn [bind]. auto.
  - intros colour default_cie cie_data wavelengths counts rest k peak Hk Hpeak Hnz.
    unfold process_data_and_get_color.
    rewrite (np_max_scale k counts peak (Rlt_le _ _ Hk) Hpeak), Hpeak.
    assert (Hkp : k * peak <> 0) by (apply Rmult_integral_contrapositive_currified; lra).
    rewrite (Reqb_false _ 0 Hkp), (Reqb_false _ 0 Hnz). cbn [andb].
    rewrite map_map.
    rewrite (map_ext (fun x => k * x / (k * peak)) (fun a => a / peak));
      [reflexivity|].
    intros a. field. split; lra.
Qed.

Lemma process_data_normalises_to_the_peak_witness :
  process_data_and_get_color (Some grey_colour) [] [[400; 402]; map (Rmult 3) [1; 2]] None =
  process_data_and_get_color (Some grey_colour) [] [[400; 402]; [1; 2]] None /\
  process_data_and_get_color (Some grey_colour) [] [[400; 500]; [0; 0]]
    (Some [(400, 1, 1 / 2, 0)]) = NonFinite.
Proof.
  split.
  - apply (proj2 (proj2 (proj2 (proj2 (proj2 (proj2 (proj2
             process_data_normalises_to_the_peak))))))
             grey_colour [] None [400; 402] [1; 2] [] 3 2).
    + lra.
    + cbn [np_max fold_left]. f_equal. apply Rmax_right. lra.
    + lra.
  - apply (proj1 (proj2 (proj2 (proj2 (proj2 (proj2
             process_data_normalises_to_the_peak)))))
             grey_colour [] [400; 500] [0; 0] [] (400, 1, 1 / 2, 0) []).
    + cbn [np_max fold_left]. f_equal. apply Rmax_left. lra.
    + cbn. lia.
Defined.

(* ------------------------------------------------------------------ *)
(** ** Adaptation and conversion matrices *)

Lemma mat_vec_mul (a b : Mat3) (v : Vec3) :
  mat_vec (mat_mul a b) v = mat_vec a (mat_vec b v).
Proof.
  destruct a as [[[[a11 a12] a13] [[a21 a22] a23]] [[a31 a32] a33]].
  destruct b as [[[[b11 b12] b13] [[b21 b22] b23]] [[b31 b32] b33]].
  destruct v as [[v1 v2] v3].
  unfold mat_vec, mat_mul, column, dot3. by_components; ring.
Qed.

Lemma mat_mul_assoc (a b c : Mat3) :
  mat_mul (mat_mul a b) c = mat_mul a (mat_mul b c).
Proof.
  destruct a as [[[[a11 a12] a13] [[a21 a22] a23]] [[a31 a32] a33]].
  destruct b as [[[[b11 b12] b13] [[b21 b22] b23]] [[b31 b32] b33]].
  destruct c as [[[[c11 c12] c13] [[c21 c22] c23]] [[c31 c32] c33]].
  unfold mat_mul, column, dot3. by_components; ring.
Qed.

Lemma mat_mul_identity_l (a : Mat3) : mat_mul identity3 a = a.
Proof.
  destruct a as [[[[a11 a12] a13] [[a21 a22] a23]] [[a31 a32] a33]].
  unfold mat_mul, identity3, column, dot3. by_components; ring.
Qed.

Lemma mat_mul_identity_r (a : Mat3) : mat_mul a identity3 = a.
Proof.
  destruct a as [[[[a11 a12] a13] [[a21 a22] a23]] [[a31 a32] a33]].
  unfold mat_mul, identity3, column, dot3. by_components; ring.
Qed.

Lemma mat_vec_identity (v : Vec3) : mat_vec identity3 v = v.
Proof.
  destruct v as [[v1 v2] v3]. unfold mat_vec, identity3, dot3. by_components; ring.
Qed.

Lemma inv3_regular (m mi : Mat3) : inv3 m = Ok mi -> det3 m <> 0.
Proof.
  destruct m as [[[[a b] c] [[d e] f]] [[g h] i]]. unfold inv3.
  destruct (Req_dec_T _ 0) as [H|H]; [discriminate | intros _; exact H].
Qed.

Lemma inv3_mul_l (m mi : Mat3) : inv3 m = Ok mi -> mat_mul mi m = identity3.
Proof.
  intros H. pose proof (inv3_regular m mi H) as Hd. revert H Hd.
  destruct m as [[[[a b] c] [[d e] f]] [[g h] i]]. unfold inv3.
  destruct (Req_dec_T _ 0) as [H0|H0]; [discriminate|].
  intros [= <-] _. unfold det3 in H0.
  unfold mat_mul, identity3, column, dot3, det3. by_components; field; exact H0.
Qed.

Lemma inv3_mul_r (m mi : Mat3) : inv3 m = Ok mi -> mat_mul m mi = identity3.
Proof.
  intros H. pose proof (inv3_regular m mi H) as Hd. revert H Hd.
  destruct m as [[[[a b] c] [[d e] f]] [[g h] i]]. unfold inv3.
  destruct (Req_dec_T _ 0) as [H0|H0]; [discriminate|].
  intros [= <-] _. unfold det3 in H0.
  unfold mat_mul, identity3, column, dot3, det3. by_components; field; exact H0.
Qed.

Lemma cone_matrix_regular : det3 cone_matrix <> 0.
Proof. unfold det3, cone_matrix. lra. Qed.

Lemma M_sRGB_to_XYZ_regular : det3 M_sRGB_to_XYZ <> 0.
Proof. unfold det3, M_sRGB_to_XYZ. lra. Qed.

Lemma inv3_total (m : Mat3) : det3 m <> 0 -> exists mi, inv3 m = Ok mi.
Proof.
  intros H. destruct m as [[[[a b] c] [[d e] f]] [[g h] i]]. unfold inv3.
  destruct (Req_dec_T _ 0) as [H0|H0]; [contradiction | eexists; reflexivity].
Qed.

Lemma as_vec3_list (v : Vec3) : as_vec3 (vec3_list v) = Ok v.
Proof. destruct v as [[x y] z]. reflexivity. Qed.

Lemma as_vec3_shape (v : array) :
  List.length v <> 3%nat -> exists msg, as_vec3 v = Raise (ValueError msg).
Proof.
  intros H. destruct v as [|x [|y [|z [|t v]]]]; try (eexists; reflexivity).
  exfalso. apply H. reflexivity.
Qed.

Lemma chromatic_adaptation_matrix_unfold :
  exists Minv : Mat3,
    inv3 cone_matrix = Ok Minv /\
    forall s t : Vec3,
      chromatic_adaptation_matrix (vec3_list s) (vec3_list t) =
        Ok (mat_mul (mat_mul Minv
                       (diag3 (vec3_div (mat_vec cone_matrix t) (mat_vec cone_matrix s))))
                    cone_matrix).
Proof.
  destruct (inv3_total cone_matrix cone_matrix_regular) as [Minv H].
  exists Minv. split; [exact H|]. intros s t.
  unfold chromatic_adaptation_matrix. rewrite !as_vec3_list. cbn [bind].
  rewrite H. reflexivity.
Qed.

Lemma diag3_div_apply (u v : Vec3) :
  (let '(v1, v2, v3) := v in v1 <> 0 /\ v2 <> 0 /\ v3 <> 0) ->
  mat_vec (diag3 (vec3_div u v)) v = u.
Proof.
  destruct u as [[u1 u2] u3], v as [[v1 v2] v3]. intros (H1 & H2 & H3).
  unfold mat_vec, diag3, vec3_div, dot3. by_components; field; assumption.
Qed.

Lemma diag3_div_self (v : Vec3) :
  (let '(v1, v2, v3) := v in v1 <> 0 /\ v2 <> 0 /\ v3 <> 0) ->
  diag3 (vec3_div v v) = identity3.
Proof.
  destruct v as [[v1 v2] v3]. intros (H1 & H2 & H3).
  unfold diag3, vec3_div, identity3. by_components; try reflexivity; field; assumption.
Qed.

Lemma diag3_div_chain (u v w : Vec3) :
  (let '(v1, v2, v3) := v in v1 <> 0 /\ v2 <> 0 /\ v3 <> 0) ->
  (let '(w1, w2, w3) := w in w1 <> 0 /\ w2 <> 0 /\ w3 <> 0) ->
  mat_mul (diag3 (vec3_div u v)) (diag3 (vec3_div v w)) = diag3 (vec3_div u w).
Proof.
  destruct u as [[u1 u2] u3], v as [[v1 v2] v3], w as [[w1 w2] w3].
  intros (H1 & H2 & H3) (G1 & G2 & G3).
  unfold mat_mul, diag3, vec3_div, column, dot3.
  by_components; field; auto.
Qed.

Lemma Ok_inj {A} (a b : A) : Ok a = Ok b -> a = b.
Proof. intros H. injection H as H. exact H. Qed.

(** X23: [chromatic_adaptation_matrix] raises [ValueError] unless both
    white points have three components, and returns a matrix otherwise.
    When no cone response of the source white is zero, the matrix maps
    the source white to the target white and is the identity for equal
    whites; adapting from [a] to [b] and then from [b] to [c] is adapting
    from [a] to [c]. *)
Theorem chromatic_adaptation_maps_white_to_white :
  (forall source_wp target_wp : array,
      List.length source_wp <> 3%nat \/ List.length target_wp <> 3%nat ->
      exists msg, chromatic_adaptation_matrix source_wp target_wp = Raise (ValueError msg)) /\
  (forall s t : Vec3,
      exists A, chromatic_adaptation_matrix (vec3_list s) (vec3_list t) = Ok A) /\
  (forall (s t : Vec3) (A : Mat3),
      cones_nonzero s ->
      chromatic_adaptation_matrix (vec3_list s) (vec3_list t) = Ok A ->
      mat_vec A s = t) /\
  (forall (s : Vec3) (A : Mat3),
      cones_nonzero s ->
      chromatic_adaptation_matrix (vec3_list s) (vec3_list s) = Ok A ->
      A = identity3) /\
  (forall (a b c : Vec3) (Aab Abc Aac : Mat3),
      cones_nonzero a -> cones_nonzero b ->
      chromatic_adaptation_matrix (vec3_list a) (vec3_list b) = Ok Aab ->
      chromatic_adaptation_matrix (vec3_list b) (vec3_list c) = Ok Abc ->
      chromatic_adaptation_matrix (vec3_list a) (vec3_list c) = Ok Aac ->
      mat_mul Abc Aab = Aac).
Proof.
  destruct chromatic_adaptation_matrix_unfold as (Minv & Hinv & Hcam).
  pose proof (inv3_mul_l cone_matrix Minv Hinv) as Hl.
  pose proof (inv3_mul_r cone_matrix Minv Hinv) as Hr.
  split; [|split; [|split; [|split]]].
  - intros source_wp target_wp H. unfold chromatic_adaptation_matrix.
    destruct (Nat.eq_dec (List.length source_wp) 3) as [Hs|Hs].
    + destruct H as [H|H]; [contradiction|].
      destruct source_wp as [|x [|y [|z [|u v]]]]; try discriminate Hs.
      cbn [as_vec3 bind]. destruct (as_vec3_shape target_wp H) as [msg ->].
      exists msg. reflexivity.
    + destruct (as_vec3_shape source_wp Hs) as [msg ->]. exists msg. reflexivity.
  - intros s t. rewrite Hcam. eexists. reflexivity.
  - intros s t A Hs H. rewrite Hcam in H. apply Ok_inj in H. subst A.
    rewrite !mat_vec_mul. rewrite diag3_div_apply by exact Hs.
    rewrite <- mat_vec_mul, Hl. apply mat_vec_identity.
  - intros s A Hs H. rewrite Hcam in H. apply Ok_inj in H. subst A.
    rewrite diag3_div_self by exact Hs. rewrite mat_mul_identity_r. exact Hl.
  - intros a b c Aab Abc Aac Ha Hb Hab Hbc Hac.
    rewrite Hcam in Hab, Hbc, Hac.
    apply Ok_inj in Hab, Hbc, Hac. subst Aab Abc Aac.
    set (Dbc := diag3 (vec3_div (mat_vec cone_matrix c) (mat_vec cone_matrix b))).
    set (Dab := diag3 (vec3_div (mat_vec cone_matrix b) (mat_vec cone_matrix a))).
    rewrite (mat_mul_assoc (mat_mul Minv Dbc) cone_matrix).
    rewrite <- (mat_mul_assoc cone_matrix (mat_mul Minv Dab) cone_matrix).
    rewrite <- (mat_mul_assoc cone_matrix Minv Dab).
    rewrite Hr, mat_mul_identity_l.
    rewrite (mat_mul_assoc Minv Dbc), <- (mat_mul_assoc Dbc Dab cone_matrix).
    unfold Dbc, Dab. rewrite diag3_div_chain by assumption.
    rewrite <- mat_mul_assoc. reflexivity.
Qed.

Lemma chromatic_adaptation_maps_white_to_white_witness :
  exists A : Mat3,
    chromatic_adaptation_matrix [1; 1; 1] [1; 1; 1] = Ok A /\ A = identity3.
Proof.
  destruct (proj1 (proj2 chromatic_adaptation_maps_white_to_white) (1, 1, 1) (1, 1, 1))
    as [A HA].
  exists A. split; [exact HA|].
  apply (proj1 (proj2 (proj2 (proj2 chromatic_adaptation_maps_white_to_white)))
           (1, 1, 1) A).
  - unfold cones_nonzero, mat_vec, cone_matrix, dot3. repeat split; lra.
  - exact HA.
Defined.

Lemma det3_div (m : Mat3) (t : R) :
  t <> 0 -> det3 (mat_map (fun c => c / t) m) = det3 m / (t * t * t).
Proof.
  intros Ht. destruct m as [[[[a b] c] [[d e] f]] [[g h] i]].
  unfold det3, mat_map, vec3_map. field. exact Ht.
Qed.

Lemma inv3_div (m mi : Mat3) (t : R) :
  t <> 0 -> inv3 m = Ok mi ->
  inv3 (mat_map (fun c => c / t) m) = Ok (mat_scale t mi).
Proof.
  intros Ht H. pose proof (inv3_regular m mi H) as Hd.
  pose proof (det3_div m t Ht) as Hdiv.
  destruct m as [[[[a b] c] [[d e] f]] [[g h] i]].
  unfold inv3 in H. destruct (Req_dec_T _ 0) as [H0|_]; [contradiction|].
  apply Ok_inj in H. subst mi.
  cbn [mat_map vec3_map] in Hdiv |- *. unfold inv3.
  destruct (Req_dec_T _ 0) as [H0|H0].
  - exfalso. rewrite Hdiv in H0.
    apply Hd. apply (Rmult_eq_reg_r (/ (t * t * t))).
    + rewrite Rmult_0_l. exact H0.
    + apply Rinv_neq_0_compat. repeat apply Rmult_integral_contrapositive_currified; exact Ht.
  - apply f_equal. unfold mat_scale, mat_map, vec3_map.
    unfold det3 in Hd, H0 |- *.
    by_components; field; (split; [exact Hd | exact Ht]).
Qed.

Lemma mat_vec_scale (k : R) (m : Mat3) (v : Vec3) :
  mat_vec (mat_scale k m) v = vec3_map (Rmult k) (mat_vec m v).
Proof.
  destruct m as [[[[a b] c] [[d e] f]] [[g h] i]], v as [[v1 v2] v3].
  unfold mat_vec, mat_scale, mat_map, vec3_map, dot3. by_components; ring.
Qed.

(** X24: [xyz_to_rgb_conversion_matrix] raises [ValueError] unless [xyz]
    has three components.  When the components of the adapted colour do
    not sum to zero, it returns the inverse of the sRGB matrix multiplied
    by that sum: applied to the XYZ value of an rgb triple it gives the
    triple times the sum; with the identity as adaptation the sum is
    X + Y + Z. *)
Theorem xyz_to_rgb_conversion_matrix_is_scaled_inverse :
  (forall (xyz : array) (adaptation_matrix : Mat3),
      List.length xyz <> 3%nat ->
      exists msg, xyz_to_rgb_conversion_matrix xyz adaptation_matrix
                  = Raise (ValueError msg)) /\
  (exists Minv : Mat3,
      inv3 M_sRGB_to_XYZ = Ok Minv /\
      forall (xyz : Vec3) (adaptation_matrix : Mat3),
        let total := np_sum (vec3_list (mat_vec adaptation_matrix xyz)) in
        total <> 0 ->
        xyz_to_rgb_conversion_matrix (vec3_list xyz) adaptation_matrix
          = Ok (mat_scale total Minv)) /\
  (forall (xyz : Vec3) (adaptation_matrix conversion : Mat3) (rgb : Vec3),
      let total := np_sum (vec3_list (mat_vec adaptation_matrix xyz)) in
      total <> 0 ->
      xyz_to_rgb_conversion_matrix (vec3_list xyz) adaptation_matrix = Ok conversion ->
      mat_vec conversion (mat_vec M_sRGB_to_XYZ rgb) = vec3_map (Rmult total) rgb) /\
  (forall X Y Z : R,
      np_sum (vec3_list (mat_vec identity3 (X, Y, Z))) = X + Y + Z).
Proof.
  destruct (inv3_total M_sRGB_to_XYZ M_sRGB_to_XYZ_regular) as [Minv Hinv].
  assert (Hgen : forall (xyz : Vec3) (adaptation_matrix : Mat3),
             let total := np_sum (vec3_list (mat_vec adaptation_matrix xyz)) in
             total <> 0 ->
             xyz_to_rgb_conversion_matrix (vec3_list xyz) adaptation_matrix
               = Ok (mat_scale total Minv)).
  { intros xyz adaptation_matrix total Ht.
    unfold xyz_to_rgb_conversion_matrix. rewrite as_vec3_list. cbn [bind].
    fold total. apply inv3_div; [exact Ht | exact Hinv]. }
  split; [|split; [|split]].
  - intros xyz adaptation_matrix H. unfold xyz_to_rgb_conversion_matrix.
    destruct (as_vec3_shape xyz H) as [msg ->]. exists msg. reflexivity.
  - exists Minv. split; [exact Hinv | exact Hgen].
  - intros xyz adaptation_matrix conversion rgb total Ht H.
    rewrite (Hgen xyz adaptation_matrix Ht) in H. apply Ok_inj in H. subst conversion.
    fold total. rewrite mat_vec_scale, <- mat_vec_mul.
    rewrite (inv3_mul_l M_sRGB_to_XYZ Minv Hinv), mat_vec_identity. reflexivity.
  - intros X Y Z. rewrite mat_vec_identity. cbn [vec3_list].
    rewrite !np_sum_cons, np_sum_nil. ring.
Qed.

Lemma xyz_to_rgb_conversion_matrix_is_scaled_inverse_witness :
  exists conversion : Mat3,
    xyz_to_rgb_conversion_matrix [1; 1; 1] identity3 = Ok conversion /\
    mat_vec conversion (mat_vec M_sRGB_to_XYZ (1, 0, 0)) =
      vec3_map (Rmult (np_sum (vec3_list (mat_vec identity3 (1, 1, 1))))) (1, 0, 0).
Proof.
  assert (Hsum : np_sum (vec3_list (mat_vec identity3 (1, 1, 1))) <> 0).
  { rewrite mat_vec_identity. cbn [vec3_list]. rewrite !np_sum_cons, np_sum_nil. lra. }
  destruct (proj1 (proj2 xyz_to_rgb_conversion_matrix_is_scaled_inverse))
    as (Minv & _ & Hall).
  exists (mat_scale (np_sum (vec3_list (mat_vec identity3 (1, 1, 1)))) Minv).
  pose proof (Hall (1, 1, 1) identity3 Hsum) as H.
  split; [exact H|].
  exact (proj1 (proj2 (proj2 xyz_to_rgb_conversion_matrix_is_scaled_inverse))
           (1, 1, 1) identity3 _ (1, 0, 0) Hsum H).
Defined.

(* ------------------------------------------------------------------ *)
(** ** Inline sample spectra *)

Lemma string_of_uint_inj (d d' : Decimal.uint) :
  DecimalString.NilEmpty.string_of_uint d = DecimalString.NilEmpty.string_of_uint d' ->
  d = d'.
Proof.
  intros H. pose proof (DecimalString.NilEmpty.usu d) as Hd.
  rewrite H, DecimalString.NilEmpty.usu in Hd. injection Hd as Hd. symmetry. exact Hd.
Qed.

Lemma format_02d_inj (i j : nat) : format_02d i = format_02d j -> i = j.
Proof.
  assert (Hpad : forall a b : nat,
             ("0" ++ DecimalString.NilEmpty.string_of_uint (Nat.to_uint a))%string =
             DecimalString.NilEmpty.string_of_uint (Nat.to_uint b) -> a = b).
  { intros a b H.
    change ("0" ++ DecimalString.NilEmpty.string_of_uint (Nat.to_uint a))%string
      with (DecimalString.NilEmpty.string_of_uint (Decimal.D0 (Nat.to_uint a))) in H.
    apply string_of_uint_inj in H.
    rewrite <- (DecimalNat.Unsigned.of_to b), <- H.
    change (Nat.of_uint (Decimal.D0 (Nat.to_uint a))) with (Nat.of_uint (Nat.to_uint a)).
    symmetry. apply DecimalNat.Unsigned.of_to. }
  unfold format_02d. cbv zeta.
  destruct (String.length (DecimalString.NilEmpty.string_of_uint (Nat.to_uint i)) <? 2)%nat;
    destruct (String.length (DecimalString.NilEmpty.string_of_uint (Nat.to_uint j)) <? 2)%nat;
    intros H.
  - injection H as H. apply DecimalNat.Unsigned.to_uint_inj, string_of_uint_inj, H.
  - apply Hpad, H.
  - symmetry. apply Hpad. symmetry. exact H.
  - apply DecimalNat.Unsigned.to_uint_inj, string_of_uint_inj, H.
Qed.

Lemma sample_name_inj (i j : nat) : sample_name i = sample_name j -> i = j.
Proof.
  unfold sample_name. intros H.
  apply format_02d_inj.
  cbn [String.append] in H. injection H as H. exact H.
Qed.

Lemma add_samples_keys (samples : list (array * array)) :
  forall (index : nat) (c : DatasetCollection) (k : string),
    In k (dict_keys (entries (add_samples index samples c))) <->
    In k (dict_keys (entries c)) \/
    exists j, (j < List.length samples)%nat /\ k = sample_name (index + j).
Proof.
  induction samples as [|sample rest IH]; intros index c k; cbn [add_samples List.length].
  - split; [auto|]. intros [H|(j & Hj & _)]; [exact H | lia].
  - rewrite IH. unfold add. cbn [entries]. rewrite dict_keys_set_iff. split.
    + intros [[H| ->]|(j & Hj & ->)].
      * left. exact H.
      * right. exists 0%nat. split; [lia | f_equal; lia].
      * right. exists (S j). split; [lia | f_equal; lia].
    + intros [H|(j & Hj & ->)].
      * left. left. exact H.
      * destruct j as [|j].
        -- left. right. f_equal. lia.
        -- right. exists j. split; [lia | f_equal; lia].
Qed.

Lemma add_samples_other (samples : list (array * array)) :
  forall (index : nat) (c : DatasetCollection) (k : string),
    (forall j, (j < List.length samples)%nat -> k <> sample_name (index + j)) ->
    dict_get string_dec k (entries (add_samples index samples c)) =
    dict_get string_dec k (entries c).
Proof.
  induction samples as [|sample rest IH]; intros index c k H; cbn [add_samples];
    [reflexivity|].
  rewrite IH.
  - unfold add. cbn [entries]. apply dict_get_set_other.
    specialize (H 0%nat). rewrite Nat.add_0_r in H. apply H. cbn. lia.
  - intros j Hj. replace (S index + j)%nat with (index + S j)%nat by lia.
    apply H. cbn. lia.
Qed.

Lemma add_samples_get (samples : list (array * array)) :
  forall (index : nat) (c : DatasetCollection) (j : nat) (sample : array * array),
    nth_error samples j = Some sample ->
    dict_get string_dec (sample_name (index + j)) (entries (add_samples index samples c)) =
    Some (inline_entry sample).
Proof.
  induction samples as [|first rest IH]; intros index c j sample H;
    [destruct j; discriminate H|].
  cbn [add_samples]. destruct j as [|j]; cbn [nth_error] in H.
  - injection H as ->. rewrite add_samples_other.
    + rewrite Nat.add_0_r. unfold add. cbn [entries]. apply dict_get_set_same.
    + intros j _ E. apply sample_name_inj in E. lia.
  - replace (index + S j)%nat with (S index + j)%nat by lia. apply IH, H.
Qed.

Lemma add_samples_again (samples : list (array * array)) :
  forall (index : nat) (c : DatasetCollection),
    (forall j sample, nth_error samples j = Some sample ->
        dict_get string_dec (sample_name (index + j)) (entries c) = Some (inline_entry sample)) ->
    add_samples index samples c = c.
Proof.
  induction samples as [|first rest IH]; intros index c H; cbn [add_samples];
    [reflexivity|].
  assert (Hc : add c (sample_name index) (inline_record first) "absorbance"
                 [("source", "inline")] = c).
  { destruct c as [items]. unfold add. cbn [entries]. f_equal.
    apply dict_set_id. specialize (H 0%nat first eq_refl).
    rewrite Nat.add_0_r in H. exact H. }
  rewrite Hc. apply IH. intros j sample Hj.
  replace (S index + j)%nat with (index + S j)%nat by lia. apply H. exact Hj.
Qed.

Lemma load_sample_spectra_spec (samples : list (array * array)) (w : World) :
  load_sample_spectra samples w =
    _build_averaged_dataset
      {| self := set_all_data (add_samples 1 samples (all_data (self w))) (self w);
         logged := logged w |}.
Proof. reflexivity. Qed.

Lemma build_averaged_frame (w : World) :
  let w' := snd (_build_averaged_dataset w) in
  config (self w') = config (self w) /\
  raw_collections (self w') = raw_collections (self w) /\
  all_data (self w') = all_data (self w) /\
  groups (self w') = groups (self w) /\
  results (self w') = results (self w) /\
  logged w' = logged w.
Proof.
  rewrite build_averaged_spec.
  destruct (entries (all_data (self w))); [cbn; auto 10|].
  destruct (averaged (all_data (self w)) "#"); cbn; auto 10.
Qed.

(** X25: [load_sample_spectra] stores the inline spectra in the pooled
    collection under the names [sample_01], [sample_02], ... in list
    order, each as an absorbance entry whose transmittances are
    [10 ** (-A)] and whose metadata names the source [inline]; entries
    under other names are kept, and the configuration, the raw
    collections, the groups, the results and the log are left alone,
    also when the averaging that follows raises.  A second call after a
    successful one changes nothing. *)
Theorem load_sample_spectra_adds_numbered_entries :
  forall (samples : list (array * array)) (w : World),
    let w1 := snd (load_sample_spectra samples w) in
    (config (self w1) = config (self w) /\
     raw_collections (self w1) = raw_collections (self w) /\
     groups (self w1) = groups (self w) /\
     results (self w1) = results (self w) /\
     logged w1 = logged w) /\
    (forall k,
        In k (dict_keys (entries (all_data (self w1)))) <->
        In k (dict_keys (entries (all_data (self w)))) \/
        exists i, (1 <= i <= List.length samples)%nat /\ k = sample_name i) /\
    (forall i sample,
        nth_error samples i = Some sample ->
        dict_get string_dec (sample_name (S i)) (entries (all_data (self w1))) =
          Some (inline_entry sample) /\
        as_array (inline_entry sample) "transmittance" =
          (a <- as_array (inline_entry sample) "absorbance" ;; Ok (as_transmittance a))%py) /\
    (forall k,
        (forall i, (1 <= i <= List.length samples)%nat -> k <> sample_name i) ->
        dict_get string_dec k (entries (all_data (self w1))) =
        dict_get string_dec k (entries (all_data (self w)))) /\
    (fst (load_sample_spectra samples w) = Ok tt ->
     load_sample_spectra samples w1 = (Ok tt, w1)).
Proof.
  intros samples w w1.
  set (w0 := {| self := set_all_data (add_samples 1 samples (all_data (self w))) (self w);
                logged := logged w |}).
  assert (Hw1 : w1 = snd (_build_averaged_dataset w0)) by reflexivity.
  pose proof (build_averaged_frame w0) as (Kc & Kr & Ka & Kg & Ks & Kl).
  rewrite <- Hw1 in Kc, Kr, Ka, Kg, Ks, Kl.
  assert (Hall : all_data (self w1) = add_samples 1 samples (all_data (self w)))
    by (rewrite Ka; reflexivity).
  split; [|split; [|split; [|split]]].
  - rewrite Kc, Kr, Kg, Ks, Kl. cbn. auto.
  - intros k. rewrite Hall, add_samples_keys. split.
    + intros [H|(j & Hj & ->)]; [left; exact H|].
      right. exists (S j). split; [lia | reflexivity].
    + intros [H|(i & Hi & ->)]; [left; exact H|].
      right. exists (i - 1)%nat. split; [lia | f_equal; lia].
  - intros i sample Hi. split.
    + rewrite Hall. exact (add_samples_get samples 1 (all_data (self w)) i sample Hi).
    + destruct sample as [wl ab]. unfold as_array, as_pairs, inline_entry, inline_record.
      cbn [record wavelengths absorbances transmittances].
      change (String.eqb (lower "transmittance") "absorbance") with false.
      change (String.eqb (lower "transmittance") "transmittance") with true.
      change (String.eqb (lower "absorbance") "absorbance") with true.
      cbn [bind]. unfold as_transmittance. rewrite combine_map_r. reflexivity.
  - intros k Hk. rewrite Hall. apply add_samples_other.
    intros j Hj. apply (Hk (S j)). lia.
  - intros Hok.
    assert (Hagain : add_samples 1 samples (all_data (self w1)) = all_data (self w1)).
    { apply add_samples_again. intros j sample Hj. rewrite Hall.
      exact (add_samples_get samples 1 (all_data (self w)) j sample Hj). }
    rewrite load_sample_spectra_spec, Hagain.
    assert (Hsame : {| self := set_all_data (all_data (self w1)) (self w1);
                       logged := logged w1 |} = w1).
    { destruct w1 as [[c r a v g s] l]. reflexivity. }
    rewrite Hsame. rewrite build_averaged_spec.
    change (fst (load_sample_spectra samples w)) with (fst (_build_averaged_dataset w0)) in Hok.
    rewrite build_averaged_spec in Hok, Hw1.
    rewrite Hall. change (add_samples 1 samples (all_data (self w))) with (all_data (self w0)).
    destruct (entries (all_data (self w0))) as [|item items] eqn:E; [reflexivity|].
    destruct (averaged (all_data (self w0)) "#") as [a|e]; [|discriminate Hok].
    cbn [snd] in Hw1. rewrite Hw1. reflexivity.
Qed.

Lemma load_sample_spectra_adds_numbered_entries_witness :
  dict_get string_dec "sample_01"
    (entries (all_data (self (snd (load_sample_spectra [([400], [1])] fresh_world))))) =
    Some (inline_entry ([400], [1])).
Proof.
  exact (proj1 (proj1 (proj2 (proj2
           (load_sample_spectra_adds_numbered_entries [([400], [1])] fresh_world)))
           0%nat ([400], [1]) eq_refl)).
Defined.

(* ------------------------------------------------------------------ *)
(** ** Order of the checks of an analysis *)

(** X26: both analyses check the group first: an unbuilt group raises
    the group [KeyError] whatever else is wrong.  [analyse_group] then
    checks a named illuminant and raises the illuminant [KeyError] before
    it looks at any entry.  On a built group without entries
    [analyse_group] returns an empty dict even without the colour package,
    whereas [analyse_blackbody] needs the package for its illuminant and
    raises [RuntimeError] without it.  None of these calls changes the
    pipeline. *)
Theorem analysis_checks_group_then_illuminant :
  (forall (colour : option Colour) (group_name : string) (illuminant : IlluminantArg)
          (temperature : R) (absorbance : bool) (reference_lab : option array) (w : World),
      dict_mem string_dec group_name (groups (self w)) = false ->
      analyse_group colour group_name illuminant absorbance reference_lab w =
        (Raise (group_missing group_name), w) /\
      analyse_blackbody colour group_name temperature absorbance reference_lab w =
        (Raise (group_missing group_name), w)) /\
  (forall (colour : option Colour) (group_name name : string) (absorbance : bool)
          (reference_lab : option array) (w : World),
      dict_mem string_dec group_name (groups (self w)) = true ->
      dict_mem string_dec name (NotebookConfig.illuminants (config (self w))) = false ->
      analyse_group colour group_name (ByName name) absorbance reference_lab w =
        (Raise (illuminant_missing name), w)) /\
  (forall (colour : option Colour) (group_name : string) (illuminant : IlluminantArg)
          (absorbance : bool) (reference_lab : option array) (w : World)
          (group : DatasetCollection),
      dict_get string_dec group_name (groups (self w)) = Some group ->
      entries group = [] ->
      (forall name, illuminant = ByName name ->
                    dict_mem string_dec name (NotebookConfig.illuminants (config (self w)))
                    = true) ->
      analyse_group colour group_name illuminant absorbance reference_lab w = (Ok [], w)) /\
  (forall (colour : option Colour) (group_name : string) (temperature : R)
          (absorbance : bool) (reference_lab : option array) (w : World)
          (group : DatasetCollection),
      dict_get string_dec group_name (groups (self w)) = Some group ->
      entries group = [] ->
      analyse_blackbody colour group_name temperature absorbance reference_lab w =
        (match colour with
         | None => Raise colour_missing
         | Some _ => Ok []
         end, w)).
Proof.
  split; [|split; [|split]].
  - intros colour group_name illuminant temperature absorbance reference_lab w Hg.
    split; [apply analyse_group_unbuilt, Hg|].
    unfold analyse_blackbody, bindM, get_self, raise. rewrite Hg. reflexivity.
  - intros colour group_name name absorbance reference_lab w Hg Hi.
    unfold analyse_group, bindM, get_self, raise. rewrite Hg, Hi. reflexivity.
  - intros colour group_name illuminant absorbance reference_lab w group Hgroup Hitems Hill.
    unfold analyse_group, bindM, get_self, subscript, ret, raise.
    rewrite (dict_mem_of_get _ _ _ Hgroup). cbn [negb].
    destruct illuminant as [name|sd].
    + rewrite (Hill name eq_refl). cbn [negb].
      pose proof (Hill name eq_refl) as Hm. unfold dict_mem in Hm.
      destruct (dict_get string_dec name (NotebookConfig.illuminants (config (self w))))
        as [sd|]; [|discriminate].
      rewrite Hgroup, Hitems. reflexivity.
    + rewrite Hgroup, Hitems. reflexivity.
  - intros colour group_name temperature absorbance reference_lab w group Hgroup Hitems.
    unfold analyse_blackbody, bindM, get_self, subscript, ret, raise, lift.
    rewrite (dict_mem_of_get _ _ _ Hgroup). cbn [negb].
    destruct colour as [c|]; cbn [blackbody_illuminant]; [|reflexivity].
    rewrite Hgroup, Hitems. reflexivity.
Qed.

Lemma analysis_checks_group_then_illuminant_witness :
  analyse_group None "blank" (ByName "D65") true None lit_world = (Ok [], lit_world) /\
  analyse_blackbody None "blank" 6500 true None lit_world = (Raise colour_missing, lit_world).
Proof.
  split.
  - apply (proj1 (proj2 (proj2 analysis_checks_group_then_illuminant))
             None "blank" (ByName "D65") true None lit_world DatasetCollection_new).
    + reflexivity.
    + reflexivity.
    + intros name H. injection H as <-. reflexivity.
  - apply (proj2 (proj2 (proj2 analysis_checks_group_then_illuminant))
             None "blank" 6500 true None lit_world DatasetCollection_new).
    + reflexivity.
    + reflexivity.
Defined.
